(** * langchaingo: OpenAI orchestration layer and structured-output parser

    A shallow embedding of the Go sources
      - [llms/openai] completion client  ([LLM]:  Call, Generate,
        createCompletionStream, createCompletion, CreateEmbedding),
      - [llms/openai] chat client        ([Chat]: Call, Generate,
        createChatCompletionStream, createChatCompletion),
      - [outputparser/structured_json.go] ([StructuredJSON]: parse, Parse,
        ParseWithPrompt, GetFormatInstructions),
      - [tools/stable_diffusion] ([Tool]: New and its options, Call; the
        client of the web UI: SetAPIUrl, Text2ImgWithCustomPrompt),
    together with the properties stated about them.

    Conventions of the embedding.
      - A Go function returning [(T, error)] is a computation in the monad
        [M], whose result is [Ok t] for [return t, nil], [Err e] for
        [return nil, e] (or [return [][]float64{}, e]), and [Panic] for a
        run-time panic (nil pointer dereference).
      - Everything the code does to the outside is recorded in the [World]:
        the requests issued on the provider client, the fragments handed to
        the caller's streaming function, the calls on the logger, and the
        streams closed.
      - The provider client ([*openai.Client] of go-openai) is a record of
        functions of the requests issued so far and the request at hand.
      - A [map[string]any] is a [gmap string any].
      - The image tool has a world of its own, the list of the things it
        did (request sent, body closed, directory made, file written); the
        network, the file system and the clock answer as functions of that
        list, and the functions of the Go library that it calls are
        parameters of its sections. *)

From Stdlib Require Import ZArith NArith Ascii String.
From stdpp Require Import base option list strings gmap sorting.

Local Open Scope Z_scope.
Local Open Scope string_scope.
Local Open Scope list_scope.

(** ** Errors *)

(** Go [error] values.  The four sentinel errors are the package variables of
    [llms/openai]; [io_EOF] is [io.EOF]; [ParseJSONError] is the struct of
    that name of [outputparser]; [OtherError] is any other error (of the
    transport, of the provider, of the caller's streaming function, of the
    JSON decoder), identified by its message. *)
Inductive error : Type :=
  | io_EOF
  | ErrEmptyResponse
  | ErrMissingToken
  | ErrUnexpectedResponseLength
  | ErrUnexpectedEmbeddingModel
  | ParseJSONError (text reason : string)
  | OtherError (msg : string).

#[global] Instance error_eq_dec : EqDecision error.
Proof. solve_decision. Defined.

(** [err.Error()] *)
Definition error_Error (e : error) : string :=
  match e with
  | io_EOF => "EOF"
  | ErrEmptyResponse => "no response"
  | ErrMissingToken =>
      "missing the OpenAI API key, set it in the OPENAI_API_KEY environment variable"
  | ErrUnexpectedResponseLength => "unexpected length of response"
  | ErrUnexpectedEmbeddingModel => "unexpected embedding model"
  | ParseJSONError text reason => "parse text " +:+ text +:+ ". " +:+ reason
  | OtherError msg => msg
  end.

(** [errors.Is(err, io.EOF)] *)
Definition is_EOF (e : error) : bool :=
  match e with io_EOF => true | _ => false end.

(** ** Numbers *)

(** [float64] and [float32] values are kept as their IEEE-754 bit patterns;
    the two conversions of the language are parameters of the sections that
    use them. *)
Definition float64 : Type := Z.
Definition float32 : Type := Z.

(** ** Results and the world *)

Inductive result (A : Type) : Type :=
  | Ok (a : A)
  | Err (e : error)
  | Panic (why : string).
Arguments Ok {A} a.
Arguments Err {A} e.
Arguments Panic {A} why.

(** The records a Go caller holds after the call: [nil] on every failure. *)
Definition returned {A : Type} (r : result (list A)) : list A :=
  match r with Ok l => l | _ => [] end.

Module schema.

Record FunctionCall : Type := mkFunctionCall {
  fc_Name : string;
  fc_Arguments : string
}.

Record AIChatMessage : Type := mkAIChatMessage {
  Content : string;
  FunctionCall_ : option FunctionCall
}.

(** The implementations of the [ChatMessage] interface, with what
    [GetContent] and [GetType] return on them.  [CustomChatMessage] is an
    implementation of another package. *)
Inductive ChatMessageType : Type :=
  | ChatMessageTypeAI
  | ChatMessageTypeHuman
  | ChatMessageTypeSystem
  | ChatMessageTypeGeneric
  | ChatMessageTypeFunction
  | ChatMessageTypeUnknown (name : string).

Inductive ChatMessage : Type :=
  | AI (m : AIChatMessage)
  | Human (content : string)
  | System (content : string)
  | Generic (content : string)
  | Function (content : string)
  | CustomChatMessage (typ : ChatMessageType) (content : string).

Definition GetContent (m : ChatMessage) : string :=
  match m with
  | AI m => Content m
  | Human c | System c | Generic c | Function c => c
  | CustomChatMessage _ c => c
  end.

Definition GetType (m : ChatMessage) : ChatMessageType :=
  match m with
  | AI _ => ChatMessageTypeAI
  | Human _ => ChatMessageTypeHuman
  | System _ => ChatMessageTypeSystem
  | Generic _ => ChatMessageTypeGeneric
  | Function _ => ChatMessageTypeFunction
  | CustomChatMessage t _ => t
  end.

End schema.

(** Values stored in a [map[string]any] by this package. *)
Inductive any : Type :=
  | AnyInt (n : Z)
  | AnyString (s : string).

#[global] Instance any_eq_dec : EqDecision any.
Proof. solve_decision. Defined.

Module llms.

Record Generation : Type := mkGeneration {
  Text : string;
  Message : option schema.AIChatMessage;
  GenerationInfo : gmap string any
}.

Record FunctionDefinition : Type := mkFunctionDefinition {
  fd_Name : string;
  fd_Description : string;
  fd_Parameters : string
}.

(** The streaming function is a closure; what it answers may depend on the
    fragments it was given before. *)
Definition StreamingFunc_t : Type := list string -> string -> option error.

Record CallOptions : Type := mkCallOptions {
  Model : string;
  MaxTokens : Z;
  Temperature : float64;
  TopP : float64;
  StopWords : list string;
  N : Z;
  FrequencyPenalty : float64;
  PresencePenalty : float64;
  StreamingFunc : option StreamingFunc_t;
  Functions : list FunctionDefinition
}.

(** [llms.CallOptions{}] *)
Definition zeroCallOptions : CallOptions :=
  mkCallOptions "" 0 0 0 [] 0 0 0 None [].

(** A [CallOption] mutates the options it is applied to. *)
Definition CallOption : Type := CallOptions -> CallOptions.

(** [for _, opt := range options { opt(&opts) }] *)
Definition applyOptions (opts : CallOptions) (options : list CallOption)
  : CallOptions :=
  foldl (fun o opt => opt o) opts options.

Definition FunctionCallBehaviorAuto : string := "auto".

End llms.

(** ** The provider library (go-openai): the declarations the package uses *)

Module openai.

Record Usage : Type := mkUsage {
  PromptTokens : Z;
  CompletionTokens : Z;
  TotalTokens : Z
}.

Record CompletionRequest : Type := mkCompletionRequest {
  cq_Model : string;
  cq_Prompt : string;
  cq_MaxTokens : Z;
  cq_Temperature : float32;
  cq_TopP : float32;
  cq_Stream : bool;
  cq_Stop : list string;
  cq_N : Z;
  cq_FrequencyPenalty : float32;
  cq_PresencePenalty : float32
}.

Record CompletionChoice : Type := mkCompletionChoice {
  cc_Text : string;
  cc_FinishReason : string
}.

Record CompletionResponse : Type := mkCompletionResponse {
  cr_Choices : list CompletionChoice;
  cr_Usage : Usage
}.

Record FunctionCall : Type := mkFunctionCall {
  fc_Name : string;
  fc_Arguments : string
}.

Record FunctionDefinition : Type := mkFunctionDefinition {
  fd_Name : string;
  fd_Description : string;
  fd_Parameters : string
}.

Definition ChatMessageRoleSystem : string := "system".
Definition ChatMessageRoleUser : string := "user".
Definition ChatMessageRoleAssistant : string := "assistant".
Definition ChatMessageRoleFunction : string := "function".

Definition FinishReasonFunctionCall : string := "function_call".

Record ChatCompletionMessage : Type := mkChatCompletionMessage {
  cm_Role : string;
  cm_Content : string;
  cm_FunctionCall : option FunctionCall
}.

Record ChatCompletionRequest : Type := mkChatCompletionRequest {
  hq_Model : string;
  hq_Messages : list ChatCompletionMessage;
  hq_MaxTokens : Z;
  hq_Temperature : float32;
  hq_TopP : float32;
  hq_Stream : bool;
  hq_Stop : list string;
  hq_N : Z;
  hq_FrequencyPenalty : float32;
  hq_PresencePenalty : float32;
  hq_Functions : list FunctionDefinition;
  hq_FunctionCall : option string
}.

Record ChatCompletionChoice : Type := mkChatCompletionChoice {
  hc_Message : ChatCompletionMessage;
  hc_FinishReason : string
}.

Record ChatCompletionResponse : Type := mkChatCompletionResponse {
  hr_Choices : list ChatCompletionChoice;
  hr_Usage : Usage
}.

Record ChatCompletionStreamChoiceDelta : Type := mkDelta {
  d_Content : string;
  d_Role : string;
  d_FunctionCall : option FunctionCall
}.

Record ChatCompletionStreamChoice : Type := mkChatCompletionStreamChoice {
  sc_Delta : ChatCompletionStreamChoiceDelta;
  sc_FinishReason : string
}.

Record ChatCompletionStreamResponse : Type := mkChatCompletionStreamResponse {
  sr_Choices : list ChatCompletionStreamChoice
}.

(** [EmbeddingModel] is an integer enumeration of the library. *)
Definition EmbeddingModel : Type := Z.

Record EmbeddingRequest : Type := mkEmbeddingRequest {
  eq_Input : list string;
  eq_Model : EmbeddingModel
}.

Record Embedding : Type := mkEmbedding {
  e_Embedding : list float32;
  e_Index : Z
}.

Record EmbeddingResponse : Type := mkEmbeddingResponse {
  er_Data : list Embedding;
  er_Usage : Usage
}.

(** A request issued on the client. *)
Inductive Call : Type :=
  | CallCompletion (r : CompletionRequest)
  | CallCompletionStream (r : CompletionRequest)
  | CallChatCompletion (r : ChatCompletionRequest)
  | CallChatCompletionStream (r : ChatCompletionRequest)
  | CallEmbeddings (r : EmbeddingRequest).

(** What [stream.Recv()] answers, call after call; once the list is used
    up it answers [io.EOF]. *)
Definition Stream (R : Type) : Type := list (error + R).

(** [*openai.Client]: each operation answers from the requests issued
    before it and its own request. *)
Record Client : Type := mkClient {
  CreateCompletion :
    list Call -> CompletionRequest -> error + CompletionResponse;
  CreateCompletionStream :
    list Call -> CompletionRequest -> error + Stream CompletionResponse;
  CreateChatCompletion :
    list Call -> ChatCompletionRequest -> error + ChatCompletionResponse;
  CreateChatCompletionStream :
    list Call -> ChatCompletionRequest
    -> error + Stream ChatCompletionStreamResponse;
  CreateEmbeddings :
    list Call -> EmbeddingRequest -> error + EmbeddingResponse
}.

End openai.

(** ** The world and the monad of the package's functions *)

Inductive LogEvent : Type :=
  | LLMRequest (msg : string)
  | LLMResponse (msg : string)
  | LLMError (err : error).

Record World : Type := mkWorld {
  issued : list openai.Call;      (* requests issued on the client, oldest first *)
  delivered : list string;        (* fragments given to the streaming function *)
  logged : list LogEvent;         (* calls on the logger *)
  closed : nat                    (* streams closed *)
}.

Definition emptyWorld : World := mkWorld [] [] [] 0.

Definition M (A : Type) : Type := World -> World * result A.

Definition mret {A : Type} (a : A) : M A := fun w => (w, Ok a).

Definition mfail {A : Type} (e : error) : M A := fun w => (w, Err e).

Definition mpanic {A : Type} (why : string) : M A := fun w => (w, Panic why).

Definition mbind {A B : Type} (m : M A) (k : A -> M B) : M B :=
  fun w =>
    match m w with
    | (w', Ok a) => k a w'
    | (w', Err e) => (w', Err e)
    | (w', Panic why) => (w', Panic why)
    end.

(** [mtry m] runs [m] and hands its error to the caller as a value, the way
    Go code receives [(v, err)] before it tests [err != nil]. *)
Definition mtry {A : Type} (m : M A) : M (error + A) :=
  fun w =>
    match m w with
    | (w', Ok a) => (w', Ok (inr a))
    | (w', Err e) => (w', Ok (inl e))
    | (w', Panic why) => (w', Panic why)
    end.

Declare Scope go_scope.
Delimit Scope go_scope with go.
Notation "x <- m ;; k" := (mbind m (fun x => k))
  (at level 100, m at next level, right associativity) : go_scope.
Notation "m ;;; k" := (mbind m (fun _ => k))
  (at level 100, right associativity) : go_scope.
Local Open Scope go_scope.

Definition log (ev : LogEvent) : M unit :=
  fun w => (mkWorld (issued w) (delivered w) (logged w ++ [ev]) (closed w), Ok tt).

(** Issue a request: the client answers, and the request is recorded. *)
Definition issue {R : Type} (call : openai.Call)
    (answer : list openai.Call -> error + R) : M R :=
  fun w =>
    (mkWorld (issued w ++ [call]) (delivered w) (logged w) (closed w),
     match answer (issued w) with inl e => Err e | inr r => Ok r end).

(** [err = opts.StreamingFunc(ctx, []byte(text))]; calling a nil function
    value panics. *)
Definition callStreamingFunc (f : option llms.StreamingFunc_t) (chunk : string)
    : M (option error) :=
  match f with
  | None => mpanic "invalid memory address or nil pointer dereference"
  | Some f =>
      fun w =>
        (mkWorld (issued w) (delivered w ++ [chunk]) (logged w) (closed w),
         Ok (f (delivered w) chunk))
  end.

(** [defer stream.Close()]: the stream is closed when the function returns,
    whatever the way it returns. *)
Definition deferClose {A : Type} (m : M A) : M A :=
  fun w =>
    let '(w', r) := m w in
    (mkWorld (issued w') (delivered w') (logged w') (S (closed w')), r).

(** [len(s) == 0] *)
Definition len0 (s : string) : bool := (String.length s =? 0)%nat.

(** ** Package [llms/openai]: constants *)

Definition defaultChatModel : string := "gpt-3.5-turbo".
Definition defaultCompletionModel : string := "text-davinci-003".
Definition defaultEmbeddingModel : string := "text-embedding-ada-002".
Definition defaultMaxTokens : Z := 1024.

(** ** The completion client *)

Module LLM.

(** [type LLM struct { model; client; Logger }]; the calls on [Logger] are
    recorded in the world. *)
Record t : Type := mk {
  model : string;
  client : openai.Client
}.

Section Methods.

(** [float32(x)] on a [float64] and [float64(x)] on a [float32]. *)
Variable float32_of_float64 : float64 -> float32.
Variable float64_of_float32 : float32 -> float64.

(** The package's table from model names to the library's embedding
    models, declared in another file of the package. *)
Variable stringToEmbeddingModel : gmap string openai.EmbeddingModel.

(** The [for { resp, err := stream.Recv() ... }] loop of
    [createCompletionStream], on what is left of the stream and the
    current [output] and [finishReason]. *)
Fixpoint recvLoop (opts : llms.CallOptions)
    (stream : openai.Stream openai.CompletionResponse)
    (output finishReason : string) : M (string * string) :=
  match stream with
  | [] => mret (output, finishReason)
  | inl err :: rest =>
      if is_EOF err then mret (output, finishReason) else mfail err
  | inr resp :: rest =>
      match openai.cr_Choices resp with
      | [] => mfail ErrEmptyResponse
      | choice0 :: _ =>
          let text := openai.cc_Text choice0 in
          err <- callStreamingFunc (llms.StreamingFunc opts) text ;;
          match err with
          | Some e => mfail e
          | None =>
              recvLoop opts rest (output +:+ text)
                (openai.cc_FinishReason choice0)
          end
      end
  end.

Definition createCompletionStream (o : t)
    (request : openai.CompletionRequest) (opts : llms.CallOptions)
    : M llms.Generation :=
  stream <- issue (openai.CallCompletionStream request)
              (fun h => openai.CreateCompletionStream (client o) h request) ;;
  deferClose
    (acc <- recvLoop opts stream "" "" ;;
     let '(output, finishReason) := acc in
     mret (llms.mkGeneration output None
             {[ "FinishReason" := AnyString finishReason ]})).

Definition createCompletion (o : t) (request : openai.CompletionRequest)
    : M llms.Generation :=
  resp <- issue (openai.CallCompletion request)
            (fun h => openai.CreateCompletion (client o) h request) ;;
  match openai.cr_Choices resp with
  | [] => mfail ErrEmptyResponse
  | choice0 :: _ =>
      let text := openai.cc_Text choice0 in
      let finishReason := openai.cc_FinishReason choice0 in
      mret (llms.mkGeneration text None
              (<[ "CompletionTokens" :=
                    AnyInt (openai.CompletionTokens (openai.cr_Usage resp)) ]>
               (<[ "PromptTokens" :=
                    AnyInt (openai.PromptTokens (openai.cr_Usage resp)) ]>
               (<[ "TotalTokens" :=
                    AnyInt (openai.TotalTokens (openai.cr_Usage resp)) ]>
               {[ "FinishReason" := AnyString finishReason ]}))))
  end.

(** [request.Prompt = prompt] *)
Definition withPrompt (request : openai.CompletionRequest) (prompt : string)
    : openai.CompletionRequest :=
  openai.mkCompletionRequest
    (openai.cq_Model request) prompt (openai.cq_MaxTokens request)
    (openai.cq_Temperature request) (openai.cq_TopP request)
    (openai.cq_Stream request) (openai.cq_Stop request)
    (openai.cq_N request) (openai.cq_FrequencyPenalty request)
    (openai.cq_PresencePenalty request).

(** The call of the loop body of [Generate]: its two branches differ only
    in the function they call. *)
Definition dispatch (o : t) (opts : llms.CallOptions)
    (request : openai.CompletionRequest) : M llms.Generation :=
  if openai.cq_Stream request
  then createCompletionStream o request opts
  else createCompletion o request.

(** The [for _, prompt := range prompts] loop of [Generate]. *)
Fixpoint generateLoop (o : t) (opts : llms.CallOptions)
    (request : openai.CompletionRequest) (prompts : list string)
    (generations : list llms.Generation) : M (list llms.Generation) :=
  match prompts with
  | [] => mret generations
  | prompt :: rest =>
      log (LLMRequest prompt) ;;;
      let request := withPrompt request prompt in
      r <- mtry (dispatch o opts request) ;;
      match r with
      | inl err => log (LLMResponse (error_Error err)) ;;; mfail err
      | inr generation =>
          log (LLMResponse (llms.Text generation)) ;;;
          generateLoop o opts request rest (generations ++ [generation])
      end
  end.

(** [opts := llms.CallOptions{}; for _, opt := range options { opt(&opts) }] *)
Definition callOptions (options : list llms.CallOption) : llms.CallOptions :=
  llms.applyOptions llms.zeroCallOptions options.

(** [request := openai.CompletionRequest{ ... }], with the model chosen
    before it. *)
Definition buildRequest (o : t) (opts : llms.CallOptions)
    : openai.CompletionRequest :=
  let model := if len0 (llms.Model opts) then model o else llms.Model opts in
  openai.mkCompletionRequest
    model "" (llms.MaxTokens opts)
    (float32_of_float64 (llms.Temperature opts))
    (float32_of_float64 (llms.TopP opts))
    (bool_decide (is_Some (llms.StreamingFunc opts)))
    (llms.StopWords opts) (llms.N opts)
    (float32_of_float64 (llms.FrequencyPenalty opts))
    (float32_of_float64 (llms.PresencePenalty opts)).

Definition Generate (o : t) (prompts : list string)
    (options : list llms.CallOption) : M (list llms.Generation) :=
  let opts := callOptions options in
  generateLoop o opts (buildRequest o opts) prompts [].

Definition Call (o : t) (prompt : string) (options : list llms.CallOption)
    : M string :=
  r <- Generate o [prompt] options ;;
  match r with
  | [] => mfail ErrEmptyResponse
  | r0 :: _ => mret (llms.Text r0)
  end.

Definition CreateEmbedding (o : t) (model : string)
    (inputTexts : list string) : M (list (list float64)) :=
  let model := if len0 model then defaultEmbeddingModel else model in
  match stringToEmbeddingModel !! model with
  | None => mfail ErrUnexpectedEmbeddingModel
  | Some embeddingModel =>
      let request := openai.mkEmbeddingRequest inputTexts embeddingModel in
      resp <- issue (openai.CallEmbeddings request)
                (fun h => openai.CreateEmbeddings (client o) h request) ;;
      let data := openai.er_Data resp in
      if (length data =? 0)%nat then mfail ErrEmptyResponse
      else if negb (length inputTexts =? length data)%nat
      then mfail ErrUnexpectedResponseLength
      else mret (map (fun d => map float64_of_float32 (openai.e_Embedding d))
                   data)
  end.

End Methods.

End LLM.

(** ** The chat client *)

Module Chat.

Record t : Type := mk {
  model : string;
  client : openai.Client
}.

Section Methods.

Variable float32_of_float64 : float64 -> float32.

(** [json.Marshal(request.Messages)], of the standard library; its
    output only goes to the logger. *)
Variable json_Marshal : list openai.ChatCompletionMessage -> string.

(** The body of the [for j, m := range messageSet] loop of [Generate]. *)
Definition translateMessage (m : schema.ChatMessage)
    : openai.ChatCompletionMessage :=
  let content := schema.GetContent m in
  match schema.GetType m with
  | schema.ChatMessageTypeSystem =>
      openai.mkChatCompletionMessage openai.ChatMessageRoleSystem content None
  | schema.ChatMessageTypeAI =>
      openai.mkChatCompletionMessage openai.ChatMessageRoleAssistant content
        match m with
        | schema.AI aiChatMsg =>
            match schema.FunctionCall_ aiChatMsg with
            | Some fc =>
                Some (openai.mkFunctionCall (schema.fc_Name fc)
                        (schema.fc_Arguments fc))
            | None => None
            end
        | _ => None
        end
  | schema.ChatMessageTypeHuman =>
      openai.mkChatCompletionMessage openai.ChatMessageRoleUser content None
  | schema.ChatMessageTypeGeneric =>
      openai.mkChatCompletionMessage openai.ChatMessageRoleUser content None
  | schema.ChatMessageTypeFunction =>
      openai.mkChatCompletionMessage openai.ChatMessageRoleFunction content None
  | schema.ChatMessageTypeUnknown _ =>
      openai.mkChatCompletionMessage "" content None
  end.

(** The accumulators of the streaming loop. *)
Record acc : Type := mkAcc {
  a_text : string;
  a_finishReason : string;
  a_functionCall : option schema.FunctionCall
}.

(** The [for { resp, err := stream.Recv() ... }] loop of
    [createChatCompletionStream]. *)
Fixpoint recvLoop (opts : llms.CallOptions)
    (stream : openai.Stream openai.ChatCompletionStreamResponse)
    (a : acc) : M acc :=
  match stream with
  | [] => mret a
  | inl err :: rest => if is_EOF err then mret a else mfail err
  | inr resp :: rest =>
      match openai.sr_Choices resp with
      | [] => mfail ErrEmptyResponse
      | choice0 :: _ =>
          let content := openai.d_Content (openai.sc_Delta choice0) in
          err <- callStreamingFunc (llms.StreamingFunc opts) content ;;
          match err with
          | Some e => mfail e
          | None =>
              let text := a_text a +:+ content in
              let finishReason := openai.sc_FinishReason choice0 in
              if String.eqb (openai.sc_FinishReason choice0)
                   openai.FinishReasonFunctionCall
              then
                match openai.d_FunctionCall (openai.sc_Delta choice0) with
                | None =>
                    mpanic "invalid memory address or nil pointer dereference"
                | Some fc =>
                    recvLoop opts rest
                      (mkAcc text finishReason
                         (Some (schema.mkFunctionCall (openai.fc_Name fc)
                                  (openai.fc_Arguments fc))))
                end
              else recvLoop opts rest
                     (mkAcc text finishReason (a_functionCall a))
          end
      end
  end.

Definition createChatCompletionStream (o : t)
    (request : openai.ChatCompletionRequest) (opts : llms.CallOptions)
    : M llms.Generation :=
  stream <- issue (openai.CallChatCompletionStream request)
              (fun h => openai.CreateChatCompletionStream (client o) h request) ;;
  deferClose
    (a <- recvLoop opts stream (mkAcc "" "" None) ;;
     mret (llms.mkGeneration ""
             (Some (schema.mkAIChatMessage (a_text a) (a_functionCall a)))
             {[ "FinishReason" := AnyString (a_finishReason a) ]})).

Definition createChatCompletion (o : t)
    (request : openai.ChatCompletionRequest) : M llms.Generation :=
  resp <- issue (openai.CallChatCompletion request)
            (fun h => openai.CreateChatCompletion (client o) h request) ;;
  match openai.hr_Choices resp with
  | [] => mfail ErrEmptyResponse
  | choice0 :: _ =>
      let text := openai.cm_Content (openai.hc_Message choice0) in
      let finishReason := openai.hc_FinishReason choice0 in
      functionCall <-
        (if String.eqb (openai.hc_FinishReason choice0)
              openai.FinishReasonFunctionCall
         then
           match openai.cm_FunctionCall (openai.hc_Message choice0) with
           | None =>
               mpanic "invalid memory address or nil pointer dereference"
           | Some fc =>
               mret (Some (schema.mkFunctionCall (openai.fc_Name fc)
                             (openai.fc_Arguments fc)))
           end
         else mret None) ;;
      mret (llms.mkGeneration text
              (Some (schema.mkAIChatMessage text functionCall))
              (<[ "CompletionTokens" :=
                    AnyInt (openai.CompletionTokens (openai.hr_Usage resp)) ]>
               (<[ "PromptTokens" :=
                    AnyInt (openai.PromptTokens (openai.hr_Usage resp)) ]>
               (<[ "TotalTokens" :=
                    AnyInt (openai.TotalTokens (openai.hr_Usage resp)) ]>
               {[ "FinishReason" := AnyString finishReason ]}))))
  end.

(** [request.Messages = msgs] *)
Definition withMessages (request : openai.ChatCompletionRequest)
    (msgs : list openai.ChatCompletionMessage)
    : openai.ChatCompletionRequest :=
  openai.mkChatCompletionRequest
    (openai.hq_Model request) msgs (openai.hq_MaxTokens request)
    (openai.hq_Temperature request) (openai.hq_TopP request)
    (openai.hq_Stream request) (openai.hq_Stop request)
    (openai.hq_N request) (openai.hq_FrequencyPenalty request)
    (openai.hq_PresencePenalty request) (openai.hq_Functions request)
    (openai.hq_FunctionCall request).

(** The call of the loop body of [Generate]: its two branches differ only
    in the function they call. *)
Definition dispatch (o : t) (opts : llms.CallOptions)
    (request : openai.ChatCompletionRequest) : M llms.Generation :=
  if openai.hq_Stream request
  then createChatCompletionStream o request opts
  else createChatCompletion o request.

(** The [for _, msgs := range openaiMessageSets] loop of [Generate]. *)
Fixpoint generateLoop (o : t) (opts : llms.CallOptions)
    (request : openai.ChatCompletionRequest)
    (openaiMessageSets : list (list openai.ChatCompletionMessage))
    (generations : list llms.Generation) : M (list llms.Generation) :=
  match openaiMessageSets with
  | [] => mret generations
  | msgs :: rest =>
      let request := withMessages request msgs in
      log (LLMRequest (json_Marshal (openai.hq_Messages request))) ;;;
      r <- mtry (dispatch o opts request) ;;
      match r with
      | inl err => log (LLMError err) ;;; mfail err
      | inr generation =>
          log (LLMResponse (llms.Text generation)) ;;;
          generateLoop o opts request rest (generations ++ [generation])
      end
  end.

(** [opts := llms.CallOptions{MaxTokens: defaultMaxTokens}] and the
    options applied to it. *)
Definition callOptions (options : list llms.CallOption) : llms.CallOptions :=
  llms.applyOptions
    (llms.mkCallOptions "" defaultMaxTokens 0 0 [] 0 0 0 None [])
    options.

(** [request := openai.ChatCompletionRequest{ ... }] and the loop over
    [opts.Functions] that follows it. *)
Definition buildRequest (o : t) (opts : llms.CallOptions)
    : openai.ChatCompletionRequest :=
  let model := if len0 (llms.Model opts) then model o else llms.Model opts in
  openai.mkChatCompletionRequest
    model [] (llms.MaxTokens opts)
    (float32_of_float64 (llms.Temperature opts))
    (float32_of_float64 (llms.TopP opts))
    (bool_decide (is_Some (llms.StreamingFunc opts)))
    (llms.StopWords opts) (llms.N opts)
    (float32_of_float64 (llms.FrequencyPenalty opts))
    (float32_of_float64 (llms.PresencePenalty opts))
    (map (fun fn =>
            openai.mkFunctionDefinition (llms.fd_Name fn)
              (llms.fd_Description fn) (llms.fd_Parameters fn))
       (llms.Functions opts))
    (match llms.Functions opts with
     | [] => None
     | _ :: _ => Some llms.FunctionCallBehaviorAuto
     end).

Definition Generate (o : t) (messageSets : list (list schema.ChatMessage))
    (options : list llms.CallOption) : M (list llms.Generation) :=
  let opts := callOptions options in
  let openaiMessageSets := map (map translateMessage) messageSets in
  generateLoop o opts (buildRequest o opts) openaiMessageSets [].

Definition Call (o : t) (messages : list schema.ChatMessage)
    (options : list llms.CallOption) : M (option schema.AIChatMessage) :=
  r <- Generate o [messages] options ;;
  match r with
  | [] => mfail ErrEmptyResponse
  | r0 :: _ => mret (llms.Message r0)
  end.

End Methods.

Section Embedding.

Variable float64_of_float32 : float32 -> float64.
Variable stringToEmbeddingModel : gmap string openai.EmbeddingModel.

Definition CreateEmbedding (o : t) (model : string)
    (inputTexts : list string) : M (list (list float64)) :=
  let model := if len0 model then defaultEmbeddingModel else model in
  match stringToEmbeddingModel !! model with
  | None => mfail ErrUnexpectedEmbeddingModel
  | Some embeddingModel =>
      let request := openai.mkEmbeddingRequest inputTexts embeddingModel in
      resp <- issue (openai.CallEmbeddings request)
                (fun h => openai.CreateEmbeddings (client o) h request) ;;
      let data := openai.er_Data resp in
      if (length data =? 0)%nat then mfail ErrEmptyResponse
      else if negb (length inputTexts =? length data)%nat
      then mfail ErrUnexpectedResponseLength
      else mret (map (fun d => map float64_of_float32 (openai.e_Embedding d))
                   data)
  end.

End Embedding.

End Chat.

(** ** UTF-8, as [unicode/utf8] of the standard library reads it *)

Module unicode_utf8.

(** [utf8.RuneError], the code point U+FFFD. *)
Definition RuneError : N := 65533.

(** The table [first] with [acceptRanges]: for a byte that starts an
    encoding of more than one byte, the size of the encoding and the range
    in which the second byte has to be; nothing for the bytes [80] to [C1]
    and [F5] to [FF], which start no encoding. *)
Definition first (p0 : N) : option (nat * N * N) :=
  (if p0 <? 194 then None
   else if p0 <? 224 then Some (2%nat, 128, 191)
   else if p0 =? 224 then Some (3%nat, 160, 191)
   else if p0 =? 237 then Some (3%nat, 128, 159)
   else if p0 <? 240 then Some (3%nat, 128, 191)
   else if p0 =? 240 then Some (4%nat, 144, 191)
   else if p0 <? 244 then Some (4%nat, 128, 191)
   else if p0 =? 244 then Some (4%nat, 128, 143)
   else None)%N.

Definition within (lo hi : N) (b : ascii) : bool :=
  ((lo <=? N_of_ascii b) && (N_of_ascii b <=? hi))%N.

(** [utf8.DecodeRune] on the bytes [p0 :: p], which are not empty: the code
    point that the first bytes encode and the number of these bytes;
    [RuneError] and one byte when they are no encoding, or fewer than the
    first byte asks for. *)
Definition DecodeRune (p0 : ascii) (p : list ascii) : N * nat :=
  let x := N_of_ascii p0 in
  if (x <? 128)%N then (x, 1%nat)
  else
    match first x with
    | None => (RuneError, 1%nat)
    | Some (sz, lo, hi) =>
        match p with
        | [] => (RuneError, 1%nat)
        | b1 :: p1 =>
            if within lo hi b1 then
              match sz, p1 with
              | 2%nat, _ =>
                  ((x mod 32) * 64 + N_of_ascii b1 mod 64, 2%nat)%N
              | _, [] => (RuneError, 1%nat)
              | _, b2 :: p2 =>
                  if within 128 191 b2 then
                    match sz, p2 with
                    | 3%nat, _ =>
                        ((x mod 16) * 4096 + (N_of_ascii b1 mod 64) * 64
                         + N_of_ascii b2 mod 64, 3%nat)%N
                    | _, [] => (RuneError, 1%nat)
                    | _, b3 :: _ =>
                        if within 128 191 b3 then
                          ((x mod 8) * 262144 + (N_of_ascii b1 mod 64) * 4096
                           + (N_of_ascii b2 mod 64) * 64
                           + N_of_ascii b3 mod 64, 4%nat)%N
                        else (RuneError, 1%nat)
                    end
                  else (RuneError, 1%nat)
              end
            else (RuneError, 1%nat)
        end
    end.

(** The bytes after an encoding of [size] bytes that starts before [p]:
    [p] without its first [size - 1] bytes. *)
Definition after (size : nat) (p : list ascii) : list ascii :=
  match size, p with
  | 2%nat, _ :: p1 => p1
  | 3%nat, _ :: _ :: p2 => p2
  | 4%nat, _ :: _ :: _ :: p3 => p3
  | _, _ => p
  end.

(** [utf8.Valid]: the bytes are encodings from the first to the last. *)
Fixpoint Valid (s : list ascii) : bool :=
  match s with
  | [] => true
  | p0 :: p =>
      let '(r, size) := DecodeRune p0 p in
      negb ((r =? RuneError)%N && (size =? 1)%nat) && Valid (after size p)
  end.

End unicode_utf8.

(** ** JSON, as [encoding/json] of the standard library reads it *)

Module json.

(** A JSON text, parsed.  The members of an object are kept in the order
    of the text, duplicates included; a number keeps its literal. *)
#[warnings="-register-all"]
Inductive value : Type :=
  | Null
  | Bool (b : bool)
  | Number (lit : string)
  | String (s : string)
  | Array (elements : list value)
  | Object (members : list (string * value)).

(** The word [UnmarshalTypeError] uses for a value. *)
Definition kind (v : value) : string :=
  match v with
  | Null => "null"
  | Bool _ => "bool"
  | Number _ => "number"
  | String _ => "string"
  | Array _ => "array"
  | Object _ => "object"
  end.

(** Storing the members of an object into a [map[string]string], in the
    order of the text: a string is stored, [null] leaves the zero value,
    anything else is a type error; the entry is written in each case, and
    the first error is the one reported. *)
Fixpoint storeMembers (members : list (string * value))
    (m : gmap string string) (saved : option error)
    : gmap string string * option error :=
  match members with
  | [] => (m, saved)
  | (k, v) :: rest =>
      match v with
      | String s => storeMembers rest (<[ k := s ]> m) saved
      | Null => storeMembers rest (<[ k := "" ]> m) saved
      | _ =>
          storeMembers rest (<[ k := "" ]> m)
            (match saved with
             | Some e => Some e
             | None =>
                 Some (OtherError ("json: cannot unmarshal " +:+ kind v +:+
                                   " into Go value of type string"))
             end)
      end
  end.

(** [json.Unmarshal] into a nil [map[string]string], on the parsed text.
    A top-level [null] leaves the map nil, which reads as the empty map. *)
Definition storeMap (v : value) : error + gmap string string :=
  match v with
  | Null => inr ∅
  | Object members =>
      match storeMembers members ∅ None with
      | (m, None) => inr m
      | (_, Some e) => inl e
      end
  | _ =>
      inl (OtherError ("json: cannot unmarshal " +:+ kind v +:+
                       " into Go value of type map[string]string"))
  end.

(** *** The text *)

Definition quote : ascii := "034"%char.
Definition backslash : ascii := "092"%char.

Definition isSpace (c : ascii) : bool :=
  let n := N_of_ascii c in
  ((n =? 32) || (n =? 9) || (n =? 10) || (n =? 13))%N.

Definition isDigit (c : ascii) : bool :=
  let n := N_of_ascii c in ((48 <=? n) && (n <=? 57))%N.

Definition hexVal (c : ascii) : option N :=
  let n := N_of_ascii c in
  if ((48 <=? n) && (n <=? 57))%N then Some (n - 48)%N
  else if ((97 <=? n) && (n <=? 102))%N then Some (n - 87)%N
  else if ((65 <=? n) && (n <=? 70))%N then Some (n - 55)%N
  else None.

Definition hex4 (a b c d : ascii) : option N :=
  match hexVal a, hexVal b, hexVal c, hexVal d with
  | Some a, Some b, Some c, Some d => Some (((a * 16 + b) * 16 + c) * 16 + d)%N
  | _, _, _, _ => None
  end.

(** The UTF-8 bytes of a code point. *)
Definition utf8 (r : N) : list ascii :=
  (if r <? 128 then [ascii_of_N r]
   else if r <? 2048 then
     [ascii_of_N (192 + r / 64); ascii_of_N (128 + r mod 64)]
   else if r <? 65536 then
     [ascii_of_N (224 + r / 4096); ascii_of_N (128 + (r / 64) mod 64);
      ascii_of_N (128 + r mod 64)]
   else
     [ascii_of_N (240 + r / 262144); ascii_of_N (128 + (r / 4096) mod 64);
      ascii_of_N (128 + (r / 64) mod 64); ascii_of_N (128 + r mod 64)])%N.

Definition isSurrogate (r : N) : bool := ((55296 <=? r) && (r <? 57344))%N.

(** What a one-letter escape stands for. *)
Definition unescape (c : ascii) : option ascii :=
  if Ascii.eqb c quote then Some quote
  else if Ascii.eqb c backslash then Some backslash
  else if Ascii.eqb c "/" then Some "/"%char
  else if Ascii.eqb c "b" then Some "008"%char
  else if Ascii.eqb c "f" then Some "012"%char
  else if Ascii.eqb c "n" then Some "010"%char
  else if Ascii.eqb c "r" then Some "013"%char
  else if Ascii.eqb c "t" then Some "009"%char
  else None.

Fixpoint prepend (l : list ascii) (s : string) : string :=
  match l with
  | [] => s
  | c :: l => String.String c (prepend l s)
  end.

(** A string literal after its opening quote: its content and what follows
    the closing quote.  Bytes above 127 are read as UTF-8 and written back
    as UTF-8, which turns every byte that is part of no encoding into
    U+FFFD. *)
Fixpoint scanString (s : list ascii) : option (string * list ascii) :=
  match s with
  | [] => None
  | c :: rest =>
      if Ascii.eqb c quote then Some (EmptyString, rest)
      else if Ascii.eqb c backslash then
        match rest with
        | [] => None
        | e :: rest1 =>
            if Ascii.eqb e "u" then
              match rest1 with
              | h1 :: h2 :: h3 :: h4 :: rest2 =>
                  match hex4 h1 h2 h3 h4 with
                  | None => None
                  | Some r =>
                      if isSurrogate r then
                        match rest2 with
                        | b :: u :: l1 :: l2 :: l3 :: l4 :: rest3 =>
                            match hex4 l1 l2 l3 l4 with
                            | Some r2 =>
                                if Ascii.eqb b backslash && Ascii.eqb u "u"
                                   && (r <? 56320)%N && (56320 <=? r2)%N
                                   && (r2 <? 57344)%N
                                then
                                  match scanString rest3 with
                                  | Some (str, tl) =>
                                      Some (prepend
                                              (utf8 ((r - 55296) * 1024
                                                     + (r2 - 56320) + 65536)%N)
                                              str, tl)
                                  | None => None
                                  end
                                else
                                  match scanString rest2 with
                                  | Some (str, tl) =>
                                      Some (prepend (utf8 65533) str, tl)
                                  | None => None
                                  end
                            | None =>
                                match scanString rest2 with
                                | Some (str, tl) =>
                                    Some (prepend (utf8 65533) str, tl)
                                | None => None
                                end
                            end
                        | _ =>
                            match scanString rest2 with
                            | Some (str, tl) =>
                                Some (prepend (utf8 65533) str, tl)
                            | None => None
                            end
                        end
                      else
                        match scanString rest2 with
                        | Some (str, tl) => Some (prepend (utf8 r) str, tl)
                        | None => None
                        end
                  end
              | _ => None
              end
            else
              match unescape e with
              | None => None
              | Some b =>
                  match scanString rest1 with
                  | Some (str, tl) => Some (String.String b str, tl)
                  | None => None
                  end
              end
        end
      else if (N_of_ascii c <? 32)%N then None
      else if (N_of_ascii c <? 128)%N then
        match scanString rest with
        | Some (str, tl) => Some (String.String c str, tl)
        | None => None
        end
      else
        let '(rr, size) := unicode_utf8.DecodeRune c rest in
        match scanString (unicode_utf8.after size rest) with
        | Some (str, tl) => Some (prepend (utf8 rr) str, tl)
        | None => None
        end
  end.

Fixpoint skipSpace (s : list ascii) : list ascii :=
  match s with
  | c :: rest => if isSpace c then skipSpace rest else s
  | [] => []
  end.

Fixpoint digits (s : list ascii) : list ascii * list ascii :=
  match s with
  | c :: rest =>
      if isDigit c then let '(d, tl) := digits rest in (c :: d, tl)
      else ([], s)
  | [] => ([], [])
  end.

(** A number literal: an optional minus sign, an integer part without
    leading zero, an optional fraction, an optional exponent. *)
Definition scanNumber (s : list ascii) : option (list ascii * list ascii) :=
  let '(sign, s1) :=
    match s with
    | c :: r => if Ascii.eqb c "-" then ([c], r) else ([], s)
    | [] => ([], s)
    end in
  match digits s1 with
  | ([], _) => None
  | (d :: ds, s2) =>
      if Ascii.eqb d "0" && negb (length ds =? 0)%nat then None
      else
        let frac :=
          match s2 with
          | c :: r =>
              if Ascii.eqb c "." then
                match digits r with
                | ([], _) => None
                | (f, s3) => Some (c :: f, s3)
                end
              else Some ([], s2)
          | [] => Some ([], s2)
          end in
        match frac with
        | None => None
        | Some (f, s3) =>
            let lit := (sign ++ (d :: ds) ++ f)%list in
            match s3 with
            | c :: r =>
                if Ascii.eqb c "e" || Ascii.eqb c "E" then
                  let '(sg, r1) :=
                    match r with
                    | c1 :: r1 =>
                        if Ascii.eqb c1 "+" || Ascii.eqb c1 "-"
                        then ([c1], r1) else ([], r)
                    | [] => ([], r)
                    end in
                  match digits r1 with
                  | ([], _) => None
                  | (e, s4) => Some ((lit ++ [c] ++ sg ++ e)%list, s4)
                  end
                else Some (lit, s3)
            | [] => Some (lit, s3)
            end
        end
  end.

Fixpoint stripPrefix (p s : list ascii) : option (list ascii) :=
  match p, s with
  | [], _ => Some s
  | a :: p, b :: s => if Ascii.eqb a b then stripPrefix p s else None
  | _ :: _, [] => None
  end.

(** One value, with the white space before it; [fuel] bounds the depth. *)
Fixpoint scanValue (fuel : nat) (s : list ascii)
    : option (value * list ascii) :=
  match fuel with
  | O => None
  | S fuel =>
      match skipSpace s with
      | [] => None
      | c :: rest =>
          if Ascii.eqb c quote then
            match scanString rest with
            | Some (str, tl) => Some (String str, tl)
            | None => None
            end
          else if Ascii.eqb c "{" then
            match skipSpace rest with
            | c1 :: rest1 =>
                if Ascii.eqb c1 "}" then Some (Object [], rest1)
                else
                  match scanMembers fuel rest with
                  | Some (ms, tl) => Some (Object ms, tl)
                  | None => None
                  end
            | [] => None
            end
          else if Ascii.eqb c "[" then
            match skipSpace rest with
            | c1 :: rest1 =>
                if Ascii.eqb c1 "]" then Some (Array [], rest1)
                else
                  match scanElements fuel rest with
                  | Some (vs, tl) => Some (Array vs, tl)
                  | None => None
                  end
            | [] => None
            end
          else if Ascii.eqb c "n" then
            match stripPrefix (list_ascii_of_string "ull") rest with
            | Some tl => Some (Null, tl)
            | None => None
            end
          else if Ascii.eqb c "t" then
            match stripPrefix (list_ascii_of_string "rue") rest with
            | Some tl => Some (Bool true, tl)
            | None => None
            end
          else if Ascii.eqb c "f" then
            match stripPrefix (list_ascii_of_string "alse") rest with
            | Some tl => Some (Bool false, tl)
            | None => None
            end
          else
            match scanNumber (c :: rest) with
            | Some (lit, tl) => Some (Number (string_of_list_ascii lit), tl)
            | None => None
            end
      end
  end
with scanElements (fuel : nat) (s : list ascii)
    : option (list value * list ascii) :=
  match fuel with
  | O => None
  | S fuel =>
      match scanValue fuel s with
      | None => None
      | Some (v, rest) =>
          match skipSpace rest with
          | c :: rest1 =>
              if Ascii.eqb c "," then
                match scanElements fuel rest1 with
                | Some (vs, tl) => Some (v :: vs, tl)
                | None => None
                end
              else if Ascii.eqb c "]" then Some ([v], rest1)
              else None
          | [] => None
          end
      end
  end
with scanMembers (fuel : nat) (s : list ascii)
    : option (list (string * value) * list ascii) :=
  match fuel with
  | O => None
  | S fuel =>
      match skipSpace s with
      | c :: rest =>
          if Ascii.eqb c quote then
            match scanString rest with
            | None => None
            | Some (k, rest1) =>
                match skipSpace rest1 with
                | c1 :: rest2 =>
                    if Ascii.eqb c1 ":" then
                      match scanValue fuel rest2 with
                      | None => None
                      | Some (v, rest3) =>
                          match skipSpace rest3 with
                          | c2 :: rest4 =>
                              if Ascii.eqb c2 "," then
                                match scanMembers fuel rest4 with
                                | Some (ms, tl) => Some ((k, v) :: ms, tl)
                                | None => None
                                end
                              else if Ascii.eqb c2 "}" then
                                Some ([(k, v)], rest4)
                              else None
                          | [] => None
                          end
                      end
                    else None
                | [] => None
                end
            end
          else None
      | [] => None
      end
  end.

(** The whole text is one value, white space around it allowed.  A syntax
    error is reported with one of two messages, not with the library's. *)
Definition decode (text : string) : error + value :=
  let s := list_ascii_of_string text in
  match scanValue (2 * length s + 2) s with
  | Some (v, rest) =>
      match skipSpace rest with
      | [] => inr v
      | _ :: _ =>
          inl (OtherError "invalid character after top-level value")
      end
  | None => inl (OtherError "unexpected end of JSON input")
  end.

(** [json.Unmarshal([]byte(text), &parsed)] with
    [var parsed map[string]string]. *)
Definition Unmarshal (text : string) : error + gmap string string :=
  match decode text with
  | inl e => inl e
  | inr v => storeMap v
  end.

(** *** Writing a value, as [json.Marshal] does *)

(** [isValidNumber]: the literals that [json.Marshal] accepts to write for
    a number.  The function is cut where the library's comments cut it: the
    optional minus sign, the digits, the point followed by one or more
    digits, the [e] or [E] followed by an optional sign and one or more
    digits, and the end of the literal. *)
Definition skipDigits (s : list ascii) : list ascii := (digits s).2.

Definition validExponent (s : list ascii) : bool :=
  match s with
  | [] => true
  | c :: r1 =>
      if (Ascii.eqb c "e" || Ascii.eqb c "E") && negb (length r1 =? 0)%nat
      then
        let r2 :=
          match r1 with
          | c1 :: r2 =>
              if Ascii.eqb c1 "+" || Ascii.eqb c1 "-" then r2 else r1
          | [] => r1
          end in
        match r2 with
        | [] => false
        | _ :: _ =>
            match skipDigits r2 with [] => true | _ :: _ => false end
        end
      else false
  end.

Definition validFraction (s : list ascii) : bool :=
  validExponent
    match s with
    | c :: f :: r1 =>
        if Ascii.eqb c "." && isDigit f then skipDigits r1 else s
    | _ => s
    end.

Definition validUnsigned (s : list ascii) : bool :=
  match s with
  | [] => false
  | d :: r =>
      if isDigit d
      then validFraction (if Ascii.eqb d "0" then r else skipDigits r)
      else false
  end.

Definition isValidNumber (s : list ascii) : bool :=
  match s with
  | [] => false
  | c :: r => validUnsigned (if Ascii.eqb c "-" then r else s)
  end.

Definition hexDigit (n : N) : ascii :=
  if (n <? 10)%N then ascii_of_N (48 + n) else ascii_of_N (87 + n).

Section Marshal.

(** The library writes a backspace and a form feed with the escapes [b] and
    [f] from version 1.22 on, and with a [u] escape before. *)
Variable shortEscapes : bool.

(** What stands for a byte below 128 in a string literal: the byte itself,
    except for the quote, the backslash, the control characters and the
    three characters [<], [>] and [&], which [json.Marshal] escapes for
    HTML. *)
Definition escapeByte (c : ascii) : list ascii :=
  if Ascii.eqb c quote || Ascii.eqb c backslash then [backslash; c]
  else if Ascii.eqb c "010" then [backslash; "n"%char]
  else if Ascii.eqb c "013" then [backslash; "r"%char]
  else if Ascii.eqb c "009" then [backslash; "t"%char]
  else if shortEscapes && Ascii.eqb c "008" then [backslash; "b"%char]
  else if shortEscapes && Ascii.eqb c "012" then [backslash; "f"%char]
  else if (N_of_ascii c <? 32)%N
          || Ascii.eqb c "<" || Ascii.eqb c ">" || Ascii.eqb c "&" then
    [backslash; "u"%char; "0"%char; "0"%char;
     hexDigit (N_of_ascii c / 16); hexDigit (N_of_ascii c mod 16)]
  else [c].

(** [appendString], between the quotes: a byte that is part of no UTF-8
    encoding is written as the escape of U+FFFD, the code points U+2028 and
    U+2029 as their escapes, every other encoding as it is. *)
Fixpoint appendString (s : list ascii) : list ascii :=
  match s with
  | [] => []
  | c :: rest =>
      if (N_of_ascii c <? 128)%N then escapeByte c ++ appendString rest
      else
        let '(r, size) := unicode_utf8.DecodeRune c rest in
        if (r =? unicode_utf8.RuneError)%N && (size =? 1)%nat then
          [backslash; "u"%char; "f"%char; "f"%char; "f"%char; "d"%char]
          ++ appendString rest
        else if (r =? 8232)%N || (r =? 8233)%N then
          [backslash; "u"%char; "2"%char; "0"%char; "2"%char;
           hexDigit (r mod 16)]
          ++ appendString (unicode_utf8.after size rest)
        else
          take size (c :: rest) ++ appendString (unicode_utf8.after size rest)
  end.

Definition encodeString (s : string) : list ascii :=
  quote :: appendString (list_ascii_of_string s) ++ [quote].

(** The elements of an array after its opening bracket, and the members of
    an object after its opening brace, given the way to write a value. *)
Definition encodeElements (enc : value -> list ascii)
    : list value -> list ascii :=
  fix go (vs : list value) : list ascii :=
    match vs with
    | [] => ["]"%char]
    | v :: vs' =>
        enc v ++ match vs' with
                 | [] => ["]"%char]
                 | _ :: _ => ","%char :: go vs'
                 end
    end.

Definition encodeMembers (enc : value -> list ascii)
    : list (string * value) -> list ascii :=
  fix go (ms : list (string * value)) : list ascii :=
    match ms with
    | [] => ["}"%char]
    | (k, v) :: ms' =>
        encodeString k ++ ":"%char :: enc v
        ++ match ms' with
           | [] => ["}"%char]
           | _ :: _ => ","%char :: go ms'
           end
    end.

(** What [json.Marshal] writes for a Go value, the value being given by
    the JSON value it is written as: [nil] as [Null], a number as the
    literal that is written for it, a string with the bytes it has, a slice
    as the array of its elements, a struct or a map inside the value as the
    object of its members in the order they are written in. *)
Fixpoint encodeValue (v : value) : list ascii :=
  match v with
  | Null => list_ascii_of_string "null"
  | Bool true => list_ascii_of_string "true"
  | Bool false => list_ascii_of_string "false"
  | Number lit => list_ascii_of_string lit
  | String s => encodeString s
  | Array elements => "["%char :: encodeElements encodeValue elements
  | Object members => "{"%char :: encodeMembers encodeValue members
  end.

(** The entries of a map in the order [json.Marshal] writes them: sorted by
    key, the keys compared byte by byte. *)
Definition keyLe (a b : string * value) : Prop := String.leb a.1 b.1.

Definition sortedMembers (m : gmap string value) : list (string * value) :=
  merge_sort keyLe (map_to_list m).

(** [json.Marshal] on a [map[string]any] that is not nil (the nil map is
    written [null]), without white space. *)
Definition Marshal (m : gmap string value) : string :=
  string_of_list_ascii
    ("{"%char :: encodeMembers encodeValue (sortedMembers m)).

End Marshal.

(** The values [json.Marshal] writes: those whose numbers are all given by
    a valid literal. *)
Fixpoint wellFormed (v : value) : bool :=
  match v with
  | Number lit => isValidNumber (list_ascii_of_string lit)
  | Array elements => forallb wellFormed elements
  | Object members => forallb (fun kv => wellFormed kv.2) members
  | _ => true
  end.

End json.

(** ** Package [outputparser]: the structured-output parser *)

Module outputparser.

Record ResponseJSONSchema : Type := mkResponseJSONSchema {
  Name : string;
  Description : string
}.

Record StructuredJSON : Type := mkStructuredJSON {
  ResponseJSONSchemas : list ResponseJSONSchema
}.

Definition NewStructuredJSON (schema : list ResponseJSONSchema)
    : StructuredJSON :=
  mkStructuredJSON schema.

(** [fmt.Sprintf("%v", l)] on a [[]string]: the elements between square
    brackets, one space between two of them. *)
Definition fmt_v (l : list string) : string :=
  "[" +:+ String.concat " " l +:+ "]".

(** The [for _, rs := range p.ResponseJSONSchemas] loop of [parse]. *)
Fixpoint missingKeysLoop (schemas : list ResponseJSONSchema)
    (parsed : gmap string string) (missingKeys : list string) : list string :=
  match schemas with
  | [] => missingKeys
  | rs :: rest =>
      match parsed !! Name rs with
      | Some _ => missingKeysLoop rest parsed missingKeys
      | None => missingKeysLoop rest parsed (missingKeys ++ [Name rs])
      end
  end.

Definition parse (p : StructuredJSON) (text : string)
    : result (gmap string string) :=
  match json.Unmarshal text with
  | inl err => Err err
  | inr parsed =>
      let missingKeys := missingKeysLoop (ResponseJSONSchemas p) parsed [] in
      if (0 <? length missingKeys)%nat then
        Err (ParseJSONError text
               ("output is missing the following fields " +:+ fmt_v missingKeys))
      else Ok parsed
  end.

Definition Parse (p : StructuredJSON) (text : string)
    : result (gmap string string) :=
  parse p text.

(** [ParseWithPrompt] does the same as [Parse]; the prompt is not used. *)
Definition ParseWithPrompt {PromptValue : Type} (p : StructuredJSON)
    (text : string) (_ : PromptValue) : result (gmap string string) :=
  parse p text.

Definition newline : string := String "010"%char "".
Definition tab : string := String "009"%char "".

(** [fmt.Sprintf(_structuredJSONLineTemplate, name, typ, description)]: the
    template is a quoted [%s], a colon and a space, [%s], a space, two
    slashes and a space, [%s], and a line feed. *)
Definition structuredJSONLine (name typ description : string) : string :=
  String json.quote
    (name +:+ String json.quote
                (": " +:+ typ +:+ " // " +:+ description +:+ newline)).

(** [fmt.Sprintf(_structuredJSONFormatInstructionTemplate, jsonLines)] *)
Definition structuredJSONFormatInstruction (jsonLines : string) : string :=
  "your input should strict follow json schema: " +:+ newline +:+ newline
  +:+ "{" +:+ newline +:+ jsonLines +:+ "}" +:+ newline.

(** The [for _, rs := range p.ResponseJSONSchemas] loop of
    [GetFormatInstructions]. *)
Fixpoint jsonLinesLoop (schemas : list ResponseJSONSchema) (jsonLines : string)
    : string :=
  match schemas with
  | [] => jsonLines
  | rs :: rest =>
      jsonLinesLoop rest
        (jsonLines
         +:+ (tab +:+ structuredJSONLine (Name rs) "string" (Description rs)))
  end.

Definition GetFormatInstructions (p : StructuredJSON) : string :=
  structuredJSONFormatInstruction (jsonLinesLoop (ResponseJSONSchemas p) "").

Definition Type_ (p : StructuredJSON) : string := "structuredJSON_parser".

End outputparser.

(** ** Package [tools/stable_diffusion]: the image tool *)

Module stable_diffusion.

(** *** The machine the tool runs on *)

(** An HTTP request as the client builds it: [SetBasicAuth(user, pass)] is
    kept as the pair it was given. *)
Record Request : Type := mkRequest {
  Method : string;
  Target : string;
  Header : gmap string string;
  BasicAuth : option (string * string);
  Body : string
}.

(** What the tool does to the outside, in the order it does it. *)
Inductive Effect : Type :=
  | HTTPDo (req : Request)
  | BodyClose
  | MkdirAll (dir : string)
  | WriteFile (name data : string).

(** The answers of the outside, each a function of what was done so far:
    [c.Client.Do(req)] followed by [io.ReadAll(resp.Body)], whose error is
    dropped by the code; [os.IsNotExist] on the error of [os.Stat];
    [os.MkdirAll]; [os.WriteFile]; [time.Now().UnixNano()]. *)
Record System : Type := mkSystem {
  http_Do : list Effect -> Request -> error + string;
  os_IsNotExist : list Effect -> string -> bool;
  os_MkdirAll : list Effect -> string -> option error;
  os_WriteFile : list Effect -> string -> string -> option error;
  time_UnixNano : list Effect -> Z
}.

Definition IO (A : Type) : Type := list Effect -> list Effect * result A.

Definition io_ret {A : Type} (a : A) : IO A := fun h => (h, Ok a).

Definition io_fail {A : Type} (e : error) : IO A := fun h => (h, Err e).

Definition io_panic {A : Type} (why : string) : IO A :=
  fun h => (h, Panic why).

Definition io_bind {A B : Type} (m : IO A) (k : A -> IO B) : IO B :=
  fun h =>
    match m h with
    | (h', Ok a) => k a h'
    | (h', Err e) => (h', Err e)
    | (h', Panic why) => (h', Panic why)
    end.

(** Do something, and take the answer of the outside. *)
Definition perform {A : Type} (eff : Effect) (answer : list Effect -> A)
    : IO A :=
  fun h => (h ++ [eff], Ok (answer h)).

(** Ask the outside without changing it. *)
Definition observe {A : Type} (answer : list Effect -> A) : IO A :=
  fun h => (h, Ok (answer h)).

(** [defer resp.Body.Close()]: the body is closed when the function returns,
    whatever the way it returns. *)
Definition deferBodyClose {A : Type} (m : IO A) : IO A :=
  fun h => let '(h', r) := m h in (h' ++ [BodyClose], r).

Declare Scope io_scope.
Delimit Scope io_scope with io.
Notation "x <- m ;; k" := (io_bind m (fun x => k)) : io_scope.
Notation "m ;;; k" := (io_bind m (fun _ => k)) : io_scope.
Local Open Scope io_scope.

(** [fmt.Errorf] with the message it formats. *)
Definition fmt_Errorf (msg : string) : error := OtherError msg.

(** *** Package [internal]: the client of the web UI *)

Module internal.

(** [url.Userinfo] and the part of [url.URL] that the client reads. *)
Record Userinfo : Type := mkUserinfo {
  username : string;
  password : string;
  passwordSet : bool
}.

Definition Username (u : Userinfo) : string := username u.

Definition Password (u : Userinfo) : string * bool :=
  (password u, passwordSet u).

Record URL : Type := mkURL {
  Scheme : string;
  Host : string;
  User : option Userinfo
}.

(** The [Client *http.Client] of the struct is the [http_Do] of the system. *)
Record SDWebUIClient : Type := mkSDWebUIClient {
  ApiUrl : string;
  BasicAuthUser : string;
  BasicAuthPass : string
}.

Definition NewSDWebUIClient : SDWebUIClient := mkSDWebUIClient "" "" "".

(** The fields of [TXT2IMGReq] that the tool sets; the others keep their
    zero value. *)
Record TXT2IMGReq : Type := mkTXT2IMGReq {
  Prompt : string;
  NegativePrompt : string;
  Steps : Z;
  Width : Z;
  Height : Z;
  SamplerName : string
}.

Record TXT2IMGResp : Type := mkTXT2IMGResp {
  Images : list string
}.

Section Methods.

(** [url.ParseRequestURI] *)
Variable url_ParseRequestURI : string -> error + URL.

(** [json.Marshal] on a [*TXT2IMGReq] *)
Variable json_Marshal : TXT2IMGReq -> error + string.

(** [http.NewRequest(method, url, body)]: the request without header, or
    the error of a method or URL that it refuses. *)
Variable http_NewRequest : string -> string -> string -> error + Request.

(** [json.Unmarshal(body, &res)] on an empty [TXT2IMGResp]: what [res] holds
    afterwards, and the error. *)
Variable json_Unmarshal : string -> TXT2IMGResp * option error.

(** The receiver is a pointer: the client after the call, and the error. *)
Definition SetAPIUrl (c : SDWebUIClient) (apiUrl : string)
    : SDWebUIClient * option error :=
  match url_ParseRequestURI apiUrl with
  | inl err => (c, Some err)
  | inr url =>
      let c :=
        mkSDWebUIClient (Scheme url +:+ "://" +:+ Host url)
          (BasicAuthUser c) (BasicAuthPass c) in
      let c :=
        match User url with
        | Some user =>
            mkSDWebUIClient (ApiUrl c) (Username user) (Password user).1
        | None => c
        end in
      (c, None)
  end.

(** [req.Header.Set(key, value)] *)
Definition Header_Set (key value : string) (req : Request) : Request :=
  mkRequest (Method req) (Target req) (<[ key := value ]> (Header req))
    (BasicAuth req) (Body req).

(** [req.SetBasicAuth(username, password)] *)
Definition SetBasicAuth (username password : string) (req : Request)
    : Request :=
  mkRequest (Method req) (Target req) (Header req)
    (Some (username, password)) (Body req).

Definition Text2ImgWithCustomPrompt (sys : System) (c : SDWebUIClient)
    (txt2imgReq : TXT2IMGReq) : IO string :=
  match json_Marshal txt2imgReq with
  | inl err => io_fail err
  | inr b =>
      match http_NewRequest "POST" (ApiUrl c +:+ "/sdapi/v1/txt2img") b with
      | inl err => io_fail err
      | inr req =>
          let req := Header_Set "Content-Type" "application/json" req in
          let req :=
            if negb (String.eqb (BasicAuthUser c) "")
            then SetBasicAuth (BasicAuthUser c) (BasicAuthPass c) req
            else req in
          resp <- perform (HTTPDo req) (fun h => http_Do sys h req) ;;
          match resp with
          | inl err => io_fail err
          | inr body =>
              deferBodyClose
                (let '(res, err) := json_Unmarshal body in
                 match Images res with
                 | [] => io_panic "index out of range [0] with length 0"
                 | image0 :: _ =>
                     match err with
                     | Some err => io_fail err
                     | None => io_ret image0
                     end
                 end)
          end
      end
  end.

End Methods.

End internal.

(** *** The tool *)

Definition ErrMissingURL : error :=
  OtherError "missing `SD_WEBUI_URL` environment variable".

Record createOptions : Type := mkCreateOptions {
  URL : string;
  Iterations : Z;
  Width : Z;
  Height : Z;
  OutputPath : string;
  StaticPath : string
}.

(** A function on a pointer to the options: the options after the call. *)
Definition CreateSDOption : Type := createOptions -> createOptions.

Definition WithURL (url : string) : CreateSDOption :=
  fun o =>
    mkCreateOptions url (Iterations o) (Width o) (Height o) (OutputPath o)
      (StaticPath o).

Definition WithIterations (iterations : Z) : CreateSDOption :=
  fun o =>
    mkCreateOptions (URL o) iterations (Width o) (Height o) (OutputPath o)
      (StaticPath o).

Definition WithWidth (width : Z) : CreateSDOption :=
  fun o =>
    mkCreateOptions (URL o) (Iterations o) width (Height o) (OutputPath o)
      (StaticPath o).

Definition WithHeight (height : Z) : CreateSDOption :=
  fun o =>
    mkCreateOptions (URL o) (Iterations o) (Width o) height (OutputPath o)
      (StaticPath o).

Definition WithOutputPath (outputPath : string) : CreateSDOption :=
  fun o =>
    mkCreateOptions (URL o) (Iterations o) (Width o) (Height o) outputPath
      (StaticPath o).

Definition WithStaticPath (staticPath : string) : CreateSDOption :=
  fun o =>
    mkCreateOptions (URL o) (Iterations o) (Width o) (Height o) (OutputPath o)
      staticPath.

Record Tool : Type := mkTool {
  SDWebUIClient : internal.SDWebUIClient;
  structuredPrompt : outputparser.StructuredJSON;
  options : createOptions
}.

Definition Name (t : Tool) : string := "stable-diffusion".

Section Methods.

(** [os.Getenv] *)
Variable os_Getenv : string -> string.

Variable url_ParseRequestURI : string -> error + internal.URL.
Variable json_Marshal : internal.TXT2IMGReq -> error + string.
Variable http_NewRequest : string -> string -> string -> error + Request.
Variable json_Unmarshal : string -> internal.TXT2IMGResp * option error.

(** [base64.StdEncoding.DecodeString] *)
Variable base64_DecodeString : string -> error + string.

(** [fmt.Sprintf] of an [int64] under the verb [d] *)
Variable fmt_d : Z -> string.

(** [filepath.Join] of two elements, and [filepath.Dir] *)
Variable filepath_Join : string -> string -> string.
Variable filepath_Dir : string -> string.

Definition DefaultCreateOptions : createOptions :=
  mkCreateOptions (os_Getenv "SD_WEBUI_URL") 20 512 512 "./images"
    "/static/images".

(** The [for _, opt := range opts] loop of [New]. *)
Definition applyOptions (opts : list CreateSDOption) (options : createOptions)
    : createOptions :=
  foldl (fun options opt => opt options) options opts.

(** The error of [SetAPIUrl] is not looked at. *)
Definition New (opts : list CreateSDOption) : result Tool :=
  let options := applyOptions opts DefaultCreateOptions in
  if String.eqb (URL options) "" then Err ErrMissingURL
  else
    let client := internal.NewSDWebUIClient in
    let client :=
      (internal.SetAPIUrl url_ParseRequestURI client (URL options)).1 in
    Ok (mkTool client
          (outputparser.NewStructuredJSON
             [outputparser.mkResponseJSONSchema "prompt"
                "Required, Detailed keywords to describe the subject, using at least 7 keywords to accurately describe the image, separated by comma";
              outputparser.mkResponseJSONSchema "negativePrompt"
                "Required, Detailed Keywords we want to exclude from the final image, using at least 7 keywords to accurately describe the image, separated by comma"])
          options).

(** [Parse] returns a [map[string]string] whenever it returns no error, so
    the type assertion of [Call] holds and its second error branch is not
    reached; a key that is not in the map reads as the empty string. *)
Definition Call (sys : System) (t : Tool) (input : string) : IO string :=
  match outputparser.Parse (structuredPrompt t) input with
  | Err err =>
      io_fail
        (fmt_Errorf
           ("stable-diffusion: invalid input format, " +:+ error_Error err))
  | Panic why => io_panic why
  | Ok valuesMap =>
      let payload :=
        internal.mkTXT2IMGReq
          (default "" (valuesMap !! "prompt"))
          (default "" (valuesMap !! "negativePrompt"))
          20 512 512 "DPM++ SDE Karras" in
      base64ImgStr <-
        internal.Text2ImgWithCustomPrompt json_Marshal http_NewRequest
          json_Unmarshal sys (SDWebUIClient t) payload ;;
      match base64_DecodeString base64ImgStr with
      | inl err => io_fail err
      | inr data =>
          now <- observe (time_UnixNano sys) ;;
          let imageName := fmt_d now +:+ ".png" in
          let outputPath := filepath_Join (OutputPath (options t)) imageName in
          let staticPath := filepath_Join (StaticPath (options t)) imageName in
          notExist <-
            observe (fun h => os_IsNotExist sys h (filepath_Dir outputPath)) ;;
          (if notExist : bool
           then
             err <- perform (MkdirAll (filepath_Dir outputPath))
                      (fun h => os_MkdirAll sys h (filepath_Dir outputPath)) ;;
             match err with
             | Some err => io_fail err
             | None => io_ret tt
             end
           else io_ret tt) ;;;
          err <- perform (WriteFile outputPath data)
                   (fun h => os_WriteFile sys h outputPath data) ;;
          match err with
          | Some err => io_fail err
          | None => io_ret ("![generated image](" +:+ staticPath +:+ ")")
          end
      end
  end.

End Methods.

End stable_diffusion.


(** * Properties *)

(** ** Vocabulary of the statements *)

(** The deltas a stream hands out before it ends or fails. *)
Fixpoint received {R : Type} (stream : openai.Stream R) : list R :=
  match stream with
  | inr r :: rest => r :: received rest
  | _ => []
  end.

(** The fragment and the finish reason a completion delta carries: those of
    its first choice. *)
Definition fragment (resp : openai.CompletionResponse) : string :=
  match openai.cr_Choices resp with
  | c :: _ => openai.cc_Text c
  | [] => ""
  end.

Definition finishReasonOf (resp : openai.CompletionResponse) : string :=
  match openai.cr_Choices resp with
  | c :: _ => openai.cc_FinishReason c
  | [] => ""
  end.

(** The same for a chat delta. *)
Definition chatFragment (resp : openai.ChatCompletionStreamResponse) : string :=
  match openai.sr_Choices resp with
  | c :: _ => openai.d_Content (openai.sc_Delta c)
  | [] => ""
  end.

Definition chatFinishReasonOf (resp : openai.ChatCompletionStreamResponse)
    : string :=
  match openai.sr_Choices resp with
  | c :: _ => openai.sc_FinishReason c
  | [] => ""
  end.

(** The last non-empty finish reason of a sequence of finish reasons, the
    empty string when there is none. *)
Definition lastNonEmpty (reasons : list string) : string :=
  foldl (fun acc r => if len0 r then acc else r) "" reasons.

(** The finish reason of the last delta, [dflt] when there is no delta. *)
Definition lastReason (dflt : string) (reasons : list string) : string :=
  List.last reasons dflt.

(** The three usage counters of a [GenerationInfo], as the code names them. *)
Definition usageKeys : list string :=
  ["PromptTokens"; "CompletionTokens"; "TotalTokens"].

(** What the fragments handed to the streaming function during a call are:
    those the world holds after the call and did not hold before. *)
Definition deliveredBy (w w' : World) : list string :=
  drop (length (delivered w)) (delivered w').

(** The answers of the client to completion requests issued one after the
    other, the first of them after the requests [h]. *)
Fixpoint completionAnswers (c : openai.Client) (h : list openai.Call)
    (reqs : list openai.CompletionRequest)
    : list (error + openai.CompletionResponse) :=
  match reqs with
  | [] => []
  | r :: rest =>
      openai.CreateCompletion c h r
      :: completionAnswers c (h ++ [openai.CallCompletion r]) rest
  end.

(** A [GenerationInfo] that holds the usage counters [u]. *)
Definition holdsUsage (info : gmap string any) (u : openai.Usage) : Prop :=
  info !! "PromptTokens" = Some (AnyInt (openai.PromptTokens u))
  /\ info !! "CompletionTokens" = Some (AnyInt (openai.CompletionTokens u))
  /\ info !! "TotalTokens" = Some (AnyInt (openai.TotalTokens u)).

(** The vectors of an embedding response, converted element by element. *)
Definition convertedBy (float64_of_float32 : float32 -> float64)
    (resp : openai.EmbeddingResponse) : list (list float64) :=
  map (fun d => map float64_of_float32 (openai.e_Embedding d))
    (openai.er_Data resp).

(** The world once [ev] is logged, once [call] is issued, and once a stream
    is closed. *)
Definition logging (ev : LogEvent) (w : World) : World :=
  mkWorld (issued w) (delivered w) (logged w ++ [ev]) (closed w).

Definition issuing (call : openai.Call) (w : World) : World :=
  mkWorld (issued w ++ [call]) (delivered w) (logged w) (closed w).

Definition closing (w : World) : World :=
  mkWorld (issued w) (delivered w) (logged w) (S (closed w)).

(** ** Concrete clients and inputs *)

Definition exampleUsage : openai.Usage := openai.mkUsage 3 5 8.

Definition completionOf (text reason : string) : openai.CompletionResponse :=
  openai.mkCompletionResponse [openai.mkCompletionChoice text reason]
    exampleUsage.

Definition chatDeltaOf (content reason : string)
    : openai.ChatCompletionStreamResponse :=
  openai.mkChatCompletionStreamResponse
    [openai.mkChatCompletionStreamChoice (openai.mkDelta content "" None) reason].

Definition chatResponseOf (content reason : string)
    : openai.ChatCompletionResponse :=
  openai.mkChatCompletionResponse
    [openai.mkChatCompletionChoice
       (openai.mkChatCompletionMessage openai.ChatMessageRoleAssistant content None)
       reason]
    exampleUsage.

(** A client that fails on the prompt [bad] and on the message [bad], answers
    nothing on the prompt [empty], streams two deltas whatever the request,
    and returns two embedding vectors whatever the request. *)
Definition exampleClient : openai.Client :=
  openai.mkClient
    (fun _ req =>
       if String.eqb (openai.cq_Prompt req) "bad"
       then inl (OtherError "status code: 500")
       else if String.eqb (openai.cq_Prompt req) "empty"
       then inr (openai.mkCompletionResponse [] exampleUsage)
       else inr (completionOf ("re: " +:+ openai.cq_Prompt req) "stop"))
    (fun _ req =>
       if String.eqb (openai.cq_Prompt req) "empty"
       then inr [inr (completionOf "Hel" "");
                 inr (openai.mkCompletionResponse [] exampleUsage)]
       else inr [inr (completionOf "Hel" "stop"); inr (completionOf "lo" "")])
    (fun _ req =>
       match openai.hq_Messages req with
       | [] => inr (openai.mkChatCompletionResponse [] exampleUsage)
       | m :: _ =>
           if String.eqb (openai.cm_Content m) "bad"
           then inl (OtherError "status code: 500")
           else inr (chatResponseOf "Hello" "stop")
       end)
    (fun _ req =>
       match openai.hq_Messages req with
       | [] => inr [inr (chatDeltaOf "Hel" "");
                    inr (openai.mkChatCompletionStreamResponse [])]
       | _ :: _ => inr [inr (chatDeltaOf "Hel" ""); inr (chatDeltaOf "lo" "stop")]
       end)
    (fun _ req =>
       inr (openai.mkEmbeddingResponse
              [openai.mkEmbedding [1; 2] 0; openai.mkEmbedding [3; 4] 1]
              exampleUsage)).

Definition exampleLLM : LLM.t := LLM.mk defaultCompletionModel exampleClient.

Definition exampleChat : Chat.t := Chat.mk defaultChatModel exampleClient.

(** [llms.WithStreamingFunc] *)
Definition WithStreamingFunc (f : llms.StreamingFunc_t) : llms.CallOption :=
  fun o =>
    llms.mkCallOptions (llms.Model o) (llms.MaxTokens o) (llms.Temperature o)
      (llms.TopP o) (llms.StopWords o) (llms.N o) (llms.FrequencyPenalty o)
      (llms.PresencePenalty o) (Some f) (llms.Functions o).

(** A streaming function that accepts every fragment. *)
Definition acceptAll : llms.StreamingFunc_t := fun _ _ => None.

Definition streamingOptions : llms.CallOptions :=
  llms.applyOptions llms.zeroCallOptions [WithStreamingFunc acceptAll].

Definition exampleRequest (prompt : string) : openai.CompletionRequest :=
  openai.mkCompletionRequest defaultCompletionModel prompt 0 0 0 true [] 0 0 0.

Definition exampleChatRequest (msgs : list openai.ChatCompletionMessage)
    : openai.ChatCompletionRequest :=
  openai.mkChatCompletionRequest defaultChatModel msgs defaultMaxTokens 0 0 true
    [] 0 0 0 [] None.

Definition hello : list openai.ChatCompletionMessage :=
  [openai.mkChatCompletionMessage openai.ChatMessageRoleUser "hi" None].

Definition exampleTable : gmap string openai.EmbeddingModel :=
  {[ "text-embedding-ada-002" := 15 ]}.

(** A value that is neither a string nor [null]. *)
Definition isOther (v : json.value) : bool :=
  match v with json.String _ | json.Null => false | _ => true end.

(** A mapping restricted to its string-valued entries. *)
Definition stringValued (M : gmap string json.value) : gmap string string :=
  omap (fun v => match v with json.String s => Some s | _ => None end) M.

(** [utf8.ValidString]. *)
Definition ValidString (s : string) : bool :=
  unicode_utf8.Valid (list_ascii_of_string s).

(** A string with every byte that is not part of a valid UTF-8 encoding
    replaced by U+FFFD, one for each such byte, and the rest as it is: what
    a string becomes when [json.Marshal] writes it and [json.Unmarshal]
    reads it.  (Not [strings.ToValidUTF8], which replaces a run of such
    bytes by one replacement.) *)
Fixpoint replaceInvalid (s : list ascii) : list ascii :=
  match s with
  | [] => []
  | c :: rest =>
      let '(r, size) := unicode_utf8.DecodeRune c rest in
      json.utf8 r ++ replaceInvalid (unicode_utf8.after size rest)
  end.

Definition coerceUTF8 (s : string) : string :=
  string_of_list_ascii (replaceInvalid (list_ascii_of_string s)).

(** A value with every string in it, keys included, coerced so. *)
Fixpoint readBack (v : json.value) : json.value :=
  match v with
  | json.String s => json.String (coerceUTF8 s)
  | json.Array elements => json.Array (map readBack elements)
  | json.Object members =>
      json.Object (map (fun kv => (coerceUTF8 kv.1, readBack kv.2)) members)
  | _ => v
  end.

(** What follows a value in a text of [json.Marshal]. *)
Definition closes (rest : list ascii) : Prop :=
  match rest with
  | [] => True
  | c :: _ => c = ","%char \/ c = "]"%char \/ c = "}"%char
  end.

(** A value that is read back from what [json.Marshal] writes for it, given
    the fuel and something after it that ends it. *)
Definition readableValue (short : bool) (v : json.value) : Prop :=
  forall fuel rest,
    json.wellFormed v = true -> closes rest ->
    (length (json.encodeValue short v) < fuel)%nat ->
    json.scanValue fuel (json.encodeValue short v ++ rest)
    = Some (readBack v, rest).

(** A string between double quotes. *)
Definition quoted (s : string) : string :=
  String json.quote (s +:+ String json.quote "").

Definition promptSchema : outputparser.StructuredJSON :=
  outputparser.NewStructuredJSON
    [outputparser.mkResponseJSONSchema "prompt" "the prompt";
     outputparser.mkResponseJSONSchema "negativePrompt" "what to avoid"].

(** [{"prompt":"a cat","negativePrompt":"a dog"}] *)
Definition catText : string :=
  "{" +:+ quoted "prompt" +:+ ":" +:+ quoted "a cat" +:+ ","
  +:+ quoted "negativePrompt" +:+ ":" +:+ quoted "a dog" +:+ "}".

(** ** Vocabulary of the further properties *)

(** The call [Generate] issues for a request of the completion client, and
    of the chat client: on the stream when a streaming function is given. *)
Definition completionCall (streaming : bool) (r : openai.CompletionRequest)
    : openai.Call :=
  if streaming then openai.CallCompletionStream r else openai.CallCompletion r.

Definition chatCall (streaming : bool) (r : openai.ChatCompletionRequest)
    : openai.Call :=
  if streaming then openai.CallChatCompletionStream r
  else openai.CallChatCompletion r.

(** What the logger hears of items that succeed: for each, the request and
    then the text of the record. *)
Definition exchanges (requests : list string) (gens : list llms.Generation)
    : list LogEvent :=
  concat (zip_with (fun q g => [LLMRequest q; LLMResponse (llms.Text g)])
            requests gens).

(** The function call of the last delta whose finish reason is
    [function_call], [dflt] when there is no such delta. *)
Definition lastFunctionCall (dflt : option schema.FunctionCall)
    (deltas : list openai.ChatCompletionStreamResponse)
    : option schema.FunctionCall :=
  foldl (fun acc resp =>
           match openai.sr_Choices resp with
           | c :: _ =>
               if String.eqb (openai.sc_FinishReason c)
                    openai.FinishReasonFunctionCall
               then
                 (fun fc => schema.mkFunctionCall (openai.fc_Name fc)
                              (openai.fc_Arguments fc))
                   <$> openai.d_FunctionCall (openai.sc_Delta c)
               else acc
           | [] => acc
           end) dflt deltas.

(** A streaming function that refuses the second fragment it is given. *)
Definition refuseSecond : llms.StreamingFunc_t :=
  fun before _ =>
    if (length before =? 1)%nat then Some (OtherError "enough") else None.

Definition refusingOptions : llms.CallOptions :=
  llms.applyOptions llms.zeroCallOptions [WithStreamingFunc refuseSecond].

(** A client whose completion stream breaks after one delta, and whose chat
    stream ends after one delta although the transport holds a second one;
    its other operations fail. *)
Definition brokenStreamClient : openai.Client :=
  openai.mkClient
    (fun _ _ => inl (OtherError "status code: 503"))
    (fun _ _ => inr [inr (completionOf "Hel" "");
                     inl (OtherError "connection reset");
                     inr (completionOf "lo" "stop")])
    (fun _ _ => inl (OtherError "status code: 503"))
    (fun _ _ => inr [inr (chatDeltaOf "Hel" "stop"); inl io_EOF;
                     inr (chatDeltaOf "lo" "")])
    (fun _ _ => inl (OtherError "status code: 503")).

(** A chat delta that carries a function call. *)
Definition callDeltaOf (name arguments reason : string)
    : openai.ChatCompletionStreamResponse :=
  openai.mkChatCompletionStreamResponse
    [openai.mkChatCompletionStreamChoice
       (openai.mkDelta "" "" (Some (openai.mkFunctionCall name arguments)))
       reason].

(** A client whose chat stream spreads the arguments of a function call over
    three deltas, the last two with the finish reason [function_call], and
    whose chat response ends with [function_call] without a function call;
    its other operations fail. *)
Definition functionCallClient : openai.Client :=
  openai.mkClient
    (fun _ _ => inl (OtherError "status code: 503"))
    (fun _ _ => inl (OtherError "status code: 503"))
    (fun _ _ =>
       inr (openai.mkChatCompletionResponse
              [openai.mkChatCompletionChoice
                 (openai.mkChatCompletionMessage openai.ChatMessageRoleAssistant
                    "" None)
                 openai.FinishReasonFunctionCall]
              exampleUsage))
    (fun _ _ => inr [inr (callDeltaOf "lookup" "{city:" "");
                     inr (callDeltaOf "" "Paris" "function_call");
                     inr (callDeltaOf "" "}" "function_call")])
    (fun _ _ => inl (OtherError "status code: 503")).

(** The function call of a record, if any. *)
Definition functionCallOf (g : llms.Generation) : option schema.FunctionCall :=
  llms.Message g ≫= schema.FunctionCall_.

(** What a member reads as in a [map[string]string]: a string as it is,
    [null] as the empty string. *)
Definition textOf (v : json.value) : string :=
  match v with json.String s => s | _ => "" end.

Definition plainEntries (members : list (string * json.value))
    : gmap string string :=
  list_to_map (map (fun kv => (kv.1, textOf kv.2)) members).

(** The line of the format instructions for a field, and the lines for a
    sequence of fields. *)
Definition fieldLine (rs : outputparser.ResponseJSONSchema) : string :=
  outputparser.tab
  +:+ outputparser.structuredJSONLine (outputparser.Name rs) "string"
        (outputparser.Description rs).

Definition fieldLines (schemas : list outputparser.ResponseJSONSchema)
    : string :=
  foldr (fun rs lines => fieldLine rs +:+ lines) "" schemas.

(** ** The image tool *)

(** The request of [Text2ImgWithCustomPrompt] once the content type and the
    credentials of the client [c] are set on [req]. *)
Definition prepared (c : stable_diffusion.internal.SDWebUIClient)
    (req : stable_diffusion.Request) : stable_diffusion.Request :=
  let req :=
    stable_diffusion.internal.Header_Set "Content-Type" "application/json"
      req in
  if negb (String.eqb (stable_diffusion.internal.BasicAuthUser c) "")
  then stable_diffusion.internal.SetBasicAuth
         (stable_diffusion.internal.BasicAuthUser c)
         (stable_diffusion.internal.BasicAuthPass c) req
  else req.

(** What a call of the tool did: [h'] without the [h] it started from. *)
Definition doneBy (h h' : list stable_diffusion.Effect)
    : list stable_diffusion.Effect :=
  drop (length h) h'.

(** Stand-ins for the library and for the machine: the environment names the
    web UI; one URL parses; a payload is sent as its prompt; the web UI
    answers the prompt [a cat] with an image and anything else with a page
    that is no JSON. *)
Definition exampleGetenv (name : string) : string :=
  if String.eqb name "SD_WEBUI_URL" then "http://localhost:7860" else "".

Definition exampleParseRequestURI (s : string)
    : error + stable_diffusion.internal.URL :=
  if String.eqb s "http://localhost:7860"
  then inr (stable_diffusion.internal.mkURL "http" "localhost:7860" None)
  else inl (OtherError "invalid URI for request").

Definition exampleMarshal (r : stable_diffusion.internal.TXT2IMGReq)
    : error + string :=
  inr (stable_diffusion.internal.Prompt r).

Definition exampleNewRequest (method url body : string)
    : error + stable_diffusion.Request :=
  inr (stable_diffusion.mkRequest method url ∅ None body).

Definition exampleUnmarshal (body : string)
    : stable_diffusion.internal.TXT2IMGResp * option error :=
  if String.eqb body "ok"
  then (stable_diffusion.internal.mkTXT2IMGResp ["aGk="], None)
  else (stable_diffusion.internal.mkTXT2IMGResp [],
        Some (OtherError "invalid character looking for beginning of value")).

Definition exampleDecodeString (s : string) : error + string :=
  if String.eqb s "aGk=" then inr "hi" else inl (OtherError "illegal base64 data").

Definition exampleFormat (n : Z) : string :=
  if (n =? 2)%Z then "2" else "0".

Definition exampleJoin (dir name : string) : string := dir +:+ "/" +:+ name.

Definition exampleDir (path : string) : string := "images".

Definition exampleSystem : stable_diffusion.System :=
  stable_diffusion.mkSystem
    (fun _ req =>
       if String.eqb (stable_diffusion.Body req) "a cat"
       then inr "ok" else inr "<html>")
    (fun h _ => true)
    (fun _ _ => None)
    (fun _ _ _ => None)
    (fun h => Z.of_nat (length h)).

(** [{"prompt":"a dog","negativePrompt":"a cat"}] *)
Definition dogText : string :=
  "{" +:+ quoted "prompt" +:+ ":" +:+ quoted "a dog" +:+ ","
  +:+ quoted "negativePrompt" +:+ ":" +:+ quoted "a cat" +:+ "}".

(** ** The monad *)

Lemma append_cons (x : ascii) (a b : string) :
  String x a +:+ b = String x (a +:+ b).
Proof. reflexivity. Qed.

Lemma append_assoc (a b c : string) : (a +:+ b) +:+ c = a +:+ (b +:+ c).
Proof.
  induction a as [|x a IH]; [reflexivity|].
  rewrite !append_cons. by f_equal.
Qed.

Lemma append_empty_r (a : string) : a +:+ "" = a.
Proof.
  induction a as [|x a IH]; [reflexivity|].
  rewrite append_cons. by f_equal.
Qed.

Lemma len0_true (s : string) : len0 s = true <-> s = "".
Proof.
  unfold len0. destruct s; simpl; split; intros H; try done.
Qed.

Lemma last_cons_default {A : Type} (l : list A) : forall (x d d' : A),
  List.last (x :: l) d = List.last (x :: l) d'.
Proof.
  induction l as [|y l IH]; intros x d d'; [reflexivity|].
  change (List.last (y :: l) d = List.last (y :: l) d'). apply IH.
Qed.

Lemma lastReason_cons (d r : string) (reasons : list string) :
  lastReason r reasons = lastReason d (r :: reasons).
Proof.
  unfold lastReason. destruct reasons as [|x l]; [reflexivity|].
  change (List.last (x :: l) r = List.last (x :: l) d).
  apply last_cons_default.
Qed.

Lemma deferClose_inv_Ok {A : Type} (m : M A) w w' a :
  deferClose m w = (w', Ok a) ->
  exists w1, m w = (w1, Ok a) /\ w' = closing w1.
Proof.
  unfold deferClose. destruct (m w) as [w1 r]. intros [= <- ->]. by exists w1.
Qed.

Lemma mbind_inv_Ok {A B : Type} (m : M A) (k : A -> M B) w w' b :
  mbind m k w = (w', Ok b) ->
  exists w1 a, m w = (w1, Ok a) /\ k a w1 = (w', Ok b).
Proof.
  unfold mbind. destruct (m w) as [w1 [a|e|why]]; intros H; try discriminate.
  by exists w1, a.
Qed.

(** ** Streams of the completion client *)

Section CompletionStream.

Variable opts : llms.CallOptions.

(** A run of the receive loop that ends normally has consumed the deltas up
    to the end of the stream, each with a choice, has given their fragments
    to the streaming function in order, and holds their concatenation and
    the finish reason of the last of them. *)
Lemma LLM_recvLoop_Ok stream : forall output finishReason w w' output' finishReason',
  LLM.recvLoop opts stream output finishReason w = (w', Ok (output', finishReason')) ->
  Forall (fun r => openai.cr_Choices r <> []) (received stream)
  /\ delivered w' = delivered w ++ map fragment (received stream)
  /\ issued w' = issued w /\ logged w' = logged w
  /\ output' = output +:+ String.concat "" (map fragment (received stream))
  /\ finishReason' = lastReason finishReason (map finishReasonOf (received stream)).
Proof.
  induction stream as [|[err|resp] rest IH]; intros output fr w w' output' fr' H.
  - inversion H; subst. simpl.
    rewrite app_nil_r, append_empty_r. by repeat split.
  - simpl in H. destruct (is_EOF err); inversion H; subst. simpl.
    rewrite app_nil_r, append_empty_r. by repeat split.
  - simpl in H. destruct (openai.cr_Choices resp) as [|c cs] eqn:Hc;
      [discriminate|].
    apply mbind_inv_Ok in H as (w1 & r & Hsink & H).
    unfold callStreamingFunc in Hsink.
    destruct (llms.StreamingFunc opts) as [f|]; [|discriminate].
    inversion Hsink; subst; clear Hsink.
    destruct (f (delivered w) (openai.cc_Text c)); [discriminate|].
    apply IH in H as (Hall & Hd & Hi & Hl & Ho & Hf). simpl in *.
    assert (Hfrag : fragment resp = openai.cc_Text c)
      by (unfold fragment; by rewrite Hc).
    assert (Hfin : finishReasonOf resp = openai.cc_FinishReason c)
      by (unfold finishReasonOf; by rewrite Hc).
    rewrite Hfrag, Hfin.
    split; [constructor; [by rewrite Hc | done]|].
    split; [by rewrite Hd, <- app_assoc|].
    split; [done|]. split; [done|]. split.
    + rewrite Ho, append_assoc. f_equal.
      destruct (map fragment (received rest)) as [|x l]; simpl.
      * by rewrite append_empty_r.
      * reflexivity.
    + rewrite Hf. apply lastReason_cons.
Qed.

End CompletionStream.

Lemma deliveredBy_app (w w' : World) (l : list string) :
  delivered w' = delivered w ++ l -> deliveredBy w w' = l.
Proof. intros H. unfold deliveredBy. rewrite H. apply drop_app_length. Qed.

(** A streaming completion call that ends normally: the text of its record
    is the concatenation of the fragments given to the streaming function,
    and [FinishReason] is the only key of its [GenerationInfo]. *)
Lemma LLM_createCompletionStream_Ok o request opts w w' gen :
  LLM.createCompletionStream o request opts w = (w', Ok gen) ->
  exists stream,
    openai.CreateCompletionStream (LLM.client o) (issued w) request = inr stream
    /\ Forall (fun r => openai.cr_Choices r <> []) (received stream)
    /\ deliveredBy w w' = map fragment (received stream)
    /\ llms.Text gen = String.concat "" (deliveredBy w w')
    /\ llms.Message gen = None
    /\ llms.GenerationInfo gen =
         {[ "FinishReason" :=
              AnyString (lastReason "" (map finishReasonOf (received stream))) ]}.
Proof.
  unfold LLM.createCompletionStream. intros H.
  apply mbind_inv_Ok in H as (w1 & stream & Hissue & H).
  apply deferClose_inv_Ok in H as (w3 & H & ->).
  apply mbind_inv_Ok in H as (w2 & [output fr] & Hloop & H).
  inversion H; subst; clear H. unfold issue in Hissue.
  destruct (openai.CreateCompletionStream _ _ _) as [e|s] eqn:Hs;
    inversion Hissue; subst; clear Hissue.
  apply LLM_recvLoop_Ok in Hloop as (Hall & Hd & _ & _ & Ho & Hf).
  simpl in Hd. apply (deliveredBy_app w (closing w3)) in Hd.
  exists stream. simpl. rewrite Hd. by subst.
Qed.

Section ChatStream.

Variable opts : llms.CallOptions.

Lemma Chat_recvLoop_Ok stream : forall a w w' a',
  Chat.recvLoop opts stream a w = (w', Ok a') ->
  Forall (fun r => openai.sr_Choices r <> []) (received stream)
  /\ delivered w' = delivered w ++ map chatFragment (received stream)
  /\ issued w' = issued w /\ logged w' = logged w
  /\ Chat.a_text a' =
       Chat.a_text a +:+ String.concat "" (map chatFragment (received stream))
  /\ Chat.a_finishReason a' =
       lastReason (Chat.a_finishReason a)
         (map chatFinishReasonOf (received stream)).
Proof.
  induction stream as [|[err|resp] rest IH]; intros a w w' a' H.
  - inversion H; subst. simpl.
    rewrite app_nil_r, append_empty_r. by repeat split.
  - simpl in H. destruct (is_EOF err); inversion H; subst. simpl.
    rewrite app_nil_r, append_empty_r. by repeat split.
  - simpl in H. destruct (openai.sr_Choices resp) as [|c cs] eqn:Hc;
      [discriminate|].
    apply mbind_inv_Ok in H as (w1 & r & Hsink & H).
    unfold callStreamingFunc in Hsink.
    destruct (llms.StreamingFunc opts) as [f|]; [|discriminate].
    inversion Hsink; subst; clear Hsink.
    destruct (f (delivered w) _); [discriminate|].
    assert (Hfrag : chatFragment resp = openai.d_Content (openai.sc_Delta c))
      by (unfold chatFragment; by rewrite Hc).
    assert (Hfin : chatFinishReasonOf resp = openai.sc_FinishReason c)
      by (unfold chatFinishReasonOf; by rewrite Hc).
    assert (Hgo : forall fc,
      Chat.recvLoop opts rest
        (Chat.mkAcc (Chat.a_text a +:+ openai.d_Content (openai.sc_Delta c))
           (openai.sc_FinishReason c) fc)
        (mkWorld (issued w)
           (delivered w ++ [openai.d_Content (openai.sc_Delta c)]) (logged w)
           (closed w))
      = (w', Ok a') ->
      Forall (fun r => openai.sr_Choices r <> []) (received (inr resp :: rest))
      /\ delivered w' = delivered w ++ map chatFragment (received (inr resp :: rest))
      /\ issued w' = issued w /\ logged w' = logged w
      /\ Chat.a_text a' =
           Chat.a_text a +:+
           String.concat "" (map chatFragment (received (inr resp :: rest)))
      /\ Chat.a_finishReason a' =
           lastReason (Chat.a_finishReason a)
             (map chatFinishReasonOf (received (inr resp :: rest)))).
    { intros fc Hrec.
      apply IH in Hrec as (Hall & Hd & Hi & Hl & Ho & Hf). simpl in *.
      rewrite Hfrag, Hfin.
      split; [constructor; [by rewrite Hc | done]|].
      split; [by rewrite Hd, <- app_assoc|].
      split; [done|]. split; [done|]. split.
      - rewrite Ho, append_assoc. f_equal.
        destruct (map chatFragment (received rest)) as [|x l]; simpl.
        + by rewrite append_empty_r.
        + reflexivity.
      - rewrite Hf. apply lastReason_cons. }
    destruct (String.eqb _ _).
    + destruct (openai.d_FunctionCall _); [|discriminate]. by eapply Hgo.
    + by eapply Hgo.
Qed.

End ChatStream.

(** A streaming chat call that ends normally: the content of its message is
    the concatenation of the fragments given to the streaming function; the
    [Text] of its record is left empty. *)
Lemma Chat_createChatCompletionStream_Ok o request opts w w' gen :
  Chat.createChatCompletionStream o request opts w = (w', Ok gen) ->
  exists stream,
    openai.CreateChatCompletionStream (Chat.client o) (issued w) request
      = inr stream
    /\ Forall (fun r => openai.sr_Choices r <> []) (received stream)
    /\ deliveredBy w w' = map chatFragment (received stream)
    /\ llms.Text gen = ""
    /\ schema.Content <$> llms.Message gen
         = Some (String.concat "" (deliveredBy w w'))
    /\ llms.GenerationInfo gen =
         {[ "FinishReason" :=
              AnyString (lastReason "" (map chatFinishReasonOf (received stream))) ]}.
Proof.
  unfold Chat.createChatCompletionStream. intros H.
  apply mbind_inv_Ok in H as (w1 & stream & Hissue & H).
  apply deferClose_inv_Ok in H as (w3 & H & ->).
  apply mbind_inv_Ok in H as (w2 & a & Hloop & H).
  inversion H; subst; clear H. unfold issue in Hissue.
  destruct (openai.CreateChatCompletionStream _ _ _) as [e|s] eqn:Hs;
    inversion Hissue; subst; clear Hissue.
  apply Chat_recvLoop_Ok in Hloop as (Hall & Hd & _ & _ & Ho & Hf).
  simpl in Hd, Ho, Hf. apply (deliveredBy_app w (closing w3)) in Hd.
  exists stream. simpl. rewrite Hd, Ho, Hf. by repeat split.
Qed.

(** ** Streaming calls *)

(** C1.  A streaming call that ends normally returns a record whose
    [GenerationInfo] has [FinishReason] as its only key, hence none of the
    usage counters.  On the completion client the [Text] of the record is
    the concatenation of the fragments given to the streaming function, in
    the order they were given.  On the chat client that concatenation is the
    content of the record's message, and the [Text] of the record is the
    empty string. *)
Theorem streaming_record_text :
  (forall o request opts w w' gen,
     LLM.createCompletionStream o request opts w = (w', Ok gen) ->
     llms.Text gen = String.concat "" (deliveredBy w w')
     /\ dom (llms.GenerationInfo gen) = {[ "FinishReason" ]}
     /\ Forall (fun k => llms.GenerationInfo gen !! k = None) usageKeys)
  /\ (forall o request opts w w' gen,
        Chat.createChatCompletionStream o request opts w = (w', Ok gen) ->
        llms.Text gen = ""
        /\ schema.Content <$> llms.Message gen
             = Some (String.concat "" (deliveredBy w w'))
        /\ dom (llms.GenerationInfo gen) = {[ "FinishReason" ]}
        /\ Forall (fun k => llms.GenerationInfo gen !! k = None) usageKeys).
Proof.
  split; intros o request opts w w' gen H.
  - apply LLM_createCompletionStream_Ok in H
      as (stream & _ & _ & _ & Ht & _ & Hi).
    split; [done|]. rewrite Hi. split; [apply dom_singleton_L|].
    repeat constructor.
  - apply Chat_createChatCompletionStream_Ok in H
      as (stream & _ & _ & _ & Ht & Hm & Hi).
    split; [done|]. split; [done|]. rewrite Hi.
    split; [apply dom_singleton_L|]. repeat constructor.
Qed.

Lemma streaming_record_text_witness :
  exists w' gen,
    Chat.createChatCompletionStream exampleChat (exampleChatRequest hello)
      streamingOptions emptyWorld = (w', Ok gen)
    /\ delivered w' = ["Hel"; "lo"]
    /\ llms.Text gen = ""
    /\ schema.Content <$> llms.Message gen = Some "Hello".
Proof.
  eexists _, _. split; [vm_compute; reflexivity|].
  split; [reflexivity|].
  pose proof (proj2 streaming_record_text exampleChat (exampleChatRequest hello)
                streamingOptions emptyWorld _ _ eq_refl) as (Ht & Hm & _).
  split; [exact Ht | exact Hm].
Defined.

(** C3, as stated, fails: a completion stream whose first delta carries the
    finish reason [stop] and whose second delta carries an empty one ends
    normally with an empty [FinishReason], not with the last non-empty
    finish reason observed. *)
Lemma stream_finishReason_not_last_nonempty :
  exists w' gen stream,
    LLM.createCompletionStream exampleLLM (exampleRequest "hi")
      streamingOptions emptyWorld = (w', Ok gen)
    /\ openai.CreateCompletionStream exampleClient [] (exampleRequest "hi")
         = inr stream
    /\ map finishReasonOf (received stream) = ["stop"; ""]
    /\ lastNonEmpty (map finishReasonOf (received stream)) = "stop"
    /\ llms.GenerationInfo gen !! "FinishReason" = Some (AnyString "")
    /\ llms.GenerationInfo gen !! "FinishReason"
         <> Some (AnyString
                    (lastNonEmpty (map finishReasonOf (received stream)))).
Proof.
  eexists _, _, _. split; [vm_compute; reflexivity|].
  split; [reflexivity|]. split; [reflexivity|]. split; [reflexivity|].
  split; [reflexivity|]. vm_compute. discriminate.
Qed.

(** C3, amended.  For every streaming call that ends normally, completion or
    chat, the [FinishReason] of the returned record is the finish reason of
    the last delta received, empty or not; it is the empty string when no
    delta was received. *)
Theorem stream_finishReason_is_last_delta :
  (forall o request opts w w' gen,
     LLM.createCompletionStream o request opts w = (w', Ok gen) ->
     exists stream,
       openai.CreateCompletionStream (LLM.client o) (issued w) request
         = inr stream
       /\ llms.GenerationInfo gen !! "FinishReason"
            = Some (AnyString
                      (lastReason "" (map finishReasonOf (received stream)))))
  /\ (forall o request opts w w' gen,
        Chat.createChatCompletionStream o request opts w = (w', Ok gen) ->
        exists stream,
          openai.CreateChatCompletionStream (Chat.client o) (issued w) request
            = inr stream
          /\ llms.GenerationInfo gen !! "FinishReason"
               = Some (AnyString
                         (lastReason ""
                            (map chatFinishReasonOf (received stream))))).
Proof.
  split; intros o request opts w w' gen H.
  - apply LLM_createCompletionStream_Ok in H
      as (stream & Hs & _ & _ & _ & _ & Hi).
    exists stream. split; [done|]. rewrite Hi. apply lookup_singleton_eq.
  - apply Chat_createChatCompletionStream_Ok in H
      as (stream & Hs & _ & _ & _ & _ & Hi).
    exists stream. split; [done|]. rewrite Hi. apply lookup_singleton_eq.
Qed.

Lemma stream_finishReason_is_last_delta_witness :
  exists w' gen,
    Chat.createChatCompletionStream exampleChat (exampleChatRequest hello)
      streamingOptions emptyWorld = (w', Ok gen)
    /\ llms.GenerationInfo gen !! "FinishReason" = Some (AnyString "stop").
Proof.
  eexists _, _. split; [vm_compute; reflexivity|].
  destruct (proj2 stream_finishReason_is_last_delta exampleChat
              (exampleChatRequest hello) streamingOptions emptyWorld _ _ eq_refl)
    as (stream & Hs & Hi).
  vm_compute in Hs. injection Hs as <-. exact Hi.
Defined.

(** C4, on the streaming chat path.  The record of a streaming chat call
    has an empty [Text] although its message holds the content [Hello], and
    [Generate] logs that empty text as the response; the record of the
    non-streaming call on a response of the same content has that content as
    its [Text]. *)
Theorem chat_stream_text_not_mirrored :
  exists w1 streamed w2 collected w3,
    Chat.createChatCompletionStream exampleChat (exampleChatRequest hello)
      streamingOptions emptyWorld = (w1, Ok streamed)
    /\ schema.Content <$> llms.Message streamed = Some "Hello"
    /\ llms.Text streamed = ""
    /\ Chat.createChatCompletion exampleChat (exampleChatRequest hello)
         emptyWorld = (w2, Ok collected)
    /\ schema.Content <$> llms.Message collected = Some "Hello"
    /\ llms.Text collected = "Hello"
    /\ Chat.Generate (fun x => x) (fun _ => "[...]") exampleChat
         [[schema.Human "hi"]] [WithStreamingFunc acceptAll] emptyWorld
       = (w3, Ok [streamed])
    /\ logged w3 = [LLMRequest "[...]"; LLMResponse ""].
Proof.
  eexists _, _, _, _, _. split; [vm_compute; reflexivity|].
  split; [reflexivity|]. split; [reflexivity|].
  split; [vm_compute; reflexivity|]. split; [reflexivity|].
  split; [reflexivity|]. split; [vm_compute; reflexivity|]. reflexivity.
Qed.

(** ** The ways a completion stream fails, and its release *)

(** An error of the stream other than [io.EOF] is returned as it is; an
    error of the streaming function is returned as it is, after the fragment
    was given to it. *)
Lemma LLM_recvLoop_failures opts :
  (forall e rest output finishReason w,
     is_EOF e = false ->
     LLM.recvLoop opts (inl e :: rest) output finishReason w = (w, Err e))
  /\ (forall f resp c cs rest output finishReason w e,
        llms.StreamingFunc opts = Some f ->
        openai.cr_Choices resp = c :: cs ->
        f (delivered w) (openai.cc_Text c) = Some e ->
        LLM.recvLoop opts (inr resp :: rest) output finishReason w
        = (mkWorld (issued w) (delivered w ++ [openai.cc_Text c]) (logged w)
             (closed w), Err e)).
Proof.
  split.
  - intros e rest output fr w He. simpl. by rewrite He.
  - intros f resp c cs rest output fr w e Hf Hc He. simpl.
    rewrite Hc. unfold mbind, callStreamingFunc. by rewrite Hf, He.
Qed.

Lemma LLM_recvLoop_closed opts stream : forall output finishReason w,
  closed (LLM.recvLoop opts stream output finishReason w).1 = closed w.
Proof.
  induction stream as [|[err|resp] rest IH]; intros output fr w;
    [reflexivity | simpl; by destruct (is_EOF err) |].
  simpl. destruct (openai.cr_Choices resp) as [|c cs]; [reflexivity|].
  unfold mbind, callStreamingFunc.
  destruct (llms.StreamingFunc opts) as [f|]; [|reflexivity]. simpl.
  destruct (f (delivered w) (openai.cc_Text c)); [reflexivity|].
  by rewrite IH.
Qed.

(** A stream that could not be opened gives the provider's error; a stream
    that was opened is closed once, on every way out of the function. *)
Lemma LLM_createCompletionStream_release o request opts w :
  match openai.CreateCompletionStream (LLM.client o) (issued w) request with
  | inl e =>
      LLM.createCompletionStream o request opts w
      = (issuing (openai.CallCompletionStream request) w, Err e)
  | inr _ =>
      closed (LLM.createCompletionStream o request opts w).1 = S (closed w)
  end.
Proof.
  destruct (openai.CreateCompletionStream _ _ _) as [e|stream] eqn:Hs;
    unfold LLM.createCompletionStream, mbind at 1, issue, issuing; cbv beta;
    rewrite Hs; [reflexivity|].
  unfold deferClose, mbind.
  pose proof (LLM_recvLoop_closed opts stream "" ""
                (mkWorld (issued w ++ [openai.CallCompletionStream request])
                   (delivered w) (logged w) (closed w))) as Hc.
  destruct (LLM.recvLoop _ _ _ _ _) as [w1 [[output fr]|e|why]];
    simpl in *; by f_equal.
Qed.

(** ** The loops of [Generate] *)

Section CompletionGenerate.

Variable o : LLM.t.
Variable opts : llms.CallOptions.

Lemma LLM_generateLoop_request request prompt prompts generations :
  LLM.generateLoop o opts (LLM.withPrompt request prompt) prompts generations
  = LLM.generateLoop o opts request prompts generations.
Proof. destruct prompts; reflexivity. Qed.

Lemma LLM_generateLoop_Err request prompt rest generations w w2 e :
  LLM.dispatch o opts (LLM.withPrompt request prompt)
    (logging (LLMRequest prompt) w) = (w2, Err e) ->
  LLM.generateLoop o opts request (prompt :: rest) generations w
  = (logging (LLMResponse (error_Error e)) w2, Err e).
Proof.
  intros H. simpl. unfold mbind at 1, log at 1, mbind at 1, mtry.
  unfold logging in H. by rewrite H.
Qed.

Lemma LLM_generateLoop_Ok request prompt rest generations w w2 g :
  LLM.dispatch o opts (LLM.withPrompt request prompt)
    (logging (LLMRequest prompt) w) = (w2, Ok g) ->
  LLM.generateLoop o opts request (prompt :: rest) generations w
  = LLM.generateLoop o opts request rest (generations ++ [g])
      (logging (LLMResponse (llms.Text g)) w2).
Proof.
  intros H. rewrite <- (LLM_generateLoop_request request prompt rest).
  simpl. unfold mbind at 1, log at 1, mbind at 1, mtry.
  unfold logging in H. by rewrite H.
Qed.

Lemma LLM_generateLoop_Panic request prompt rest generations w w2 why :
  LLM.dispatch o opts (LLM.withPrompt request prompt)
    (logging (LLMRequest prompt) w) = (w2, Panic why) ->
  LLM.generateLoop o opts request (prompt :: rest) generations w
  = (w2, Panic why).
Proof.
  intros H. simpl. unfold mbind at 1, log at 1, mbind at 1, mtry.
  unfold logging in H. by rewrite H.
Qed.

(** The loop on [done ++ rest] is the loop on [done] followed, when that one
    succeeds, by the loop on [rest] from the records it produced. *)
Lemma LLM_generateLoop_app request done : forall rest generations w,
  LLM.generateLoop o opts request (done ++ rest) generations w
  = match LLM.generateLoop o opts request done generations w with
    | (w1, Ok gens1) => LLM.generateLoop o opts request rest gens1 w1
    | (w1, Err e) => (w1, Err e)
    | (w1, Panic why) => (w1, Panic why)
    end.
Proof.
  induction done as [|prompt done IH]; intros rest generations w;
    [reflexivity|].
  rewrite <- app_comm_cons.
  destruct (LLM.dispatch o opts (LLM.withPrompt request prompt)
              (logging (LLMRequest prompt) w)) as [w2 [g|e|why]] eqn:Hd.
  - rewrite !(LLM_generateLoop_Ok _ _ _ _ _ _ _ Hd). apply IH.
  - by rewrite !(LLM_generateLoop_Err _ _ _ _ _ _ _ Hd).
  - by rewrite !(LLM_generateLoop_Panic _ _ _ _ _ _ _ Hd).
Qed.

End CompletionGenerate.

Section ChatGenerate.

Variable json_Marshal : list openai.ChatCompletionMessage -> string.
Variable o : Chat.t.
Variable opts : llms.CallOptions.

Lemma Chat_generateLoop_request request msgs sets generations :
  Chat.generateLoop json_Marshal o opts (Chat.withMessages request msgs) sets
    generations
  = Chat.generateLoop json_Marshal o opts request sets generations.
Proof. destruct sets; reflexivity. Qed.

Lemma Chat_generateLoop_Err request msgs rest generations w w2 e :
  Chat.dispatch o opts (Chat.withMessages request msgs)
    (logging (LLMRequest (json_Marshal msgs)) w) = (w2, Err e) ->
  Chat.generateLoop json_Marshal o opts request (msgs :: rest) generations w
  = (logging (LLMError e) w2, Err e).
Proof.
  intros H. simpl. unfold mbind at 1, log at 1, mbind at 1, mtry.
  unfold logging in H. by rewrite H.
Qed.

Lemma Chat_generateLoop_Ok request msgs rest generations w w2 g :
  Chat.dispatch o opts (Chat.withMessages request msgs)
    (logging (LLMRequest (json_Marshal msgs)) w) = (w2, Ok g) ->
  Chat.generateLoop json_Marshal o opts request (msgs :: rest) generations w
  = Chat.generateLoop json_Marshal o opts request rest (generations ++ [g])
      (logging (LLMResponse (llms.Text g)) w2).
Proof.
  intros H. rewrite <- (Chat_generateLoop_request request msgs rest).
  simpl. unfold mbind at 1, log at 1, mbind at 1, mtry.
  unfold logging in H. by rewrite H.
Qed.

Lemma Chat_generateLoop_Panic request msgs rest generations w w2 why :
  Chat.dispatch o opts (Chat.withMessages request msgs)
    (logging (LLMRequest (json_Marshal msgs)) w) = (w2, Panic why) ->
  Chat.generateLoop json_Marshal o opts request (msgs :: rest) generations w
  = (w2, Panic why).
Proof.
  intros H. simpl. unfold mbind at 1, log at 1, mbind at 1, mtry.
  unfold logging in H. by rewrite H.
Qed.

Lemma Chat_generateLoop_app request done : forall rest generations w,
  Chat.generateLoop json_Marshal o opts request (done ++ rest) generations w
  = match Chat.generateLoop json_Marshal o opts request done generations w with
    | (w1, Ok gens1) =>
        Chat.generateLoop json_Marshal o opts request rest gens1 w1
    | (w1, Err e) => (w1, Err e)
    | (w1, Panic why) => (w1, Panic why)
    end.
Proof.
  induction done as [|msgs done IH]; intros rest generations w;
    [reflexivity|].
  rewrite <- app_comm_cons.
  destruct (Chat.dispatch o opts (Chat.withMessages request msgs)
              (logging (LLMRequest (json_Marshal msgs)) w))
    as [w2 [g|e|why]] eqn:Hd.
  - rewrite !(Chat_generateLoop_Ok _ _ _ _ _ _ _ Hd). apply IH.
  - by rewrite !(Chat_generateLoop_Err _ _ _ _ _ _ _ Hd).
  - by rewrite !(Chat_generateLoop_Panic _ _ _ _ _ _ _ Hd).
Qed.

End ChatGenerate.

(** C2.  When [Generate] has processed the items [done] with success and
    the request of the next item fails with the error [e] (whatever the
    cause: the provider, the stream, the streaming function, a response
    without choice), the call on [done ++ item :: rest] returns the error
    [e] and no record: the records of [done] are dropped, and no request is
    issued for [rest].  This holds for the completion client and for the
    chat client. *)
Theorem Generate_fails_with_first_failure :
  (forall float32_of_float64 o options done prompt rest w w1 gens1 w2 e,
     LLM.Generate float32_of_float64 o done options w = (w1, Ok gens1) ->
     LLM.dispatch o (LLM.callOptions options)
       (LLM.withPrompt
          (LLM.buildRequest float32_of_float64 o (LLM.callOptions options))
          prompt)
       (logging (LLMRequest prompt) w1) = (w2, Err e) ->
     let r :=
       LLM.Generate float32_of_float64 o (done ++ prompt :: rest) options w in
     snd r = Err e /\ returned (snd r) = [] /\ issued (fst r) = issued w2)
  /\ (forall float32_of_float64 json_Marshal o options done messages rest
             w w1 gens1 w2 e,
        Chat.Generate float32_of_float64 json_Marshal o done options w
          = (w1, Ok gens1) ->
        Chat.dispatch o (Chat.callOptions options)
          (Chat.withMessages
             (Chat.buildRequest float32_of_float64 o (Chat.callOptions options))
             (map Chat.translateMessage messages))
          (logging
             (LLMRequest (json_Marshal (map Chat.translateMessage messages))) w1)
          = (w2, Err e) ->
        let r :=
          Chat.Generate float32_of_float64 json_Marshal o
            (done ++ messages :: rest) options w in
        snd r = Err e /\ returned (snd r) = [] /\ issued (fst r) = issued w2).
Proof.
  split.
  - intros f32 o options done prompt rest w w1 gens1 w2 e Hdone Hfail r.
    subst r. unfold LLM.Generate in *.
    rewrite LLM_generateLoop_app, Hdone.
    by rewrite (LLM_generateLoop_Err _ _ _ _ _ _ _ _ _ Hfail).
  - intros f32 marshal o options done messages rest w w1 gens1 w2 e
      Hdone Hfail r.
    subst r. unfold Chat.Generate in *.
    rewrite map_app, map_cons, Chat_generateLoop_app, Hdone.
    by rewrite (Chat_generateLoop_Err _ _ _ _ _ _ _ _ _ _ Hfail).
Qed.

Lemma Generate_fails_with_first_failure_witness :
  snd (LLM.Generate (fun x => x) exampleLLM ["a"; "bad"; "c"] [] emptyWorld)
    = Err (OtherError "status code: 500")
  /\ returned
       (snd (LLM.Generate (fun x => x) exampleLLM ["a"; "bad"; "c"] []
               emptyWorld)) = []
  /\ length
       (issued
          (fst (LLM.Generate (fun x => x) exampleLLM ["a"; "bad"; "c"] []
                  emptyWorld))) = 2%nat.
Proof.
  destruct (proj1 Generate_fails_with_first_failure (fun x => x) exampleLLM []
              ["a"] "bad" ["c"] emptyWorld _ _ _ (OtherError "status code: 500")
              eq_refl eq_refl)
    as (He & Hr & Hi).
  split; [exact He|]. split; [exact Hr|]. exact (f_equal length Hi).
Defined.

(** ** Non-streaming completion calls *)

(** A response with a choice gives one record, which holds the text and the
    finish reason of the first choice and the usage counters of the
    response. *)
Lemma LLM_createCompletion_Ok o request w resp :
  openai.CreateCompletion (LLM.client o) (issued w) request = inr resp ->
  openai.cr_Choices resp <> [] ->
  exists gen,
    LLM.createCompletion o request w
      = (issuing (openai.CallCompletion request) w, Ok gen)
    /\ llms.Text gen = fragment resp
    /\ holdsUsage (llms.GenerationInfo gen) (openai.cr_Usage resp)
    /\ llms.GenerationInfo gen !! "FinishReason"
         = Some (AnyString (finishReasonOf resp)).
Proof.
  intros Hresp Hchoices. unfold LLM.createCompletion, mbind, issue.
  rewrite Hresp. unfold fragment, finishReasonOf.
  destruct (openai.cr_Choices resp) as [|c cs]; [done|].
  eexists. split; [reflexivity|]. simpl.
  unfold holdsUsage. by simplify_map_eq.
Qed.

Lemma LLM_generateLoop_collect o opts request prompts :
  forall generations w resps,
  openai.cq_Stream request = false ->
  completionAnswers (LLM.client o) (issued w)
    (map (LLM.withPrompt request) prompts) = map inr resps ->
  Forall (fun r => openai.cr_Choices r <> []) resps ->
  exists w' gens,
    LLM.generateLoop o opts request prompts generations w
      = (w', Ok (generations ++ gens))
    /\ length gens = length prompts
    /\ Forall2 (fun g r =>
                  llms.Text g = fragment r
                  /\ holdsUsage (llms.GenerationInfo g) (openai.cr_Usage r))
         gens resps.
Proof.
  induction prompts as [|prompt prompts IH]; intros generations w resps
    Hstream Hans Hall.
  - destruct resps; [|discriminate]. exists w, [].
    rewrite app_nil_r. by repeat split.
  - destruct resps as [|resp resps]; [discriminate|].
    simpl in Hans. injection Hans as Hresp Hans.
    apply Forall_cons in Hall as [Hc Hall].
    destruct (LLM_createCompletion_Ok o (LLM.withPrompt request prompt)
                (logging (LLMRequest prompt) w) resp Hresp Hc)
      as (gen & Hgen & Htext & Husage & _).
    assert (Hd : LLM.dispatch o opts (LLM.withPrompt request prompt)
                   (logging (LLMRequest prompt) w)
                 = (issuing (openai.CallCompletion (LLM.withPrompt request prompt))
                      (logging (LLMRequest prompt) w), Ok gen)).
    { unfold LLM.dispatch. simpl. by rewrite Hstream. }
    rewrite (LLM_generateLoop_Ok _ _ _ _ _ _ _ _ _ Hd).
    destruct (IH (generations ++ [gen])
                (logging (LLMResponse (llms.Text gen))
                   (issuing (openai.CallCompletion (LLM.withPrompt request prompt))
                      (logging (LLMRequest prompt) w)))
                resps Hstream Hans Hall)
      as (w' & gens & Hloop & Hlen & Hrel).
    exists w', (gen :: gens). rewrite Hloop, <- app_assoc.
    split; [done|]. split; [simpl; by rewrite Hlen|]. by constructor.
Qed.

(** C5.  When no streaming function is given and the provider answers every
    request of the call with a response that carries at least one choice,
    [Generate] returns one record per prompt, in the order of the prompts,
    whose [GenerationInfo] holds the three usage counters of the response to
    that prompt. *)
Theorem Generate_collects_usage float32_of_float64 o prompts options w resps :
  llms.StreamingFunc (LLM.callOptions options) = None ->
  completionAnswers (LLM.client o) (issued w)
    (map (LLM.withPrompt
            (LLM.buildRequest float32_of_float64 o (LLM.callOptions options)))
       prompts)
    = map inr resps ->
  Forall (fun r => openai.cr_Choices r <> []) resps ->
  exists w' gens,
    LLM.Generate float32_of_float64 o prompts options w = (w', Ok gens)
    /\ length gens = length prompts
    /\ Forall2 (fun g r =>
                  llms.Text g = fragment r
                  /\ holdsUsage (llms.GenerationInfo g) (openai.cr_Usage r))
         gens resps.
Proof.
  intros Hnil Hans Hall. unfold LLM.Generate.
  eapply (LLM_generateLoop_collect o _ _ prompts [] w resps); try done.
  simpl. by rewrite Hnil.
Qed.

Lemma Generate_collects_usage_witness :
  exists w' g1 g2,
    LLM.Generate (fun x => x) exampleLLM ["a"; "b"] [] emptyWorld
      = (w', Ok [g1; g2])
    /\ llms.GenerationInfo g1 !! "PromptTokens" = Some (AnyInt 3)
    /\ llms.GenerationInfo g2 !! "TotalTokens" = Some (AnyInt 8).
Proof.
  destruct (Generate_collects_usage (fun x => x) exampleLLM ["a"; "b"] []
              emptyWorld [completionOf "re: a" "stop"; completionOf "re: b" "stop"]
              eq_refl eq_refl)
    as (w' & gens & Hgen & Hlen & Hrel).
  { repeat constructor; discriminate. }
  inversion Hrel as [|g1 r1 gs1 rs1 [_ (H1 & _ & _)] Hrel1]; subst.
  inversion Hrel1 as [|g2 r2 gs2 rs2 [_ (_ & _ & H2)] Hrel2]; subst.
  inversion Hrel2; subst.
  exists w', g1, g2. split; [exact Hgen|]. split; [exact H1 | exact H2].
Defined.

(** ** Embeddings *)

Section Embeddings.

Variable float64_of_float32 : float32 -> float64.
Variable stringToEmbeddingModel : gmap string openai.EmbeddingModel.

#[local] Abbreviation CreateEmbedding :=
  (LLM.CreateEmbedding float64_of_float32 stringToEmbeddingModel).

#[local] Abbreviation converted := (convertedBy float64_of_float32).

(** What [CreateEmbedding] does once the model name is resolved to [em]: one
    request, and then a result that depends on the number of vectors of the
    response only. *)
Lemma CreateEmbedding_resolved o model inputTexts w em :
  stringToEmbeddingModel
    !! (if len0 model then defaultEmbeddingModel else model) = Some em ->
  CreateEmbedding o model inputTexts w
  = (issuing (openai.CallEmbeddings (openai.mkEmbeddingRequest inputTexts em)) w,
     match openai.CreateEmbeddings (LLM.client o) (issued w)
             (openai.mkEmbeddingRequest inputTexts em) with
     | inl e => Err e
     | inr resp =>
         if (length (openai.er_Data resp) =? 0)%nat then Err ErrEmptyResponse
         else if (length inputTexts =? length (openai.er_Data resp))%nat
         then Ok (converted resp)
         else Err ErrUnexpectedResponseLength
     end).
Proof.
  intros Hem. unfold LLM.CreateEmbedding. rewrite Hem.
  unfold mbind, issue, issuing.
  destruct (openai.CreateEmbeddings _ _ _) as [e|resp]; [reflexivity|].
  destruct (length (openai.er_Data resp) =? 0)%nat; [reflexivity|].
  destruct (length inputTexts =? length (openai.er_Data resp))%nat; reflexivity.
Qed.

Lemma CreateEmbedding_unresolved o model inputTexts w :
  stringToEmbeddingModel
    !! (if len0 model then defaultEmbeddingModel else model) = None ->
  CreateEmbedding o model inputTexts w = (w, Err ErrUnexpectedEmbeddingModel).
Proof. intros Hem. unfold LLM.CreateEmbedding. by rewrite Hem. Qed.

(** C6.  The vectors [CreateEmbedding] returns are, one for one and in
    order, the vectors of the provider's response converted element by
    element, and there are as many of them as input texts; a response with
    a number of vectors that is neither zero nor the number of input texts
    gives [ErrUnexpectedResponseLength]; every error comes with no vector,
    and the call does not panic. *)
Theorem CreateEmbedding_cardinality o model inputTexts w :
  let r := snd (CreateEmbedding o model inputTexts w) in
  let name := if len0 model then defaultEmbeddingModel else model in
  (forall vecs, r = Ok vecs ->
     length vecs = length inputTexts
     /\ exists em resp,
          stringToEmbeddingModel !! name = Some em
          /\ openai.CreateEmbeddings (LLM.client o) (issued w)
               (openai.mkEmbeddingRequest inputTexts em) = inr resp
          /\ vecs = converted resp
          /\ forall i, vecs !! i
               = (fun d => map float64_of_float32 (openai.e_Embedding d))
                   <$> openai.er_Data resp !! i)
  /\ (forall em resp,
        stringToEmbeddingModel !! name = Some em ->
        openai.CreateEmbeddings (LLM.client o) (issued w)
          (openai.mkEmbeddingRequest inputTexts em) = inr resp ->
        length (openai.er_Data resp) <> 0%nat ->
        length (openai.er_Data resp) <> length inputTexts ->
        r = Err ErrUnexpectedResponseLength)
  /\ (length (returned r) = length inputTexts
      \/ returned r = [] /\ exists e, r = Err e).
Proof.
  intros r name. subst r name.
  destruct (stringToEmbeddingModel
              !! (if len0 model then defaultEmbeddingModel else model))
    as [em|] eqn:Hem.
  - rewrite (CreateEmbedding_resolved _ _ _ _ _ Hem). simpl.
    destruct (openai.CreateEmbeddings _ _ _) as [e|resp] eqn:Hresp.
    { split; [done|]. split; [intros; congruence|]. right. eauto. }
    destruct (Nat.eqb_spec (length (openai.er_Data resp)) 0) as [H0|H0].
    { split; [done|]. split; [intros; congruence|]. right. eauto. }
    destruct (Nat.eqb_spec (length inputTexts) (length (openai.er_Data resp)))
      as [Hn|Hn].
    + split; [|split].
      * intros vecs [= <-]. unfold convertedBy.
        split; [by rewrite length_map|].
        exists em, resp. repeat split; try done.
        intros i. apply list_lookup_fmap.
      * intros; congruence.
      * left. simpl. unfold convertedBy. by rewrite length_map.
    + split; [done|]. split; [done|]. right. eauto.
  - rewrite (CreateEmbedding_unresolved _ _ _ _ Hem). simpl.
    split; [done|]. split; [done|]. right. eauto.
Qed.

(** C7.  A model name that is not empty and not in the table gives
    [ErrUnexpectedEmbeddingModel], and the world is left as it was: no
    request is issued. *)
Theorem CreateEmbedding_unknown_model o model inputTexts w :
  model <> "" ->
  stringToEmbeddingModel !! model = None ->
  CreateEmbedding o model inputTexts w = (w, Err ErrUnexpectedEmbeddingModel).
Proof.
  intros Hne Hnone. apply CreateEmbedding_unresolved.
  destruct (len0 model) eqn:Hlen; [|done].
  by apply len0_true in Hlen.
Qed.

(** C10.  With the default embedding model in the table, a call with the
    empty model name is the call with the name [text-embedding-ada-002]: it
    issues the request for the model the table gives for that name, and it
    returns [ErrUnexpectedEmbeddingModel] only if the provider itself
    answered with that error. *)
Theorem CreateEmbedding_default_model o inputTexts w em :
  stringToEmbeddingModel !! "text-embedding-ada-002" = Some em ->
  CreateEmbedding o "" inputTexts w
    = CreateEmbedding o "text-embedding-ada-002" inputTexts w
  /\ issued (fst (CreateEmbedding o "" inputTexts w))
       = issued w
         ++ [openai.CallEmbeddings (openai.mkEmbeddingRequest inputTexts em)]
  /\ (snd (CreateEmbedding o "" inputTexts w) = Err ErrUnexpectedEmbeddingModel ->
      openai.CreateEmbeddings (LLM.client o) (issued w)
        (openai.mkEmbeddingRequest inputTexts em)
      = inl ErrUnexpectedEmbeddingModel).
Proof.
  intros Hem. split; [reflexivity|].
  rewrite (CreateEmbedding_resolved o "" inputTexts w em Hem). simpl.
  split; [reflexivity|].
  destruct (openai.CreateEmbeddings _ _ _) as [e|resp]; [by intros [= ->]|].
  destruct (length (openai.er_Data resp) =? 0)%nat; [discriminate|].
  destruct (length inputTexts =? length (openai.er_Data resp))%nat;
    discriminate.
Qed.

End Embeddings.

Lemma CreateEmbedding_cardinality_witness :
  snd (LLM.CreateEmbedding (fun x => x) exampleTable exampleLLM "" ["a"; "b"]
         emptyWorld) = Ok [[1; 2]; [3; 4]]
  /\ snd (LLM.CreateEmbedding (fun x => x) exampleTable exampleLLM "" ["a"; "b"; "c"]
            emptyWorld) = Err ErrUnexpectedResponseLength.
Proof.
  split; [reflexivity|].
  destruct (CreateEmbedding_cardinality (fun x => x) exampleTable exampleLLM ""
              ["a"; "b"; "c"] emptyWorld) as (_ & H & _).
  eapply H; [reflexivity | reflexivity | vm_compute; discriminate
            | vm_compute; discriminate].
Defined.

Lemma CreateEmbedding_unknown_model_witness :
  LLM.CreateEmbedding (fun x => x) exampleTable exampleLLM "not-a-real-model"
    ["a"; "b"] emptyWorld
  = (emptyWorld, Err ErrUnexpectedEmbeddingModel).
Proof.
  apply (CreateEmbedding_unknown_model (fun x => x) exampleTable exampleLLM
           "not-a-real-model" ["a"; "b"] emptyWorld);
    [discriminate | reflexivity].
Defined.

Lemma CreateEmbedding_default_model_witness :
  LLM.CreateEmbedding (fun x => x) exampleTable exampleLLM "" ["a"; "b"] emptyWorld
  = LLM.CreateEmbedding (fun x => x) exampleTable exampleLLM
      "text-embedding-ada-002" ["a"; "b"] emptyWorld
  /\ snd (LLM.CreateEmbedding (fun x => x) exampleTable exampleLLM "" ["a"; "b"]
            emptyWorld) = Ok [[1; 2]; [3; 4]].
Proof.
  split; [|reflexivity].
  exact (proj1 (CreateEmbedding_default_model (fun x => x) exampleTable
                  exampleLLM ["a"; "b"] emptyWorld 15 eq_refl)).
Defined.

(** ** Responses without choice *)

(** The receive loops on a stream that starts with the deltas [pre]: the
    loop on [pre], followed, when it succeeds, by the loop on what comes
    after. *)
Lemma LLM_recvLoop_prefix opts pre rest : forall output finishReason w,
  LLM.recvLoop opts (map inr pre ++ rest) output finishReason w
  = match LLM.recvLoop opts (map inr pre) output finishReason w with
    | (w1, Ok (output1, finishReason1)) =>
        LLM.recvLoop opts rest output1 finishReason1 w1
    | (w1, Err e) => (w1, Err e)
    | (w1, Panic why) => (w1, Panic why)
    end.
Proof.
  induction pre as [|resp pre IH]; intros output fr w; [reflexivity|].
  simpl. destruct (openai.cr_Choices resp) as [|c cs]; [reflexivity|].
  unfold mbind.
  destruct (callStreamingFunc (llms.StreamingFunc opts) (openai.cc_Text c) w)
    as [w1 [[e|]|e|why]]; try reflexivity.
  apply IH.
Qed.

Lemma Chat_recvLoop_prefix opts pre rest : forall a w,
  Chat.recvLoop opts (map inr pre ++ rest) a w
  = match Chat.recvLoop opts (map inr pre) a w with
    | (w1, Ok a1) => Chat.recvLoop opts rest a1 w1
    | (w1, Err e) => (w1, Err e)
    | (w1, Panic why) => (w1, Panic why)
    end.
Proof.
  induction pre as [|resp pre IH]; intros a w; [reflexivity|].
  simpl. destruct (openai.sr_Choices resp) as [|c cs]; [reflexivity|].
  unfold mbind.
  destruct (callStreamingFunc (llms.StreamingFunc opts) _ w)
    as [w1 [[e|]|e|why]]; try reflexivity.
  destruct (String.eqb _ _); [|apply IH].
  destruct (openai.d_FunctionCall _); [apply IH | reflexivity].
Qed.

(** C8.  A response without choice makes the non-streaming calls fail with
    [ErrEmptyResponse]; a delta without choice, received after the deltas
    [pre] were received and accepted, makes the streaming calls fail with
    [ErrEmptyResponse]; and a streaming call that returns a record has
    received no delta without choice.  This holds for the completion client
    and for the chat client. *)
Theorem zero_choices_is_empty_response :
  (forall o request w resp,
     openai.CreateCompletion (LLM.client o) (issued w) request = inr resp ->
     openai.cr_Choices resp = [] ->
     LLM.createCompletion o request w
     = (issuing (openai.CallCompletion request) w, Err ErrEmptyResponse))
  /\ (forall o request opts w pre resp rest w1 acc,
        openai.CreateCompletionStream (LLM.client o) (issued w) request
          = inr (map inr pre ++ inr resp :: rest) ->
        LLM.recvLoop opts (map inr pre) "" ""
          (issuing (openai.CallCompletionStream request) w) = (w1, Ok acc) ->
        openai.cr_Choices resp = [] ->
        LLM.createCompletionStream o request opts w
        = (closing w1, Err ErrEmptyResponse))
  /\ (forall o request w resp,
        openai.CreateChatCompletion (Chat.client o) (issued w) request
          = inr resp ->
        openai.hr_Choices resp = [] ->
        Chat.createChatCompletion o request w
        = (issuing (openai.CallChatCompletion request) w, Err ErrEmptyResponse))
  /\ (forall o request opts w pre resp rest w1 acc,
        openai.CreateChatCompletionStream (Chat.client o) (issued w) request
          = inr (map inr pre ++ inr resp :: rest) ->
        Chat.recvLoop opts (map inr pre) (Chat.mkAcc "" "" None)
          (issuing (openai.CallChatCompletionStream request) w) = (w1, Ok acc) ->
        openai.sr_Choices resp = [] ->
        Chat.createChatCompletionStream o request opts w
        = (closing w1, Err ErrEmptyResponse))
  /\ (forall o request opts w w' gen stream,
        LLM.createCompletionStream o request opts w = (w', Ok gen) ->
        openai.CreateCompletionStream (LLM.client o) (issued w) request
          = inr stream ->
        Forall (fun r => openai.cr_Choices r <> []) (received stream))
  /\ (forall o request opts w w' gen stream,
        Chat.createChatCompletionStream o request opts w = (w', Ok gen) ->
        openai.CreateChatCompletionStream (Chat.client o) (issued w) request
          = inr stream ->
        Forall (fun r => openai.sr_Choices r <> []) (received stream)).
Proof.
  repeat split.
  - intros o request w resp Hresp Hc.
    unfold LLM.createCompletion, mbind, issue. by rewrite Hresp, Hc.
  - intros o request opts w pre resp rest w1 [output fr] Hs Hpre Hc.
    unfold LLM.createCompletionStream, mbind at 1, issue. rewrite Hs.
    unfold issuing in Hpre. unfold deferClose, mbind.
    rewrite LLM_recvLoop_prefix, Hpre. simpl. by rewrite Hc.
  - intros o request w resp Hresp Hc.
    unfold Chat.createChatCompletion, mbind, issue. by rewrite Hresp, Hc.
  - intros o request opts w pre resp rest w1 acc Hs Hpre Hc.
    unfold Chat.createChatCompletionStream, mbind at 1, issue. rewrite Hs.
    unfold issuing in Hpre. unfold deferClose, mbind.
    rewrite Chat_recvLoop_prefix, Hpre. simpl. by rewrite Hc.
  - intros o request opts w w' gen stream H Hs.
    apply LLM_createCompletionStream_Ok in H as (stream' & Hs' & Hall & _).
    congruence.
  - intros o request opts w w' gen stream H Hs.
    apply Chat_createChatCompletionStream_Ok in H as (stream' & Hs' & Hall & _).
    congruence.
Qed.

Lemma zero_choices_is_empty_response_witness :
  snd (LLM.createCompletion exampleLLM (exampleRequest "empty") emptyWorld)
    = Err ErrEmptyResponse
  /\ snd (LLM.createCompletionStream exampleLLM (exampleRequest "empty")
            streamingOptions emptyWorld) = Err ErrEmptyResponse
  /\ delivered
       (fst (LLM.createCompletionStream exampleLLM (exampleRequest "empty")
               streamingOptions emptyWorld)) = ["Hel"].
Proof.
  destruct zero_choices_is_empty_response as (Hc & Hs & _).
  split.
  { rewrite (Hc exampleLLM (exampleRequest "empty") emptyWorld
               (openai.mkCompletionResponse [] exampleUsage) eq_refl eq_refl).
    reflexivity. }
  rewrite (Hs exampleLLM (exampleRequest "empty") streamingOptions emptyWorld
             [completionOf "Hel" ""]
             (openai.mkCompletionResponse [] exampleUsage) [] _ _
             eq_refl eq_refl eq_refl).
  split; reflexivity.
Defined.

(** ** UTF-8 encodings *)

Lemma first_Some x sz lo hi :
  unicode_utf8.first x = Some (sz, lo, hi) ->
  (sz = 2%nat /\ 194 <= x < 224 /\ lo = 128 /\ hi = 191)%N
  \/ (sz = 3%nat /\ 224 <= x < 240 /\ 128 <= lo /\ hi <= 191
      /\ (x = 224 -> lo = 160) /\ (x = 237 -> hi = 159))%N
  \/ (sz = 4%nat /\ 240 <= x < 245 /\ 128 <= lo /\ hi <= 191
      /\ (x = 240 -> lo = 144) /\ (x = 244 -> hi = 143))%N.
Proof.
  unfold unicode_utf8.first.
  repeat match goal with
         | |- context [N.ltb ?a ?b] => destruct (N.ltb_spec a b)
         | |- context [N.eqb ?a ?b] => destruct (N.eqb_spec a b)
         end;
    intros [= <- <- <-] || discriminate; lia.
Qed.

Lemma within_spec lo hi b :
  unicode_utf8.within lo hi b = true <-> (lo <= N_of_ascii b <= hi)%N.
Proof.
  unfold unicode_utf8.within. rewrite andb_true_iff, !N.leb_le. done.
Qed.

Lemma utf8_2 (x y : N) :
  (194 <= x < 224)%N -> (128 <= y <= 191)%N ->
  json.utf8 ((x mod 32) * 64 + y mod 64) = [ascii_of_N x; ascii_of_N y].
Proof.
  intros Hx Hy. unfold json.utf8.
  assert (H : (128 <= (x mod 32) * 64 + y mod 64 < 2048
               /\ 192 + ((x mod 32) * 64 + y mod 64) / 64 = x
               /\ 128 + ((x mod 32) * 64 + y mod 64) mod 64 = y)%N)
    by (zify; Z.to_euclidean_division_equations; lia).
  destruct H as ([H1 H2] & -> & ->).
  destruct (N.ltb_spec ((x mod 32) * 64 + y mod 64) 128); [lia|].
  destruct (N.ltb_spec ((x mod 32) * 64 + y mod 64) 2048); [done|lia].
Qed.

Lemma utf8_3 (x y z : N) :
  (224 <= x < 240)%N -> (128 <= y <= 191)%N -> (128 <= z <= 191)%N ->
  (x = 224 -> 160 <= y)%N ->
  json.utf8 ((x mod 16) * 4096 + (y mod 64) * 64 + z mod 64)
  = [ascii_of_N x; ascii_of_N y; ascii_of_N z].
Proof.
  intros Hx Hy Hz Hlo. unfold json.utf8.
  set (r := ((x mod 16) * 4096 + (y mod 64) * 64 + z mod 64)%N).
  assert (H : (2048 <= r < 65536
               /\ 224 + r / 4096 = x
               /\ 128 + (r / 64) mod 64 = y
               /\ 128 + r mod 64 = z)%N)
    by (subst r; zify; Z.to_euclidean_division_equations; lia).
  destruct H as ([H1 H2] & -> & -> & ->).
  destruct (N.ltb_spec r 128); [lia|].
  destruct (N.ltb_spec r 2048); [lia|].
  destruct (N.ltb_spec r 65536); [done|lia].
Qed.

Lemma utf8_4 (x y z w : N) :
  (240 <= x < 245)%N -> (128 <= y <= 191)%N -> (128 <= z <= 191)%N ->
  (128 <= w <= 191)%N -> (x = 240 -> 144 <= y)%N ->
  json.utf8 ((x mod 8) * 262144 + (y mod 64) * 4096 + (z mod 64) * 64
             + w mod 64)
  = [ascii_of_N x; ascii_of_N y; ascii_of_N z; ascii_of_N w].
Proof.
  intros Hx Hy Hz Hw Hlo. unfold json.utf8.
  assert (Ex : (x mod 8 = x - 240)%N)
    by (symmetry; apply (N.mod_unique x 8 30); lia).
  assert (Ey : (y mod 64 = y - 128)%N)
    by (symmetry; apply (N.mod_unique y 64 2); lia).
  assert (Ez : (z mod 64 = z - 128)%N)
    by (symmetry; apply (N.mod_unique z 64 2); lia).
  assert (Ew : (w mod 64 = w - 128)%N)
    by (symmetry; apply (N.mod_unique w 64 2); lia).
  rewrite Ex, Ey, Ez, Ew.
  set (r := ((x - 240) * 262144 + (y - 128) * 4096 + (z - 128) * 64
             + (w - 128))%N).
  assert (H1 : (65536 <= r)%N) by (subst r; lia).
  assert (D1 : (r / 262144 = x - 240)%N)
    by (symmetry;
        apply (N.div_unique r 262144 _
                 ((y - 128) * 4096 + (z - 128) * 64 + (w - 128)));
        subst r; lia).
  assert (D2 : (r / 4096 = (x - 240) * 64 + (y - 128))%N)
    by (symmetry;
        apply (N.div_unique r 4096 _ ((z - 128) * 64 + (w - 128)));
        subst r; lia).
  assert (D3 : (r / 64 = (x - 240) * 4096 + (y - 128) * 64 + (z - 128))%N)
    by (symmetry; apply (N.div_unique r 64 _ (w - 128)); subst r; lia).
  assert (M2 : ((r / 4096) mod 64 = y - 128)%N)
    by (rewrite D2; symmetry;
        apply (N.mod_unique _ 64 (x - 240)); lia).
  assert (M3 : ((r / 64) mod 64 = z - 128)%N)
    by (rewrite D3; symmetry;
        apply (N.mod_unique _ 64 ((x - 240) * 64 + (y - 128))); lia).
  assert (M4 : (r mod 64 = w - 128)%N)
    by (symmetry;
        apply (N.mod_unique r 64
                 ((x - 240) * 4096 + (y - 128) * 64 + (z - 128)));
        subst r; lia).
  destruct (N.ltb_spec r 128); [lia|].
  destruct (N.ltb_spec r 2048); [lia|].
  destruct (N.ltb_spec r 65536); [lia|].
  rewrite D1, M2, M3, M4.
  by replace (240 + (x - 240))%N with x by lia;
     replace (128 + (y - 128))%N with y by lia;
     replace (128 + (z - 128))%N with z by lia;
     replace (128 + (w - 128))%N with w by lia.
Qed.

(** What [DecodeRune] finds at a byte above 127: no encoding, or the
    encoding of a code point in two to four bytes, which [utf8] writes
    back, and which is found again whatever follows it. *)
Lemma DecodeRune_cases c p :
  (128 <= N_of_ascii c)%N ->
  unicode_utf8.DecodeRune c p = (unicode_utf8.RuneError, 1%nat)
  \/ exists r size bs,
       unicode_utf8.DecodeRune c p = (r, size)
       /\ (2 <= size)%nat
       /\ p = bs ++ unicode_utf8.after size p
       /\ take size (c :: p) = c :: bs
       /\ json.utf8 r = c :: bs
       /\ forall q,
            unicode_utf8.DecodeRune c (bs ++ q) = (r, size)
            /\ unicode_utf8.after size (bs ++ q) = q.
Proof.
  intros Hc.
  assert (Hx128 : (N_of_ascii c <? 128)%N = false) by (apply N.ltb_ge; lia).
  unfold unicode_utf8.DecodeRune. rewrite Hx128.
  destruct (unicode_utf8.first (N_of_ascii c)) as [[[sz lo] hi]|] eqn:Hfirst;
    [|by left].
  destruct p as [|b1 p1]; [by left|].
  destruct (unicode_utf8.within lo hi b1) eqn:W1; [|by left].
  pose proof (proj1 (within_spec _ _ _) W1) as H1.
  destruct (first_Some _ _ _ _ Hfirst)
    as [(-> & Hx & -> & ->)|[(-> & Hx & Hlo & Hhi & H224 & H237)
                            |(-> & Hx & Hlo & Hhi & H240 & H244)]].
  - right. eexists _, 2%nat, [b1].
    split; [reflexivity|]. split; [lia|]. split; [done|]. split; [done|].
    split.
    + rewrite utf8_2 by lia. by rewrite !ascii_N_embedding.
    + intros q. simpl. by rewrite W1.
  - destruct p1 as [|b2 p2]; [by left|].
    destruct (unicode_utf8.within 128 191 b2) eqn:W2; [|by left].
    pose proof (proj1 (within_spec _ _ _) W2) as H2.
    right. eexists _, 3%nat, [b1; b2].
    split; [reflexivity|]. split; [lia|]. split; [done|]. split; [done|].
    split.
    + rewrite utf8_3 by lia. by rewrite !ascii_N_embedding.
    + intros q. simpl. by rewrite W1, W2.
  - destruct p1 as [|b2 p2]; [by left|].
    destruct (unicode_utf8.within 128 191 b2) eqn:W2; [|by left].
    pose proof (proj1 (within_spec _ _ _) W2) as H2.
    destruct p2 as [|b3 p3]; [by left|].
    destruct (unicode_utf8.within 128 191 b3) eqn:W3; [|by left].
    pose proof (proj1 (within_spec _ _ _) W3) as H3.
    right. eexists _, 4%nat, [b1; b2; b3].
    split; [reflexivity|]. split; [lia|]. split; [done|]. split; [done|].
    split.
    + rewrite utf8_4 by lia. by rewrite !ascii_N_embedding.
    + intros q. simpl. by rewrite W1, W2, W3.
Qed.

Lemma prepend_string l l' :
  json.prepend l (string_of_list_ascii l') = string_of_list_ascii (l ++ l').
Proof. induction l as [|c l IH]; [reflexivity|]. simpl. by rewrite IH. Qed.

Lemma after_1 p : unicode_utf8.after 1 p = p.
Proof. by destruct p. Qed.

Lemma DecodeRune_ascii c p :
  (N_of_ascii c <? 128)%N = true ->
  unicode_utf8.DecodeRune c p = (N_of_ascii c, 1%nat)
  /\ json.utf8 (N_of_ascii c) = [c].
Proof.
  intros Hc. unfold unicode_utf8.DecodeRune, json.utf8. rewrite Hc.
  by rewrite ascii_N_embedding.
Qed.

(** A byte below 128, as [json.Marshal] writes it, is read back. *)
Lemma scanString_escapeByte short c tail str tl :
  (N_of_ascii c <? 128)%N = true ->
  json.scanString tail = Some (str, tl) ->
  json.scanString (json.escapeByte short c ++ tail)
  = Some (String.String c str, tl).
Proof.
  intros Hc Htail.
  destruct short; destruct c as [[] [] [] [] [] [] [] []];
    try discriminate Hc;
    cbn -[json.scanString]; simpl; rewrite Htail; reflexivity.
Qed.

Lemma high_byte c :
  (N_of_ascii c <? 128)%N = false ->
  Ascii.eqb c json.quote = false /\ Ascii.eqb c json.backslash = false
  /\ (N_of_ascii c <? 32)%N = false.
Proof.
  intros Hc. apply N.ltb_ge in Hc.
  split; [|split].
  - apply Ascii.eqb_neq. intros ->. vm_compute in Hc. by apply Hc.
  - apply Ascii.eqb_neq. intros ->. vm_compute in Hc. by apply Hc.
  - apply N.ltb_ge. lia.
Qed.

Lemma scanString_high c p :
  (N_of_ascii c <? 128)%N = false ->
  json.scanString (c :: p)
  = let '(rr, size) := unicode_utf8.DecodeRune c p in
    match json.scanString (unicode_utf8.after size p) with
    | Some (str, tl) => Some (json.prepend (json.utf8 rr) str, tl)
    | None => None
    end.
Proof.
  intros Hc. destruct (high_byte c Hc) as (E1 & E2 & E3).
  unfold json.scanString at 1; fold json.scanString.
  by rewrite E1, E2, E3, Hc.
Qed.

Lemma length_after size p :
  (length (unicode_utf8.after size p) <= length p)%nat.
Proof.
  destruct size as [|[|[|[|[|n]]]]]; simpl; try lia;
    destruct p as [|a [|b [|c p]]]; simpl; lia.
Qed.

(** A string, as [json.Marshal] writes it, is read back with every byte
    that is part of no encoding turned into U+FFFD. *)
Lemma scanString_appendString short rest : forall n s,
  (length s <= n)%nat ->
  json.scanString (json.appendString short s ++ json.quote :: rest)
  = Some (string_of_list_ascii (replaceInvalid s), rest).
Proof.
  induction n as [|n IH]; intros s Hn.
  { destruct s; [reflexivity | simpl in Hn; lia]. }
  destruct s as [|c s]; [reflexivity|]. simpl in Hn.
  destruct (N_of_ascii c <? 128)%N eqn:Hc.
  - destruct (DecodeRune_ascii c s Hc) as [Hdec Hutf].
    simpl. rewrite Hc, Hdec, Hutf, after_1, <- app_assoc.
    apply scanString_escapeByte; [done|]. apply IH. lia.
  - assert (Hc' : (128 <= N_of_ascii c)%N) by (by apply N.ltb_ge).
    destruct (DecodeRune_cases c s Hc')
      as [Hdec|(r & size & bs & Hdec & Hsize & Hs & Htake & Hutf & Hq)].
    + simpl. rewrite Hc, Hdec, after_1.
      change ((unicode_utf8.RuneError =? unicode_utf8.RuneError)%N
              && (1 =? 1)%nat) with true.
      cbn -[json.scanString json.appendString]. simpl json.scanString.
      rewrite IH by lia. reflexivity.
    + assert (Hlen : (length (unicode_utf8.after size s) <= n)%nat)
        by (pose proof (length_after size s); lia).
      simpl json.appendString. simpl replaceInvalid. rewrite Hc, Hdec.
      replace (size =? 1)%nat with false
        by (symmetry; apply Nat.eqb_neq; lia).
      rewrite andb_false_r.
      destruct ((r =? 8232)%N || (r =? 8233)%N) eqn:Hsep.
      * apply orb_true_iff in Hsep as [H|H]; apply N.eqb_eq in H; subst r;
          cbn -[json.scanString json.appendString replaceInvalid json.utf8];
          simpl json.scanString; rewrite IH by done;
          first [ by rewrite prepend_string | reflexivity ].
      * rewrite Htake, <- app_assoc, <- app_comm_cons.
        rewrite scanString_high by done.
        rewrite <- ?app_assoc.
        destruct (Hq (json.appendString short (unicode_utf8.after size s)
                      ++ json.quote :: rest)) as [-> ->].
        rewrite IH by done. by rewrite prepend_string.
Qed.

(** Valid UTF-8 is left as it is. *)
Lemma replaceInvalid_Valid : forall n s,
  (length s <= n)%nat -> unicode_utf8.Valid s = true -> replaceInvalid s = s.
Proof.
  induction n as [|n IH]; intros s Hn Hv.
  { destruct s; [reflexivity | simpl in Hn; lia]. }
  destruct s as [|c s]; [reflexivity|]. simpl in Hn, Hv. simpl.
  destruct (N_of_ascii c <? 128)%N eqn:Hc.
  - destruct (DecodeRune_ascii c s Hc) as [Hdec Hutf].
    rewrite Hdec, ?Hutf, ?after_1 in *. simpl.
    apply andb_true_iff in Hv as [_ Hv]. f_equal. apply IH; [lia | done].
  - assert (Hc' : (128 <= N_of_ascii c)%N) by (by apply N.ltb_ge).
    destruct (DecodeRune_cases c s Hc')
      as [Hdec|(r & size & bs & Hdec & Hsize & Hs & Htake & Hutf & Hq)];
      rewrite Hdec in *; [discriminate Hv|].
    apply andb_true_iff in Hv as [_ Hv].
    rewrite Hutf, IH; [|pose proof (length_after size s); lia | done].
    simpl. by rewrite <- Hs.
Qed.

Lemma coerceUTF8_Valid s : ValidString s = true -> coerceUTF8 s = s.
Proof.
  intros Hv. unfold coerceUTF8.
  rewrite (replaceInvalid_Valid _ _ (le_n _) Hv).
  apply string_of_list_ascii_of_string.
Qed.

(** ** Number literals *)

Lemma digits_spec s :
  s = (json.digits s).1 ++ (json.digits s).2
  /\ forallb json.isDigit (json.digits s).1 = true
  /\ match (json.digits s).2 with
     | [] => True
     | c :: _ => json.isDigit c = false
     end.
Proof.
  induction s as [|c s IH]; [done|]. simpl.
  destruct (json.isDigit c) eqn:Hc; [|done].
  destruct (json.digits s) as [d tl]. simpl in *.
  destruct IH as (-> & Hd & Htl). by rewrite Hc, Hd.
Qed.

Lemma digits_app d tl :
  forallb json.isDigit d = true ->
  match tl with [] => True | c :: _ => json.isDigit c = false end ->
  json.digits (d ++ tl) = (d, tl).
Proof.
  intros Hd Htl. induction d as [|c d IH]; simpl.
  - destruct tl as [|c tl]; [done|]. simpl. by rewrite Htl.
  - simpl in Hd. apply andb_true_iff in Hd as [Hc Hd].
    by rewrite Hc, (IH Hd).
Qed.

Lemma isDigit_not c :
  json.isDigit c = true ->
  Ascii.eqb c "-" = false /\ Ascii.eqb c "+" = false
  /\ Ascii.eqb c "." = false /\ Ascii.eqb c "e" = false
  /\ Ascii.eqb c "E" = false.
Proof.
  intros Hc. repeat split; apply Ascii.eqb_neq; intros ->; discriminate Hc.
Qed.

(** The shape of a literal that [isValidNumber] accepts. *)
Lemma validExponent_shape s :
  json.validExponent s = true ->
  s = []
  \/ exists e sg x xs,
       s = e :: sg ++ x :: xs
       /\ (e = "e" \/ e = "E")%char
       /\ (sg = [] \/ sg = ["+"%char] \/ sg = ["-"%char])
       /\ forallb json.isDigit (x :: xs) = true.
Proof.
  unfold json.validExponent. destruct s as [|c r1]; [by left|].
  destruct ((Ascii.eqb c "e" || Ascii.eqb c "E")
            && negb (length r1 =? 0)%nat) eqn:He; [|discriminate].
  apply andb_true_iff in He as [He Hr1].
  assert (Hc : (c = "e" \/ c = "E")%char).
  { apply orb_true_iff in He as [H|H]; apply Ascii.eqb_eq in H; auto. }
  destruct r1 as [|c1 r2]; [discriminate Hr1|]. clear Hr1.
  intros H. right.
  assert (Hdig : forall l, l <> [] ->
            match l with
            | [] => false
            | _ :: _ =>
                match json.skipDigits l with [] => true | _ :: _ => false end
            end = true ->
            exists x xs, l = x :: xs /\ forallb json.isDigit (x :: xs) = true).
  { intros l Hl Hv. destruct l as [|x xs]; [done|].
    unfold json.skipDigits in Hv.
    destruct (digits_spec (x :: xs)) as (Heq & Hall & _).
    destruct (json.digits (x :: xs)) as [d tl]. simpl in *.
    destruct tl; [|discriminate]. rewrite app_nil_r in Heq. subst d.
    by exists x, xs. }
  destruct (Ascii.eqb c1 "+" || Ascii.eqb c1 "-") eqn:Hsg.
  - destruct r2 as [|x xs]; [discriminate|].
    destruct (Hdig (x :: xs)) as (x' & xs' & [= <- <-] & Hall); [done..|].
    apply orb_true_iff in Hsg as [Hs|Hs]; apply Ascii.eqb_eq in Hs; subst c1.
    + exists c, ["+"%char], x, xs. repeat split; auto.
    + exists c, ["-"%char], x, xs. repeat split; auto.
  - destruct (Hdig (c1 :: r2)) as (x' & xs' & [= <- <-] & Hall); [done..|].
    exists c, [], c1, r2. repeat split; auto.
Qed.

Lemma validFraction_shape s :
  json.validFraction s = true ->
  exists frac exp,
    s = frac ++ exp
    /\ (frac = []
        \/ exists f fs,
             frac = "."%char :: f :: fs
             /\ forallb json.isDigit (f :: fs) = true)
    /\ json.validExponent exp = true
    /\ match exp with [] => True | c :: _ => json.isDigit c = false end.
Proof.
  unfold json.validFraction. intros H.
  assert (Hhead : forall l, json.validExponent l = true ->
            match l with [] => True | c :: _ => json.isDigit c = false end).
  { intros l Hl. destruct (validExponent_shape l Hl)
      as [->|(e & sg & x & xs & -> & [->| ->] & _)]; done. }
  destruct s as [|c [|f r1]];
    [exists [], []; by auto
    |exists [], [c]; split; [done|]; split; [by left|]; split; [done|];
     by apply (Hhead [c])|].
  destruct (Ascii.eqb c "." && json.isDigit f) eqn:Hp.
  - apply andb_true_iff in Hp as [Hc Hf]. apply Ascii.eqb_eq in Hc. subst c.
    unfold json.skipDigits in H.
    destruct (digits_spec r1) as (Heq & Hall & _).
    destruct (json.digits r1) as [d tl]. simpl in *.
    exists ("."%char :: f :: d), tl. subst r1.
    split; [done|]. split; [|split; [done | by apply Hhead]].
    right. exists f, d. split; [done|]. simpl. by rewrite Hf, Hall.
  - exists [], (c :: f :: r1). split; [done|]. split; [by left|].
    split; [done | by apply (Hhead (c :: f :: r1))].
Qed.

Lemma isValidNumber_shape lit :
  json.isValidNumber lit = true ->
  exists sign d ds frac exp,
    lit = sign ++ (d :: ds) ++ frac ++ exp
    /\ (sign = [] \/ sign = ["-"%char])
    /\ json.isDigit d = true
    /\ forallb json.isDigit ds = true
    /\ (d = "0"%char -> ds = [])
    /\ (frac = []
        \/ exists f fs,
             frac = "."%char :: f :: fs
             /\ forallb json.isDigit (f :: fs) = true)
    /\ json.validExponent exp = true.
Proof.
  assert (Hu : forall s, json.validUnsigned s = true ->
            exists d ds frac exp,
              s = (d :: ds) ++ frac ++ exp
              /\ json.isDigit d = true
              /\ forallb json.isDigit ds = true
              /\ (d = "0"%char -> ds = [])
              /\ (frac = []
                  \/ exists f fs,
                       frac = "."%char :: f :: fs
                       /\ forallb json.isDigit (f :: fs) = true)
              /\ json.validExponent exp = true).
  { intros s. unfold json.validUnsigned. destruct s as [|d r]; [done|].
    destruct (json.isDigit d) eqn:Hd; [|done].
    destruct (Ascii.eqb d "0") eqn:H0.
    - intros H. apply validFraction_shape in H
        as (frac & exp & -> & Hfrac & Hexp & _).
      exists d, [], frac, exp. by repeat split.
    - unfold json.skipDigits.
      destruct (digits_spec r) as (Heq & Hall & _).
      destruct (json.digits r) as [ds tl]. simpl in *.
      intros H. apply validFraction_shape in H
        as (frac & exp & -> & Hfrac & Hexp & _).
      exists d, ds, frac, exp. subst r.
      repeat split; try done.
      intros ->. discriminate H0. }
  unfold json.isValidNumber. destruct lit as [|c r]; [done|].
  destruct (Ascii.eqb c "-") eqn:Hm; intros H;
    apply Hu in H as (d & ds & frac & exp & Heq & H).
  - apply Ascii.eqb_eq in Hm. subst c r.
    exists ["-"%char], d, ds, frac, exp. split; [done|]. split; [by right|].
    exact H.
  - exists [], d, ds, frac, exp. split; [done|]. split; [by left|]. exact H.
Qed.

(** A literal that [isValidNumber] accepts is read back, up to what
    follows it when that is no part of a number. *)
Lemma scanNumber_literal lit rest :
  json.isValidNumber lit = true ->
  match rest with
  | [] => True
  | c :: _ =>
      json.isDigit c = false /\ Ascii.eqb c "." = false
      /\ Ascii.eqb c "e" = false /\ Ascii.eqb c "E" = false
  end ->
  json.scanNumber (lit ++ rest) = Some (lit, rest).
Proof.
  intros Hlit Hrest.
  apply isValidNumber_shape in Hlit
    as (sign & d & ds & frac & exp & -> & Hsign & Hd & Hds & H0 & Hfrac & Hexp).
  apply validExponent_shape in Hexp.
  destruct (isDigit_not d Hd) as (Hd1 & Hd2 & Hd3 & Hd4 & Hd5).
  (* what follows the exponent, the fraction, the digits *)
  assert (Hrest' : match rest with
                   | [] => True | c :: _ => json.isDigit c = false end)
    by (destruct rest; [done | by destruct Hrest]).
  assert (Hexp' : match exp ++ rest with
                  | [] => True
                  | c :: _ => json.isDigit c = false /\ Ascii.eqb c "." = false
                  end).
  { destruct Hexp as [->|(e & sg & x & xs & -> & [->| ->] & _)]; simpl;
      [destruct rest; [done | by destruct Hrest as (? & ? & _)] | done..]. }
  assert (Hfrac' : match frac ++ exp ++ rest with
                   | [] => True | c :: _ => json.isDigit c = false end).
  { destruct Hfrac as [->|(f & fs & -> & _)]; simpl; [|done].
    destruct (exp ++ rest); [done | by destruct Hexp']. }
  unfold json.scanNumber.
  (* the sign *)
  assert (Hsigned :
    match sign ++ (d :: ds) ++ frac ++ exp ++ rest with
    | c :: r => if Ascii.eqb c "-" then ([c], r)
                else ([], sign ++ (d :: ds) ++ frac ++ exp ++ rest)
    | [] => ([], sign ++ (d :: ds) ++ frac ++ exp ++ rest)
    end = (sign, (d :: ds) ++ frac ++ exp ++ rest)).
  { destruct Hsign as [->| ->]; simpl; [by rewrite Hd1 | done]. }
  rewrite <- !app_assoc, Hsigned.
  (* the digits *)
  rewrite (digits_app (d :: ds) (frac ++ exp ++ rest));
    [|by simpl; rewrite Hd, Hds | done].
  assert (Hzero : Ascii.eqb d "0" && negb (length ds =? 0)%nat = false).
  { destruct (Ascii.eqb d "0") eqn:Hz; [|done].
    apply Ascii.eqb_eq in Hz. by rewrite (H0 Hz). }
  rewrite Hzero.
  (* the fraction *)
  assert (Hf :
    match frac ++ exp ++ rest with
    | c :: r =>
        if Ascii.eqb c "." then
          match json.digits r with
          | ([], _) => None
          | (f, s3) => Some (c :: f, s3)
          end
        else Some ([], frac ++ exp ++ rest)
    | [] => Some ([], frac ++ exp ++ rest)
    end = Some (frac, exp ++ rest)).
  { destruct Hfrac as [->|(f & fs & -> & Hall)]; cbn -[json.digits].
    - destruct (exp ++ rest) as [|c r]; [done|]. by destruct Hexp' as [_ ->].
    - change (f :: fs ++ exp ++ rest) with ((f :: fs) ++ exp ++ rest).
      rewrite (digits_app (f :: fs) (exp ++ rest));
        [done | done | destruct (exp ++ rest); [done | by destruct Hexp']]. }
  rewrite Hf.
  (* the exponent *)
  destruct Hexp as [->|(e & sg & x & xs & -> & He & Hsg & Hall)].
  - simpl. rewrite !app_nil_r.
    destruct rest as [|c r]; [done|].
    destruct Hrest as (_ & _ & -> & ->). done.
  - assert (Hx : json.isDigit x = true)
      by (simpl in Hall; by apply andb_true_iff in Hall as [? _]).
    destruct (isDigit_not x Hx) as (Hx1 & Hx2 & _).
    assert (HeE : Ascii.eqb e "e" || Ascii.eqb e "E" = true)
      by (destruct He as [->| ->]; done).
    cbn -[json.digits]. rewrite HeE.
    assert (Hsgd :
      match sg ++ x :: xs ++ rest with
      | c1 :: r1 =>
          if Ascii.eqb c1 "+" || Ascii.eqb c1 "-"
          then ([c1], r1) else ([], sg ++ x :: xs ++ rest)
      | [] => ([], sg ++ x :: xs ++ rest)
      end = (sg, (x :: xs) ++ rest)).
    { destruct Hsg as [->|[->| ->]]; simpl; [by rewrite Hx1, Hx2 | done..]. }
    rewrite <- app_assoc. cbn -[json.digits]. rewrite Hsgd.
    rewrite (digits_app (x :: xs) rest) by done.
    simpl. rewrite <- !app_assoc. simpl. by rewrite <- !app_assoc.
Qed.

(** ** What [json.Marshal] writes is read back *)

Lemma value_nested_ind (P : json.value -> Prop) :
  P json.Null -> (forall b, P (json.Bool b)) -> (forall lit, P (json.Number lit)) ->
  (forall s, P (json.String s)) ->
  (forall elements, Forall P elements -> P (json.Array elements)) ->
  (forall members, Forall (fun kv => P kv.2) members ->
                   P (json.Object members)) ->
  forall v, P v.
Proof.
  intros Hnull Hbool Hnum Hstr Harr Hobj. fix IH 1.
  intros [|b|lit|s|elements|members];
    [apply Hnull | apply Hbool | apply Hnum | apply Hstr | |].
  - apply Harr. induction elements as [|v vs IHvs]; constructor;
      [apply IH | exact IHvs].
  - apply Hobj. induction members as [|[k v] ms IHms]; constructor;
      [apply IH | exact IHms].
Qed.

Lemma closes_stop rest :
  closes rest ->
  match rest with
  | [] => True
  | c :: _ =>
      json.isDigit c = false /\ Ascii.eqb c "." = false
      /\ Ascii.eqb c "e" = false /\ Ascii.eqb c "E" = false
  end.
Proof. destruct rest as [|c r]; [done|]. by intros [->|[->| ->]]. Qed.

Lemma scanValue_string fuel s :
  json.scanValue (S fuel) (json.quote :: s)
  = match json.scanString s with
    | Some (str, tl) => Some (json.String str, tl)
    | None => None
    end.
Proof. reflexivity. Qed.

Lemma scanValue_encodeString short fuel s rest :
  json.scanValue (S fuel) (json.encodeString short s ++ rest)
  = Some (json.String (coerceUTF8 s), rest).
Proof.
  unfold json.encodeString. rewrite <- app_comm_cons, <- app_assoc.
  rewrite scanValue_string. simpl app.
  by rewrite (scanString_appendString short rest _ _ (le_n _)).
Qed.

Lemma scanValue_number fuel lit rest :
  json.isValidNumber lit = true -> closes rest ->
  json.scanValue (S fuel) (lit ++ rest)
  = Some (json.Number (string_of_list_ascii lit), rest).
Proof.
  intros Hlit Hrest.
  pose proof (scanNumber_literal lit rest Hlit (closes_stop rest Hrest)) as Hscan.
  destruct (isValidNumber_shape lit Hlit)
    as (sign & d & ds & frac & exp & -> & Hsign & Hd & _).
  assert (Hhead : exists c tl,
            (sign ++ (d :: ds) ++ frac ++ exp) ++ rest = c :: tl
            /\ (c = "-"%char \/ json.isDigit c = true)).
  { destruct Hsign as [->| ->]; simpl; eauto. }
  destruct Hhead as (c & tl & Heq & Hc). rewrite Heq in *.
  assert (Hc' : json.isSpace c = false /\ Ascii.eqb c json.quote = false
                /\ Ascii.eqb c "{" = false /\ Ascii.eqb c "[" = false
                /\ Ascii.eqb c "n" = false /\ Ascii.eqb c "t" = false
                /\ Ascii.eqb c "f" = false).
  { destruct Hc as [->|Hc]; [done|].
    repeat split; try (apply Ascii.eqb_neq; intros ->; discriminate Hc).
    destruct (json.isSpace c) eqn:Hs; [|done].
    unfold json.isSpace in Hs. unfold json.isDigit in Hc.
    repeat (apply orb_true_iff in Hs as [Hs|Hs]);
      apply N.eqb_eq in Hs; rewrite Hs in Hc; discriminate Hc. }
  destruct Hc' as (H1 & H2 & H3 & H4 & H5 & H6 & H7).
  cbn -[json.scanNumber]. rewrite H1, H2, H3, H4, H5, H6, H7.
  by rewrite Hscan.
Qed.

Lemma scanElements_S fuel s :
  json.scanElements (S fuel) s
  = match json.scanValue fuel s with
    | None => None
    | Some (v, rest) =>
        match json.skipSpace rest with
        | c :: rest1 =>
            if Ascii.eqb c "," then
              match json.scanElements fuel rest1 with
              | Some (vs, tl) => Some (v :: vs, tl)
              | None => None
              end
            else if Ascii.eqb c "]" then Some ([v], rest1)
            else None
        | [] => None
        end
    end.
Proof. reflexivity. Qed.

Lemma scanMembers_S fuel s :
  json.scanMembers (S fuel) (json.quote :: s)
  = match json.scanString s with
    | None => None
    | Some (k, rest1) =>
        match json.skipSpace rest1 with
        | c1 :: rest2 =>
            if Ascii.eqb c1 ":" then
              match json.scanValue fuel rest2 with
              | None => None
              | Some (v, rest3) =>
                  match json.skipSpace rest3 with
                  | c2 :: rest4 =>
                      if Ascii.eqb c2 "," then
                        match json.scanMembers fuel rest4 with
                        | Some (ms, tl) => Some ((k, v) :: ms, tl)
                        | None => None
                        end
                      else if Ascii.eqb c2 "}" then Some ([(k, v)], rest4)
                      else None
                  | [] => None
                  end
              end
            else None
        | [] => None
        end
    end.
Proof. reflexivity. Qed.

Lemma scanValue_array fuel c s :
  json.isSpace c = false -> Ascii.eqb c "]" = false ->
  json.scanValue (S fuel) ("["%char :: c :: s)
  = match json.scanElements fuel (c :: s) with
    | Some (vs, tl) => Some (json.Array vs, tl)
    | None => None
    end.
Proof.
  intros H1 H2.
  change (json.scanValue (S fuel) ("["%char :: c :: s))
    with (match json.skipSpace (c :: s) with
          | c1 :: rest1 =>
              if Ascii.eqb c1 "]" then Some (json.Array [], rest1)
              else
                match json.scanElements fuel (c :: s) with
                | Some (vs, tl) => Some (json.Array vs, tl)
                | None => None
                end
          | [] => None
          end).
  unfold json.skipSpace; fold json.skipSpace. by rewrite H1, H2.
Qed.

Lemma scanValue_object fuel s :
  json.scanValue (S fuel) ("{"%char :: json.quote :: s)
  = match json.scanMembers fuel (json.quote :: s) with
    | Some (ms, tl) => Some (json.Object ms, tl)
    | None => None
    end.
Proof. reflexivity. Qed.

Section ReadBack.

Variable short : bool.

#[local] Abbreviation enc := (json.encodeValue short).

#[local] Abbreviation readable := (readableValue short).

Lemma encodeValue_head v :
  json.wellFormed v = true ->
  exists c tl, enc v = c :: tl
               /\ json.isSpace c = false /\ Ascii.eqb c "]" = false.
Proof.
  destruct v as [|[]|lit|s|vs|ms]; simpl; intros Hwf;
    try (unfold json.encodeString; by eauto).
  destruct (isValidNumber_shape _ Hwf)
    as (sign & d & ds & frac & exp & -> & Hsign & Hd & _).
  assert (Hdd : json.isSpace d = false /\ Ascii.eqb d "]" = false).
  { split; [|apply Ascii.eqb_neq; intros ->; discriminate Hd].
    destruct (json.isSpace d) eqn:Hs; [|done].
    unfold json.isSpace in Hs. unfold json.isDigit in Hd.
    repeat (apply orb_true_iff in Hs as [Hs|Hs]);
      apply N.eqb_eq in Hs; rewrite Hs in Hd; discriminate Hd. }
  destruct Hsign as [->| ->]; simpl; eauto.
Qed.

Lemma encodeElements_cons v vs :
  json.encodeElements enc (v :: vs)
  = enc v ++ match vs with
             | [] => ["]"%char]
             | _ :: _ => ","%char :: json.encodeElements enc vs
             end.
Proof. reflexivity. Qed.

Lemma encodeMembers_cons k v ms :
  json.encodeMembers short enc ((k, v) :: ms)
  = json.encodeString short k
    ++ ":"%char :: enc v
    ++ match ms with
       | [] => ["}"%char]
       | _ :: _ => ","%char :: json.encodeMembers short enc ms
       end.
Proof. reflexivity. Qed.

Lemma scanElements_encodeElements vs :
  Forall (fun v => readable v) vs -> vs <> [] ->
  forallb json.wellFormed vs = true ->
  forall fuel rest,
    (length (json.encodeElements enc vs) < fuel)%nat ->
    json.scanElements fuel (json.encodeElements enc vs ++ rest)
    = Some (map readBack vs, rest).
Proof.
  induction vs as [|v vs IH]; intros Hall Hne Hwf fuel rest Hfuel; [done|].
  apply Forall_cons in Hall as [Hv Hall].
  simpl in Hwf. apply andb_true_iff in Hwf as [Hwv Hwf].
  rewrite encodeElements_cons in *. rewrite length_app in Hfuel.
  destruct fuel as [|fuel]; [lia|].
  rewrite scanElements_S, <- app_assoc.
  destruct vs as [|v' vs].
  - rewrite Hv; [reflexivity | done | by right; left | simpl in Hfuel; lia].
  - rewrite Hv; [|done | by left | simpl in Hfuel; lia].
    cbn -[json.scanElements json.encodeElements].
    change (json.isSpace ","%char) with false.
    cbn -[json.scanElements json.encodeElements].
    rewrite IH; [reflexivity | done | done | done |].
    simpl in Hfuel. simpl. lia.
Qed.

Lemma scanMembers_encodeMembers ms :
  Forall (fun kv => readable kv.2) ms -> ms <> [] ->
  forallb (fun kv => json.wellFormed kv.2) ms = true ->
  forall fuel rest,
    (length (json.encodeMembers short enc ms) < fuel)%nat ->
    json.scanMembers fuel (json.encodeMembers short enc ms ++ rest)
    = Some (map (fun kv => (coerceUTF8 kv.1, readBack kv.2)) ms, rest).
Proof.
  induction ms as [|[k v] ms IH]; intros Hall Hne Hwf fuel rest Hfuel; [done|].
  apply Forall_cons in Hall as [Hv Hall]. simpl in Hv.
  simpl in Hwf. apply andb_true_iff in Hwf as [Hwv Hwf].
  rewrite encodeMembers_cons in *.
  rewrite length_app, length_cons, length_app in Hfuel.
  destruct fuel as [|fuel]; [lia|].
  set (sep := match ms with
              | [] => ["}"%char]
              | _ :: _ => ","%char :: json.encodeMembers short enc ms
              end) in *.
  assert (Htext :
    (json.encodeString short k ++ ":"%char :: enc v ++ sep) ++ rest
    = json.quote
      :: json.appendString short (list_ascii_of_string k)
         ++ json.quote :: ":"%char :: enc v ++ sep ++ rest).
  { unfold json.encodeString. simpl. rewrite <- !app_assoc. simpl.
    by rewrite <- !app_assoc. }
  rewrite Htext, scanMembers_S.
  rewrite (scanString_appendString short _ _ _ (le_n _)).
  change (json.skipSpace (":"%char :: enc v ++ sep ++ rest))
    with (":"%char :: enc v ++ sep ++ rest).
  change (Ascii.eqb ":" ":") with true. cbv iota.
  subst sep. destruct ms as [|m ms].
  - rewrite Hv; [reflexivity | done | by right; right | lia].
  - rewrite Hv; [|done | by left | lia].
    change (json.skipSpace
              ((","%char :: json.encodeMembers short enc (m :: ms)) ++ rest))
      with (","%char :: json.encodeMembers short enc (m :: ms) ++ rest).
    change (Ascii.eqb "," ",") with true. cbv iota.
    rewrite IH; [reflexivity | done | done | done |].
    rewrite length_cons in Hfuel. lia.
Qed.

(** What [json.Marshal] writes for a value is read back as the value, with
    its strings made valid UTF-8. *)
Lemma scanValue_encodeValue v : readable v.
Proof.
  induction v as [|b|lit|s|vs IH|ms IH] using value_nested_ind;
    intros fuel rest Hwf Hrest Hfuel;
    (destruct fuel as [|fuel]; [lia|]);
    cbn [json.encodeValue json.wellFormed readBack] in *.
  - reflexivity.
  - by destruct b.
  - rewrite scanValue_number by done.
    by rewrite string_of_list_ascii_of_string.
  - apply scanValue_encodeString.
  - destruct vs as [|v vs]; [reflexivity|].
    pose proof IH as IH'. apply Forall_cons in IH' as [IHv _].
    pose proof Hwf as Hwf'. cbn [forallb] in Hwf'.
    apply andb_true_iff in Hwf' as [Hv _].
    destruct (encodeValue_head v Hv) as (c & tl & Hc & Hs & Hb).
    rewrite length_cons in Hfuel.
    assert (Hscan := scanElements_encodeElements (v :: vs) IH ltac:(done)
                       Hwf fuel rest ltac:(lia)).
    rewrite encodeElements_cons in *. rewrite Hc in *.
    rewrite <- !app_comm_cons in *.
    rewrite scanValue_array by done. by rewrite Hscan.
  - destruct ms as [|[k v] ms]; [reflexivity|].
    rewrite length_cons in Hfuel.
    assert (Hscan := scanMembers_encodeMembers ((k, v) :: ms) IH ltac:(done)
                       Hwf fuel rest ltac:(lia)).
    rewrite encodeMembers_cons in *. unfold json.encodeString in *.
    rewrite <- !app_comm_cons in *.
    rewrite scanValue_object. by rewrite Hscan.
Qed.

End ReadBack.

(** ** The structured-output parser *)

(** Once an error is saved, it is the one reported. *)
Lemma storeMembers_saved members : forall m e,
  (json.storeMembers members m (Some e)).2 = Some e.
Proof.
  induction members as [|[k v] members IH]; intros m e; [reflexivity|].
  destruct v; simpl; apply IH.
Qed.

(** A member that is neither a string nor [null] makes the store fail. *)
Lemma storeMembers_other members : forall m saved,
  match saved with Some (OtherError _) | None => True | Some _ => False end ->
  Exists (fun kv => isOther kv.2 = true) members ->
  exists msg, (json.storeMembers members m saved).2 = Some (OtherError msg).
Proof.
  induction members as [|[k v] members IH]; intros m saved Hsaved Hex.
  - inversion Hex.
  - apply Exists_cons in Hex as [Hv|Hex].
    + destruct v; try discriminate; simpl;
        (destruct saved as [[]|]; try done;
         rewrite storeMembers_saved; eauto).
    + destruct v; simpl; try (by apply IH);
        (apply IH; [|done]; by destruct saved as [[]|]).
Qed.

Lemma missingKeysLoop_present schemas parsed : forall missingKeys,
  Forall (fun rs => is_Some (parsed !! outputparser.Name rs)) schemas ->
  outputparser.missingKeysLoop schemas parsed missingKeys = missingKeys.
Proof.
  induction schemas as [|rs schemas IH]; intros missingKeys Hall;
    [reflexivity|].
  apply Forall_cons in Hall as [[s Hs] Hall]. simpl. rewrite Hs. by apply IH.
Qed.

(** Members that are strings or [null], under distinct keys, are all
    stored. *)
Lemma storeMembers_plain members : forall m,
  NoDup members.*1 ->
  Forall (fun kv => isOther kv.2 = false) members ->
  json.storeMembers members m None = (plainEntries members ∪ m, None).
Proof.
  induction members as [|[k v] members IH]; intros m Hnd Hall.
  - unfold plainEntries. simpl. by rewrite (left_id_L ∅ (∪)).
  - apply NoDup_cons in Hnd as [Hk Hnd].
    apply Forall_cons in Hall as [Hv Hall].
    assert (Hnone : plainEntries members !! k = None).
    { unfold plainEntries. apply not_elem_of_list_to_map_1.
      by rewrite <- list_fmap_compose. }
    assert (Heq : forall s,
      plainEntries members ∪ <[k:=s]> m
      = <[k:=s]> (plainEntries members) ∪ m).
    { intros s. apply map_eq. intros i. rewrite !lookup_union.
      destruct (decide (i = k)) as [->|Hne].
      - rewrite !lookup_insert_eq, Hnone. by destruct (m !! k).
      - by rewrite !lookup_insert_ne. }
    destruct v as [| | |s| |]; try discriminate; simpl;
      rewrite (IH _ Hnd Hall); f_equal; apply Heq.
Qed.

(** The members of a mapping, in the order [json.Marshal] writes them. *)
Lemma sortedMembers_Permutation (M : gmap string json.value) :
  json.sortedMembers M ≡ₚ map_to_list M.
Proof. apply merge_sort_Permutation. Qed.

Lemma sortedMembers_NoDup (M : gmap string json.value) :
  NoDup (json.sortedMembers M).*1.
Proof.
  rewrite (sortedMembers_Permutation M). apply NoDup_fst_map_to_list.
Qed.

Lemma sortedMembers_wellFormed (M : gmap string json.value) :
  map_Forall (fun _ v => json.wellFormed v = true) M ->
  forallb (fun kv => json.wellFormed kv.2) (json.sortedMembers M) = true.
Proof.
  intros HM.
  assert (Hall : Forall (fun kv => json.wellFormed kv.2 = true)
                   (json.sortedMembers M)).
  { apply Forall_forall. intros [k v] Hin.
    rewrite (sortedMembers_Permutation M) in Hin.
    apply elem_of_map_to_list in Hin. by apply (HM k). }
  induction Hall as [|kv l Hkv _ IH]; [done|]. simpl. by rewrite Hkv, IH.
Qed.

(** The text that [json.Marshal] writes for a mapping decodes to the object
    of its entries in the order of the keys, read back. *)
Lemma decode_Marshal short (M : gmap string json.value) :
  map_Forall (fun _ v => json.wellFormed v = true) M ->
  json.decode (json.Marshal short M)
  = inr (readBack (json.Object (json.sortedMembers M))).
Proof.
  intros HM. unfold json.decode, json.Marshal.
  rewrite list_ascii_of_string_of_list_ascii.
  pose proof (scanValue_encodeValue short (json.Object (json.sortedMembers M)))
    as Hread.
  unfold readableValue in Hread.
  change ("{"%char :: json.encodeMembers short (json.encodeValue short)
                        (json.sortedMembers M))
    with (json.encodeValue short (json.Object (json.sortedMembers M))).
  rewrite <- (app_nil_r (json.encodeValue short _)) at 2.
  rewrite Hread; [done | | done | lia].
  by apply sortedMembers_wellFormed.
Qed.

(** [Parse] on the text of a mapping of strings whose keys are valid
    UTF-8. *)
Lemma Parse_Marshal_strings short p (M : gmap string string) :
  Forall (fun rs => outputparser.Name rs ∈ dom M)
    (outputparser.ResponseJSONSchemas p) ->
  (forall k, k ∈ dom M -> ValidString k = true) ->
  outputparser.Parse p (json.Marshal short (json.String <$> M))
  = Ok (coerceUTF8 <$> M).
Proof.
  intros Hnames Hkeys.
  set (l := json.sortedMembers (json.String <$> M)).
  set (h := fun kv : string * json.value =>
              (coerceUTF8 kv.1, textOf (readBack kv.2))).
  assert (Hl : l ≡ₚ prod_map id json.String <$> map_to_list M).
  { subst l. rewrite sortedMembers_Permutation. by rewrite map_to_list_fmap. }
  assert (Hh : h <$> (prod_map id json.String <$> map_to_list M)
               = prod_map id coerceUTF8 <$> map_to_list M).
  { rewrite <- list_fmap_compose. apply list_fmap_ext.
    intros i [k s] Hin. unfold h. simpl.
    apply list_elem_of_lookup_2, elem_of_map_to_list in Hin.
    rewrite coerceUTF8_Valid; [done|].
    apply Hkeys, elem_of_dom. eauto. }
  assert (Hperm : h <$> l ≡ₚ prod_map id coerceUTF8 <$> map_to_list M)
    by (by rewrite Hl, Hh).
  assert (Hnd : NoDup (h <$> l).*1).
  { rewrite Hperm, <- list_fmap_compose.
    rewrite (list_fmap_ext _ fst (map_to_list M))
      by (by intros ? [? ?] ?).
    apply NoDup_fst_map_to_list. }
  assert (Hmap : (list_to_map (h <$> l) : gmap string string)
                 = coerceUTF8 <$> M).
  { rewrite (list_to_map_proper _ _ Hnd Hperm), list_to_map_fmap.
    by rewrite list_to_map_to_list. }
  unfold outputparser.Parse, outputparser.parse, json.Unmarshal.
  rewrite decode_Marshal by (by apply map_Forall_fmap, map_Forall_lookup).
  fold l. cbn [readBack json.storeMap].
  rewrite storeMembers_plain.
  - replace (plainEntries _) with (coerceUTF8 <$> M)
      by (unfold plainEntries; rewrite map_map; symmetry; exact Hmap).
    rewrite (right_id_L ∅ (∪)).
    rewrite missingKeysLoop_present; [done|].
    eapply Forall_impl; [exact Hnames|]. intros rs Hin. simpl in Hin.
    apply elem_of_dom in Hin as [s Hs]. rewrite lookup_fmap, Hs. by eexists.
  - change (map ?f ?x).*1 with (f <$> x).*1.
    rewrite <- list_fmap_compose.
    rewrite <- list_fmap_compose in Hnd. exact Hnd.
  - apply Forall_fmap, Forall_forall. intros [k v] Hin. simpl.
    rewrite Hl in Hin. apply list_elem_of_fmap in Hin as [[k' s] [[= -> ->] _]].
    done.
Qed.

Lemma isOther_readBack v : isOther (readBack v) = isOther v.
Proof. by destruct v. Qed.

(** [Parse] on the text of a mapping with a value that is neither a string
    nor [null]. *)
Lemma Parse_Marshal_other short p (M : gmap string json.value) :
  map_Forall (fun _ v => json.wellFormed v = true) M ->
  (exists k v, M !! k = Some v /\ isOther v = true) ->
  exists msg,
    outputparser.Parse p (json.Marshal short M) = Err (OtherError msg).
Proof.
  intros Hwf (k & v & Hkv & Hv).
  unfold outputparser.Parse, outputparser.parse, json.Unmarshal.
  rewrite decode_Marshal by done. cbn [readBack json.storeMap].
  destruct (storeMembers_other
              (map (fun kv => (coerceUTF8 kv.1, readBack kv.2))
                 (json.sortedMembers M)) ∅ None I) as [msg Hmsg].
  - apply Exists_exists. exists (coerceUTF8 k, readBack v). split.
    + apply (list_elem_of_fmap_2
               (fun kv : string * json.value =>
                  (coerceUTF8 kv.1, readBack kv.2)) _ (k, v)).
      rewrite sortedMembers_Permutation. by apply elem_of_map_to_list.
    + simpl. by rewrite isOther_readBack.
  - destruct (json.storeMembers _ ∅ None) as [m saved].
    simpl in Hmsg. subst saved. eauto.
Qed.




(** A value with the byte FF, which is no UTF-8, comes back with U+FFFD,
    the bytes EF BF BD, in its place. *)
Lemma Parse_replaces_invalid_bytes :
  outputparser.Parse promptSchema
    (json.Marshal true
       (json.String <$> (<[ "prompt" := String "255"%char "" ]>
                           (<[ "negativePrompt" := "a dog" ]> ∅))))
  = Ok (<[ "prompt" := String "239"%char (String "191"%char
                                           (String "189"%char "")) ]>
          (<[ "negativePrompt" := "a dog" ]> ∅)).
Proof. vm_compute. reflexivity. Qed.

(** * Further properties *)

(** ** What [Generate] issues and logs *)

Lemma received_inr {R : Type} (pre : list R) :
  received (map inr pre : openai.Stream R) = pre.
Proof. induction pre as [|r pre IH]; [reflexivity|]. simpl. by rewrite IH. Qed.

(** The world after a request of the completion client that succeeds: one
    call more, the log as it was, and one stream more closed on the stream
    path. *)
Lemma LLM_dispatch_Ok_world o opts request w w' gen :
  LLM.dispatch o opts request w = (w', Ok gen) ->
  issued w' = issued w ++ [completionCall (openai.cq_Stream request) request]
  /\ logged w' = logged w
  /\ closed w' = (closed w + if openai.cq_Stream request then 1 else 0)%nat.
Proof.
  unfold LLM.dispatch, completionCall.
  destruct (openai.cq_Stream request).
  - unfold LLM.createCompletionStream. intros H.
    apply mbind_inv_Ok in H as (w1 & stream & Hissue & H).
    apply deferClose_inv_Ok in H as (w3 & H & ->).
    apply mbind_inv_Ok in H as (w2 & [output fr] & Hloop & H).
    inversion H; subst; clear H. unfold issue in Hissue.
    destruct (openai.CreateCompletionStream _ _ _) as [e|s];
      inversion Hissue; subst; clear Hissue.
    pose proof (LLM_recvLoop_closed opts stream "" ""
                  (mkWorld (issued w ++ [openai.CallCompletionStream request])
                     (delivered w) (logged w) (closed w))) as Hc.
    rewrite Hloop in Hc.
    apply LLM_recvLoop_Ok in Hloop as (_ & _ & Hi & Hl & _).
    simpl in *. rewrite Hi, Hl, Hc. repeat split. lia.
  - unfold LLM.createCompletion. intros H.
    apply mbind_inv_Ok in H as (w1 & resp & Hissue & H).
    unfold issue in Hissue.
    destruct (openai.CreateCompletion _ _ _) as [e|r];
      inversion Hissue; subst; clear Hissue.
    destruct (openai.cr_Choices resp); inversion H; subst. simpl.
    repeat split. lia.
Qed.

Lemma LLM_generateLoop_trace o opts request prompts :
  forall generations w w' gens,
  LLM.generateLoop o opts request prompts generations w = (w', Ok gens) ->
  exists new,
    gens = generations ++ new
    /\ length new = length prompts
    /\ issued w' =
         issued w
         ++ map (fun q => completionCall (openai.cq_Stream request)
                            (LLM.withPrompt request q)) prompts
    /\ logged w' = logged w ++ exchanges prompts new
    /\ closed w' =
         (closed w
          + if openai.cq_Stream request then length prompts else 0)%nat.
Proof.
  induction prompts as [|q prompts IH]; intros generations w w' gens H.
  - inversion H; subst. exists []. rewrite !app_nil_r.
    repeat split; try done. destruct (openai.cq_Stream request); simpl; lia.
  - destruct (LLM.dispatch o opts (LLM.withPrompt request q)
                (logging (LLMRequest q) w)) as [w2 [g|e|why]] eqn:Hd.
    + rewrite (LLM_generateLoop_Ok _ _ _ _ _ _ _ _ _ Hd) in H.
      apply IH in H as (new & -> & Hlen & Hi & Hl & Hc).
      apply LLM_dispatch_Ok_world in Hd as (Hi2 & Hl2 & Hc2).
      simpl in *. exists (g :: new). rewrite <- app_assoc.
      split; [done|]. split; [simpl; by rewrite Hlen|].
      split; [by rewrite Hi, Hi2, <- app_assoc|].
      split.
      * rewrite Hl, Hl2. unfold exchanges. simpl.
        by rewrite <- !app_assoc.
      * rewrite Hc, Hc2. destruct (openai.cq_Stream request); lia.
    + rewrite (LLM_generateLoop_Err _ _ _ _ _ _ _ _ _ Hd) in H. discriminate.
    + rewrite (LLM_generateLoop_Panic _ _ _ _ _ _ _ _ _ Hd) in H.
      discriminate.
Qed.

(** X1.  A call of [Generate] of the completion client that succeeds has
    issued one request per prompt, in the order of the prompts, each the
    request built from the options with that prompt, on the stream exactly
    when a streaming function is given; it returns one record per prompt;
    the logger has heard, for each prompt in turn, the prompt and then the
    text of its record; and every stream opened is closed. *)
Theorem LLM_Generate_trace float32_of_float64 o prompts options w w' gens :
  LLM.Generate float32_of_float64 o prompts options w = (w', Ok gens) ->
  let opts := LLM.callOptions options in
  let streaming := bool_decide (is_Some (llms.StreamingFunc opts)) in
  length gens = length prompts
  /\ issued w' =
       issued w
       ++ map (fun q =>
                 completionCall streaming
                   (LLM.withPrompt (LLM.buildRequest float32_of_float64 o opts) q))
            prompts
  /\ logged w' = logged w ++ exchanges prompts gens
  /\ closed w' = (closed w + if streaming then length prompts else 0)%nat.
Proof.
  intros H opts streaming. unfold LLM.Generate in H.
  apply LLM_generateLoop_trace in H as (new & -> & Hlen & Hi & Hl & Hc).
  by rewrite app_nil_l.
Qed.

Lemma LLM_Generate_trace_witness :
  exists w' gens,
    LLM.Generate (fun x => x) exampleLLM ["a"; "b"] [WithStreamingFunc acceptAll]
      emptyWorld = (w', Ok gens)
    /\ map (fun c => match c with
                     | openai.CallCompletionStream r => openai.cq_Prompt r
                     | _ => "not on the stream"
                     end) (issued w') = ["a"; "b"]
    /\ logged w' = [LLMRequest "a"; LLMResponse "Hello";
                    LLMRequest "b"; LLMResponse "Hello"]
    /\ closed w' = 2%nat.
Proof.
  eexists _, _. split; [vm_compute; reflexivity|].
  lazymatch goal with
  | |- context [logged ?w'] =>
      pose proof (LLM_Generate_trace (fun x => x) exampleLLM ["a"; "b"]
                    [WithStreamingFunc acceptAll] emptyWorld w' _
                    ltac:(vm_compute; reflexivity))
        as (_ & Hi & Hl & Hc)
  end.
  split; [exact (f_equal (map _) Hi)|]. split; [exact Hl | exact Hc].
Defined.

Lemma Chat_recvLoop_closed opts stream : forall a w,
  closed (Chat.recvLoop opts stream a w).1 = closed w.
Proof.
  induction stream as [|[err|resp] rest IH]; intros a w;
    [reflexivity | simpl; by destruct (is_EOF err) |].
  simpl. destruct (openai.sr_Choices resp) as [|c cs]; [reflexivity|].
  unfold mbind, callStreamingFunc.
  destruct (llms.StreamingFunc opts) as [f|]; [|reflexivity]. simpl.
  destruct (f (delivered w) _); [reflexivity|].
  destruct (String.eqb _ _); [|by rewrite IH].
  destruct (openai.d_FunctionCall _); [by rewrite IH | reflexivity].
Qed.

Lemma Chat_dispatch_Ok_world o opts request w w' gen :
  Chat.dispatch o opts request w = (w', Ok gen) ->
  issued w' = issued w ++ [chatCall (openai.hq_Stream request) request]
  /\ logged w' = logged w
  /\ closed w' = (closed w + if openai.hq_Stream request then 1 else 0)%nat.
Proof.
  unfold Chat.dispatch, chatCall.
  destruct (openai.hq_Stream request).
  - unfold Chat.createChatCompletionStream. intros H.
    apply mbind_inv_Ok in H as (w1 & stream & Hissue & H).
    apply deferClose_inv_Ok in H as (w3 & H & ->).
    apply mbind_inv_Ok in H as (w2 & a & Hloop & H).
    inversion H; subst; clear H. unfold issue in Hissue.
    destruct (openai.CreateChatCompletionStream _ _ _) as [e|s];
      inversion Hissue; subst; clear Hissue.
    pose proof (Chat_recvLoop_closed opts stream (Chat.mkAcc "" "" None)
                  (mkWorld (issued w ++ [openai.CallChatCompletionStream request])
                     (delivered w) (logged w) (closed w))) as Hc.
    rewrite Hloop in Hc.
    apply Chat_recvLoop_Ok in Hloop as (_ & _ & Hi & Hl & _).
    simpl in *. rewrite Hi, Hl, Hc. repeat split. lia.
  - unfold Chat.createChatCompletion. intros H.
    apply mbind_inv_Ok in H as (w1 & resp & Hissue & H).
    unfold issue in Hissue.
    destruct (openai.CreateChatCompletion _ _ _) as [e|r];
      inversion Hissue; subst; clear Hissue.
    destruct (openai.hr_Choices resp) as [|c cs]; [discriminate|].
    apply mbind_inv_Ok in H as (w2 & fc & Hfc & H).
    inversion H; subst; clear H.
    destruct (String.eqb _ _).
    + destruct (openai.cm_FunctionCall _); inversion Hfc; subst. simpl.
      repeat split. lia.
    + inversion Hfc; subst. simpl. repeat split. lia.
Qed.

Lemma Chat_generateLoop_trace json_Marshal o opts request sets :
  forall generations w w' gens,
  Chat.generateLoop json_Marshal o opts request sets generations w
    = (w', Ok gens) ->
  exists new,
    gens = generations ++ new
    /\ length new = length sets
    /\ issued w' =
         issued w
         ++ map (fun msgs => chatCall (openai.hq_Stream request)
                               (Chat.withMessages request msgs)) sets
    /\ logged w' = logged w ++ exchanges (map json_Marshal sets) new.
Proof.
  induction sets as [|msgs sets IH]; intros generations w w' gens H.
  - inversion H; subst. exists []. by rewrite !app_nil_r.
  - destruct (Chat.dispatch o opts (Chat.withMessages request msgs)
                (logging (LLMRequest (json_Marshal msgs)) w))
      as [w2 [g|e|why]] eqn:Hd.
    + rewrite (Chat_generateLoop_Ok _ _ _ _ _ _ _ _ _ _ Hd) in H.
      apply IH in H as (new & -> & Hlen & Hi & Hl).
      apply Chat_dispatch_Ok_world in Hd as (Hi2 & Hl2 & _).
      simpl in *. exists (g :: new). rewrite <- app_assoc.
      split; [done|]. split; [simpl; by rewrite Hlen|].
      split; [by rewrite Hi, Hi2, <- app_assoc|].
      rewrite Hl, Hl2. unfold exchanges. simpl. by rewrite <- !app_assoc.
    + rewrite (Chat_generateLoop_Err _ _ _ _ _ _ _ _ _ _ Hd) in H.
      discriminate.
    + rewrite (Chat_generateLoop_Panic _ _ _ _ _ _ _ _ _ _ Hd) in H.
      discriminate.
Qed.

(** X2.  A call of [Generate] of the chat client that succeeds has issued
    one request per message set, in the order of the sets, each the request
    built from the options with the messages of that set translated one by
    one, on the stream exactly when a streaming function is given; it
    returns one record per set; and the logger has heard, for each set in
    turn, the marshalled messages and then the [Text] of the record. *)
Theorem Chat_Generate_trace float32_of_float64 json_Marshal o messageSets
    options w w' gens :
  Chat.Generate float32_of_float64 json_Marshal o messageSets options w
    = (w', Ok gens) ->
  let opts := Chat.callOptions options in
  let streaming := bool_decide (is_Some (llms.StreamingFunc opts)) in
  length gens = length messageSets
  /\ issued w' =
       issued w
       ++ map (fun set =>
                 chatCall streaming
                   (Chat.withMessages
                      (Chat.buildRequest float32_of_float64 o opts)
                      (map Chat.translateMessage set)))
            messageSets
  /\ logged w' =
       logged w
       ++ exchanges
            (map (fun set => json_Marshal (map Chat.translateMessage set))
               messageSets)
            gens.
Proof.
  intros H opts streaming. unfold Chat.Generate in H.
  apply Chat_generateLoop_trace in H as (new & -> & Hlen & Hi & Hl).
  rewrite length_map in Hlen. rewrite !map_map in *.
  by rewrite app_nil_l.
Qed.

Lemma Chat_Generate_trace_witness :
  exists w' gens,
    Chat.Generate (fun x => x) (fun _ => "[...]") exampleChat
      [[schema.System "be brief"; schema.Human "hi"]; [schema.Human "again"]]
      [] emptyWorld = (w', Ok gens)
    /\ length gens = 2%nat
    /\ logged w' = [LLMRequest "[...]"; LLMResponse "Hello";
                    LLMRequest "[...]"; LLMResponse "Hello"].
Proof.
  eexists _, _. split; [vm_compute; reflexivity|].
  destruct (Chat_Generate_trace (fun x => x) (fun _ => "[...]") exampleChat
              [[schema.System "be brief"; schema.Human "hi"];
               [schema.Human "again"]]
              [] emptyWorld _ _ eq_refl)
    as (Hn & _ & Hl).
  split; [exact Hn | exact Hl].
Defined.

(** ** Streams that stop early *)

Lemma LLM_createCompletionStream_opened o request opts w stream :
  openai.CreateCompletionStream (LLM.client o) (issued w) request = inr stream ->
  LLM.createCompletionStream o request opts w
  = deferClose
      (mbind (LLM.recvLoop opts stream "" "")
         (fun acc =>
            let '(output, finishReason) := acc in
            mret (llms.mkGeneration output None
                    {[ "FinishReason" := AnyString finishReason ]})))
      (issuing (openai.CallCompletionStream request) w).
Proof.
  intros Hs. unfold LLM.createCompletionStream, issue, issuing.
  unfold mbind at 1. by rewrite Hs.
Qed.

Lemma Chat_createChatCompletionStream_opened o request opts w stream :
  openai.CreateChatCompletionStream (Chat.client o) (issued w) request
    = inr stream ->
  Chat.createChatCompletionStream o request opts w
  = deferClose
      (mbind (Chat.recvLoop opts stream (Chat.mkAcc "" "" None))
         (fun a =>
            mret (llms.mkGeneration ""
                    (Some (schema.mkAIChatMessage (Chat.a_text a)
                             (Chat.a_functionCall a)))
                    {[ "FinishReason" := AnyString (Chat.a_finishReason a) ]})))
      (issuing (openai.CallChatCompletionStream request) w).
Proof.
  intros Hs. unfold Chat.createChatCompletionStream, issue, issuing.
  unfold mbind at 1. by rewrite Hs.
Qed.

(** X3.  When the streaming function returns an error on a fragment, after
    the deltas [pre] were received and accepted, the streaming call returns
    that error and no record; the fragments given to the streaming function
    are those of [pre] and the refused one, and none of the deltas that
    follow.  This holds for the completion client and for the chat
    client. *)
Theorem stream_refused_fragment :
  (forall o request opts f w pre resp c cs rest w1 acc e,
     openai.CreateCompletionStream (LLM.client o) (issued w) request
       = inr (map inr pre ++ inr resp :: rest) ->
     LLM.recvLoop opts (map inr pre) "" ""
       (issuing (openai.CallCompletionStream request) w) = (w1, Ok acc) ->
     llms.StreamingFunc opts = Some f ->
     openai.cr_Choices resp = c :: cs ->
     f (delivered w1) (openai.cc_Text c) = Some e ->
     let r := LLM.createCompletionStream o request opts w in
     r.2 = Err e
     /\ deliveredBy w r.1 = map fragment pre ++ [openai.cc_Text c])
  /\ (forall o request opts f w pre resp c cs rest w1 acc e,
        openai.CreateChatCompletionStream (Chat.client o) (issued w) request
          = inr (map inr pre ++ inr resp :: rest) ->
        Chat.recvLoop opts (map inr pre) (Chat.mkAcc "" "" None)
          (issuing (openai.CallChatCompletionStream request) w) = (w1, Ok acc) ->
        llms.StreamingFunc opts = Some f ->
        openai.sr_Choices resp = c :: cs ->
        f (delivered w1) (openai.d_Content (openai.sc_Delta c)) = Some e ->
        let r := Chat.createChatCompletionStream o request opts w in
        r.2 = Err e
        /\ deliveredBy w r.1
           = map chatFragment pre ++ [openai.d_Content (openai.sc_Delta c)]).
Proof.
  split.
  - intros o request opts f w pre resp c cs rest w1 [output fr] e
      Hs Hpre Hf Hc He r. subst r.
    assert (Hr : LLM.createCompletionStream o request opts w
                 = (closing (mkWorld (issued w1)
                               (delivered w1 ++ [openai.cc_Text c])
                               (logged w1) (closed w1)), Err e)).
    { rewrite (LLM_createCompletionStream_opened _ _ _ _ _ Hs).
      unfold deferClose, mbind.
      rewrite LLM_recvLoop_prefix, Hpre. simpl. rewrite Hc.
      unfold mbind, callStreamingFunc. by rewrite Hf, He. }
    rewrite Hr. split; [done|]. apply deliveredBy_app. simpl.
    apply LLM_recvLoop_Ok in Hpre as (_ & Hd & _). rewrite received_inr in Hd.
    simpl in Hd. by rewrite Hd, <- app_assoc.
  - intros o request opts f w pre resp c cs rest w1 acc e
      Hs Hpre Hf Hc He r. subst r.
    assert (Hr : Chat.createChatCompletionStream o request opts w
                 = (closing (mkWorld (issued w1)
                               (delivered w1
                                ++ [openai.d_Content (openai.sc_Delta c)])
                               (logged w1) (closed w1)), Err e)).
    { rewrite (Chat_createChatCompletionStream_opened _ _ _ _ _ Hs).
      unfold deferClose, mbind.
      rewrite Chat_recvLoop_prefix, Hpre. simpl. rewrite Hc.
      unfold mbind, callStreamingFunc. by rewrite Hf, He. }
    rewrite Hr. split; [done|]. apply deliveredBy_app. simpl.
    apply Chat_recvLoop_Ok in Hpre as (_ & Hd & _). rewrite received_inr in Hd.
    simpl in Hd. by rewrite Hd, <- app_assoc.
Qed.

Lemma stream_refused_fragment_witness :
  (LLM.createCompletionStream exampleLLM (exampleRequest "hi") refusingOptions
     emptyWorld).2 = Err (OtherError "enough")
  /\ delivered
       (LLM.createCompletionStream exampleLLM (exampleRequest "hi")
          refusingOptions emptyWorld).1 = ["Hel"; "lo"].
Proof.
  destruct (proj1 stream_refused_fragment exampleLLM (exampleRequest "hi")
              refusingOptions refuseSecond emptyWorld [completionOf "Hel" "stop"]
              (completionOf "lo" "") (openai.mkCompletionChoice "lo" "") [] []
              _ _ (OtherError "enough") eq_refl eq_refl eq_refl eq_refl eq_refl)
    as (He & Hd).
  split; [exact He | exact Hd].
Defined.

(** X4.  After the deltas [pre] were received and accepted: an error of the
    stream other than [io.EOF] makes the streaming call return that error
    and no record; [io.EOF] ends the call with the record of [pre], and the
    deltas that follow it are never given to the streaming function.  This
    holds for the completion client and for the chat client. *)
Theorem stream_error_or_end :
  (forall o request opts w pre e rest w1 output finishReason,
     openai.CreateCompletionStream (LLM.client o) (issued w) request
       = inr (map inr pre ++ inl e :: rest) ->
     LLM.recvLoop opts (map inr pre) "" ""
       (issuing (openai.CallCompletionStream request) w)
       = (w1, Ok (output, finishReason)) ->
     let r := LLM.createCompletionStream o request opts w in
     deliveredBy w r.1 = map fragment pre
     /\ r.2 = if is_EOF e
              then Ok (llms.mkGeneration output None
                         {[ "FinishReason" := AnyString finishReason ]})
              else Err e)
  /\ (forall o request opts w pre e rest w1 acc,
        openai.CreateChatCompletionStream (Chat.client o) (issued w) request
          = inr (map inr pre ++ inl e :: rest) ->
        Chat.recvLoop opts (map inr pre) (Chat.mkAcc "" "" None)
          (issuing (openai.CallChatCompletionStream request) w) = (w1, Ok acc) ->
        let r := Chat.createChatCompletionStream o request opts w in
        deliveredBy w r.1 = map chatFragment pre
        /\ r.2 = if is_EOF e
                 then Ok (llms.mkGeneration ""
                            (Some (schema.mkAIChatMessage (Chat.a_text acc)
                                     (Chat.a_functionCall acc)))
                            {[ "FinishReason" :=
                                 AnyString (Chat.a_finishReason acc) ]})
                 else Err e).
Proof.
  split.
  - intros o request opts w pre e rest w1 output fr Hs Hpre r. subst r.
    assert (Hr : LLM.createCompletionStream o request opts w
                 = (closing w1,
                    if is_EOF e
                    then Ok (llms.mkGeneration output None
                               {[ "FinishReason" := AnyString fr ]})
                    else Err e)).
    { rewrite (LLM_createCompletionStream_opened _ _ _ _ _ Hs).
      unfold deferClose, mbind.
      rewrite LLM_recvLoop_prefix, Hpre. simpl. by destruct (is_EOF e). }
    rewrite Hr. split; [|done]. apply deliveredBy_app. simpl.
    apply LLM_recvLoop_Ok in Hpre as (_ & Hd & _).
    by rewrite received_inr in Hd.
  - intros o request opts w pre e rest w1 acc Hs Hpre r. subst r.
    assert (Hr : Chat.createChatCompletionStream o request opts w
                 = (closing w1,
                    if is_EOF e
                    then Ok (llms.mkGeneration ""
                               (Some (schema.mkAIChatMessage (Chat.a_text acc)
                                        (Chat.a_functionCall acc)))
                               {[ "FinishReason" :=
                                    AnyString (Chat.a_finishReason acc) ]})
                    else Err e)).
    { rewrite (Chat_createChatCompletionStream_opened _ _ _ _ _ Hs).
      unfold deferClose, mbind.
      rewrite Chat_recvLoop_prefix, Hpre. simpl. by destruct (is_EOF e). }
    rewrite Hr. split; [|done]. apply deliveredBy_app. simpl.
    apply Chat_recvLoop_Ok in Hpre as (_ & Hd & _).
    by rewrite received_inr in Hd.
Qed.

Lemma stream_error_or_end_witness :
  (LLM.createCompletionStream (LLM.mk "m" brokenStreamClient)
     (exampleRequest "hi") streamingOptions emptyWorld).2
    = Err (OtherError "connection reset")
  /\ delivered
       (Chat.createChatCompletionStream (Chat.mk "m" brokenStreamClient)
          (exampleChatRequest hello) streamingOptions emptyWorld).1 = ["Hel"]
  /\ (Chat.createChatCompletionStream (Chat.mk "m" brokenStreamClient)
        (exampleChatRequest hello) streamingOptions emptyWorld).2
     = Ok (llms.mkGeneration ""
             (Some (schema.mkAIChatMessage "Hel" None))
             {[ "FinishReason" := AnyString "stop" ]}).
Proof.
  destruct stream_error_or_end as (Hllm & Hchat).
  destruct (Hllm (LLM.mk "m" brokenStreamClient) (exampleRequest "hi")
              streamingOptions emptyWorld [completionOf "Hel" ""]
              (OtherError "connection reset") [inr (completionOf "lo" "stop")]
              _ _ _ eq_refl eq_refl) as (_ & He).
  destruct (Hchat (Chat.mk "m" brokenStreamClient) (exampleChatRequest hello)
              streamingOptions emptyWorld [chatDeltaOf "Hel" "stop"]
              io_EOF [inr (chatDeltaOf "lo" "")] _ _ eq_refl eq_refl)
    as (Hd & Hr).
  split; [exact He|]. split; [exact Hd | exact Hr].
Defined.

(** X5.  A stream that cannot be opened gives the provider's error, and
    nothing is closed; a stream that was opened is closed exactly once,
    whatever the way the call ends (record, error or panic).  This holds
    for the completion client and for the chat client. *)
Theorem stream_closed_once :
  (forall o request opts w,
     match openai.CreateCompletionStream (LLM.client o) (issued w) request with
     | inl e =>
         LLM.createCompletionStream o request opts w
         = (issuing (openai.CallCompletionStream request) w, Err e)
     | inr _ =>
         closed (LLM.createCompletionStream o request opts w).1 = S (closed w)
     end)
  /\ (forall o request opts w,
        match openai.CreateChatCompletionStream (Chat.client o) (issued w)
                request with
        | inl e =>
            Chat.createChatCompletionStream o request opts w
            = (issuing (openai.CallChatCompletionStream request) w, Err e)
        | inr _ =>
            closed (Chat.createChatCompletionStream o request opts w).1
            = S (closed w)
        end).
Proof.
  split; [apply LLM_createCompletionStream_release|].
  intros o request opts w.
  destruct (openai.CreateChatCompletionStream _ _ _) as [e|stream] eqn:Hs;
    unfold Chat.createChatCompletionStream, mbind at 1, issue, issuing;
    cbv beta; rewrite Hs; [reflexivity|].
  unfold deferClose, mbind.
  pose proof (Chat_recvLoop_closed opts stream (Chat.mkAcc "" "" None)
                (mkWorld (issued w ++ [openai.CallChatCompletionStream request])
                   (delivered w) (logged w) (closed w))) as Hc.
  destruct (Chat.recvLoop _ _ _ _) as [w1 [a|e|why]];
    simpl in *; by f_equal.
Qed.

(** ** The single-item calls *)

(** X6.  [Call] of the completion client logs the prompt, issues the one
    request of that prompt, and returns the text of its record, or the
    error of that request as it is; the branch for an empty list of records
    is never taken. *)
Theorem LLM_Call_single float32_of_float64 o prompt options w :
  LLM.Call float32_of_float64 o prompt options w
  = match LLM.dispatch o (LLM.callOptions options)
            (LLM.withPrompt
               (LLM.buildRequest float32_of_float64 o (LLM.callOptions options))
               prompt)
            (logging (LLMRequest prompt) w) with
    | (w2, Ok g) =>
        (logging (LLMResponse (llms.Text g)) w2, Ok (llms.Text g))
    | (w2, Err e) => (logging (LLMResponse (error_Error e)) w2, Err e)
    | (w2, Panic why) => (w2, Panic why)
    end.
Proof.
  unfold LLM.Call, LLM.Generate, mbind at 1.
  destruct (LLM.dispatch _ _ _ _) as [w2 [g|e|why]] eqn:Hd.
  - by rewrite (LLM_generateLoop_Ok _ _ _ _ _ _ _ _ _ Hd).
  - by rewrite (LLM_generateLoop_Err _ _ _ _ _ _ _ _ _ Hd).
  - by rewrite (LLM_generateLoop_Panic _ _ _ _ _ _ _ _ _ Hd).
Qed.

(** X7.  [Call] of the chat client logs the marshalled messages, issues the
    one request of the translated messages, and returns the message of its
    record, or the error of that request as it is, after logging it; the
    branch for an empty list of records is never taken. *)
Theorem Chat_Call_single float32_of_float64 json_Marshal o messages options w :
  Chat.Call float32_of_float64 json_Marshal o messages options w
  = match Chat.dispatch o (Chat.callOptions options)
            (Chat.withMessages
               (Chat.buildRequest float32_of_float64 o (Chat.callOptions options))
               (map Chat.translateMessage messages))
            (logging
               (LLMRequest (json_Marshal (map Chat.translateMessage messages)))
               w) with
    | (w2, Ok g) =>
        (logging (LLMResponse (llms.Text g)) w2, Ok (llms.Message g))
    | (w2, Err e) => (logging (LLMError e) w2, Err e)
    | (w2, Panic why) => (w2, Panic why)
    end.
Proof.
  unfold Chat.Call, Chat.Generate, mbind at 1. simpl map.
  destruct (Chat.dispatch _ _ _ _) as [w2 [g|e|why]] eqn:Hd.
  - by rewrite (Chat_generateLoop_Ok _ _ _ _ _ _ _ _ _ _ Hd).
  - by rewrite (Chat_generateLoop_Err _ _ _ _ _ _ _ _ _ _ Hd).
  - by rewrite (Chat_generateLoop_Panic _ _ _ _ _ _ _ _ _ _ Hd).
Qed.

(** ** Function calls *)

(** X8.  The non-streaming chat call, on a response with a choice: when the
    finish reason of the first choice is [function_call], the record holds
    the function call of the first choice's message, and the call panics if
    that message has none; with any other finish reason the record holds no
    function call, whatever the message carries. *)
Theorem chat_functionCall_collected o request w resp c cs :
  openai.CreateChatCompletion (Chat.client o) (issued w) request = inr resp ->
  openai.hr_Choices resp = c :: cs ->
  let r := (Chat.createChatCompletion o request w).2 in
  if String.eqb (openai.hc_FinishReason c) openai.FinishReasonFunctionCall
  then match openai.cm_FunctionCall (openai.hc_Message c) with
       | Some fc =>
           exists g, r = Ok g
                     /\ functionCallOf g
                        = Some (schema.mkFunctionCall (openai.fc_Name fc)
                                  (openai.fc_Arguments fc))
       | None => exists why, r = Panic why
       end
  else exists g, r = Ok g /\ functionCallOf g = None.
Proof.
  intros Hresp Hc r. subst r.
  unfold Chat.createChatCompletion, mbind, issue.
  rewrite Hresp. cbv beta iota. rewrite Hc.
  destruct (String.eqb _ _); [|simpl; eexists; split; reflexivity].
  destruct (openai.cm_FunctionCall _); simpl;
    [eexists; split; reflexivity | eexists; reflexivity].
Qed.

Lemma chat_functionCall_collected_witness :
  exists why,
    (Chat.createChatCompletion (Chat.mk "m" functionCallClient)
       (exampleChatRequest hello) emptyWorld).2 = Panic why.
Proof.
  exact (chat_functionCall_collected (Chat.mk "m" functionCallClient)
           (exampleChatRequest hello) emptyWorld _ _ _ eq_refl eq_refl).
Defined.

Lemma Chat_recvLoop_functionCall opts stream : forall a w w' a',
  Chat.recvLoop opts stream a w = (w', Ok a') ->
  Chat.a_functionCall a'
  = lastFunctionCall (Chat.a_functionCall a) (received stream).
Proof.
  induction stream as [|[err|resp] rest IH]; intros a w w' a' H.
  - by inversion H.
  - simpl in H. by destruct (is_EOF err); inversion H.
  - simpl in H. unfold lastFunctionCall. simpl.
    destruct (openai.sr_Choices resp) as [|c cs]; [discriminate|].
    apply mbind_inv_Ok in H as (w1 & r & Hsink & H).
    unfold callStreamingFunc in Hsink.
    destruct (llms.StreamingFunc opts) as [f|]; [|discriminate].
    inversion Hsink; subst; clear Hsink.
    destruct (f (delivered w) _); [discriminate|].
    destruct (String.eqb _ _).
    + destruct (openai.d_FunctionCall _); [|discriminate].
      by apply IH in H.
    + by apply IH in H.
Qed.

(** X9.  In a streaming chat call that ends normally, the function call of
    the record is the one carried by the last delta whose finish reason is
    [function_call], and there is none when no delta has that finish
    reason: the names and arguments of other deltas are not accumulated. *)
Theorem chat_functionCall_streamed o request opts w w' gen :
  Chat.createChatCompletionStream o request opts w = (w', Ok gen) ->
  exists stream,
    openai.CreateChatCompletionStream (Chat.client o) (issued w) request
      = inr stream
    /\ functionCallOf gen = lastFunctionCall None (received stream).
Proof.
  unfold Chat.createChatCompletionStream. intros H.
  apply mbind_inv_Ok in H as (w1 & stream & Hissue & H).
  apply deferClose_inv_Ok in H as (w3 & H & ->).
  apply mbind_inv_Ok in H as (w2 & a & Hloop & H).
  inversion H; subst; clear H. unfold issue in Hissue.
  destruct (openai.CreateChatCompletionStream _ _ _) as [e|s] eqn:Hs;
    inversion Hissue; subst; clear Hissue.
  apply Chat_recvLoop_functionCall in Hloop.
  exists stream. split; [done|]. exact Hloop.
Qed.

Lemma chat_functionCall_streamed_witness :
  exists w' gen,
    Chat.createChatCompletionStream (Chat.mk "m" functionCallClient)
      (exampleChatRequest hello) streamingOptions emptyWorld = (w', Ok gen)
    /\ functionCallOf gen = Some (schema.mkFunctionCall "" "}").
Proof.
  eexists _, _. split; [vm_compute; reflexivity|].
  destruct (chat_functionCall_streamed (Chat.mk "m" functionCallClient)
              (exampleChatRequest hello) streamingOptions emptyWorld _ _ eq_refl)
    as (stream & Hs & Hfc).
  vm_compute in Hs. injection Hs as <-. exact Hfc.
Defined.

(** ** The translation of messages *)

(** X10.  The translation of a message set keeps the contents, in order; a
    translated message carries a function call only when the message is an
    [AIChatMessage] with that function call; its role is one of [system],
    [assistant], [user] and [function] when the type of the message is one
    of the five known types, human and generic messages both becoming
    [user], and the empty string otherwise. *)
Theorem translateMessage_keeps messages :
  map openai.cm_Content (map Chat.translateMessage messages)
    = map schema.GetContent messages
  /\ Forall (fun m =>
       forall fc,
         openai.cm_FunctionCall (Chat.translateMessage m) = Some fc ->
         exists ai sfc,
           m = schema.AI ai
           /\ schema.FunctionCall_ ai = Some sfc
           /\ fc = openai.mkFunctionCall (schema.fc_Name sfc)
                     (schema.fc_Arguments sfc)) messages
  /\ Forall (fun m =>
       openai.cm_Role (Chat.translateMessage m)
       = match schema.GetType m with
         | schema.ChatMessageTypeSystem => "system"
         | schema.ChatMessageTypeAI => "assistant"
         | schema.ChatMessageTypeHuman | schema.ChatMessageTypeGeneric => "user"
         | schema.ChatMessageTypeFunction => "function"
         | schema.ChatMessageTypeUnknown _ => ""
         end) messages.
Proof.
  split; [|split].
  - rewrite map_map. apply map_ext. intros m.
    unfold Chat.translateMessage. by destruct (schema.GetType m).
  - apply Forall_forall. intros m _ fc.
    unfold Chat.translateMessage.
    destruct m as [ai|c|c|c|c|t c]; simpl; try discriminate.
    + destruct (schema.FunctionCall_ ai) as [sfc|] eqn:Hfc; [|discriminate].
      intros [= <-]. eauto.
    + destruct t; discriminate.
  - apply Forall_forall. intros m _.
    unfold Chat.translateMessage. by destruct (schema.GetType m).
Qed.

Lemma translateMessage_keeps_witness :
  map openai.cm_Content
    (map Chat.translateMessage [schema.System "be brief"; schema.Human "hi"])
  = ["be brief"; "hi"].
Proof.
  exact (proj1 (translateMessage_keeps
                  [schema.System "be brief"; schema.Human "hi"])).
Defined.

(** ** More on embeddings *)

(** X11.  [CreateEmbedding] of the chat client is [CreateEmbedding] of the
    completion client on the same provider client, whatever the models of
    the two clients: same request, same result, same world.  In particular
    it returns [ErrUnexpectedEmbeddingModel], without a request, on a model
    name that the table does not hold. *)
Theorem Chat_CreateEmbedding_same float64_of_float32 stringToEmbeddingModel
    (chat : Chat.t) (llm : LLM.t) model inputTexts w :
  Chat.client chat = LLM.client llm ->
  Chat.CreateEmbedding float64_of_float32 stringToEmbeddingModel chat model
    inputTexts w
  = LLM.CreateEmbedding float64_of_float32 stringToEmbeddingModel llm model
      inputTexts w
  /\ (stringToEmbeddingModel
        !! (if len0 model then defaultEmbeddingModel else model) = None ->
      Chat.CreateEmbedding float64_of_float32 stringToEmbeddingModel chat model
        inputTexts w
      = (w, Err ErrUnexpectedEmbeddingModel)).
Proof.
  intros Hclient.
  assert (Hsame :
    Chat.CreateEmbedding float64_of_float32 stringToEmbeddingModel chat model
      inputTexts w
    = LLM.CreateEmbedding float64_of_float32 stringToEmbeddingModel llm model
        inputTexts w).
  { unfold Chat.CreateEmbedding, LLM.CreateEmbedding.
    by rewrite Hclient. }
  split; [exact Hsame|].
  intros Hnone. rewrite Hsame. by apply CreateEmbedding_unresolved.
Qed.

Lemma Chat_CreateEmbedding_same_witness :
  Chat.CreateEmbedding (fun x => x) exampleTable exampleChat "" ["a"; "b"]
    emptyWorld
  = LLM.CreateEmbedding (fun x => x) exampleTable exampleLLM "" ["a"; "b"]
      emptyWorld.
Proof.
  exact (proj1 (Chat_CreateEmbedding_same (fun x => x) exampleTable exampleChat
                  exampleLLM "" ["a"; "b"] emptyWorld eq_refl)).
Defined.

(** X12.  An error of the provider is returned as it is, a response
    without vector gives [ErrEmptyResponse] whatever the number of input
    texts, and a success carries at least one vector: a call without input
    text never succeeds. *)
Theorem CreateEmbedding_needs_vectors float64_of_float32
    stringToEmbeddingModel o model inputTexts w em :
  stringToEmbeddingModel
    !! (if len0 model then defaultEmbeddingModel else model) = Some em ->
  let r :=
    (LLM.CreateEmbedding float64_of_float32 stringToEmbeddingModel o model
       inputTexts w).2 in
  match openai.CreateEmbeddings (LLM.client o) (issued w)
          (openai.mkEmbeddingRequest inputTexts em) with
  | inl e => r = Err e
  | inr resp =>
      (openai.er_Data resp = [] -> r = Err ErrEmptyResponse)
      /\ (forall vecs, r = Ok vecs -> vecs <> [] /\ inputTexts <> [])
  end.
Proof.
  intros Hem r. subst r.
  rewrite (CreateEmbedding_resolved _ _ _ _ _ _ _ Hem). simpl.
  destruct (openai.CreateEmbeddings _ _ _) as [e|resp]; [reflexivity|].
  split; [by intros ->|].
  intros vecs.
  destruct (openai.er_Data resp) as [|d data] eqn:Hdata; [discriminate|].
  simpl. destruct inputTexts as [|t texts]; [discriminate|].
  destruct (length (t :: texts) =? S (length data))%nat; [|discriminate].
  unfold convertedBy. rewrite Hdata. by intros [= <-].
Qed.

Lemma CreateEmbedding_needs_vectors_witness :
  (LLM.CreateEmbedding (fun x => x) exampleTable
     (LLM.mk "m" brokenStreamClient) "" ["a"] emptyWorld).2
  = Err (OtherError "status code: 503").
Proof.
  exact (CreateEmbedding_needs_vectors (fun x => x) exampleTable
           (LLM.mk "m" brokenStreamClient) "" ["a"] emptyWorld 15 eq_refl).
Defined.

(** ** More on the structured-output parser *)

Lemma missingKeysLoop_filter schemas parsed : forall missingKeys,
  outputparser.missingKeysLoop schemas parsed missingKeys
  = missingKeys
    ++ filter (fun name => parsed !! name = None)
         (outputparser.Name <$> schemas).
Proof.
  induction schemas as [|rs schemas IH]; intros missingKeys; simpl.
  - by rewrite app_nil_r.
  - destruct (parsed !! outputparser.Name rs) as [v|] eqn:Hv.
    + rewrite IH, filter_cons_False; [done|]. by rewrite Hv.
    + rewrite IH, filter_cons_True by done. by rewrite <- app_assoc.
Qed.

Lemma parse_unmarshalled p text parsed :
  json.Unmarshal text = inr parsed ->
  outputparser.parse p text
  = match filter (fun name => parsed !! name = None)
            (outputparser.Name <$> outputparser.ResponseJSONSchemas p) with
    | [] => Ok parsed
    | missing =>
        Err (ParseJSONError text
               ("output is missing the following fields ["
                +:+ String.concat " " missing +:+ "]"))
    end.
Proof.
  intros Hparsed. unfold outputparser.parse. rewrite Hparsed.
  rewrite missingKeysLoop_filter, app_nil_l.
  by destruct (filter _ _).
Qed.

(** X13.  On a text that decodes to a mapping, [Parse] returns the mapping
    when it has every declared name as a key, and otherwise fails with a
    [ParseJSONError] that carries the text and lists, between square
    brackets and separated by spaces, the declared names that are not keys
    of the mapping, in the order of the declaration, a name declared twice
    being listed twice. *)
Theorem Parse_missing_fields p text parsed :
  json.Unmarshal text = inr parsed ->
  let missing :=
    filter (fun name => parsed !! name = None)
      (outputparser.Name <$> outputparser.ResponseJSONSchemas p) in
  outputparser.Parse p text
  = match missing with
    | [] => Ok parsed
    | _ :: _ =>
        Err (ParseJSONError text
               ("output is missing the following fields ["
                +:+ String.concat " " missing +:+ "]"))
    end.
Proof.
  intros Hparsed missing. subst missing. unfold outputparser.Parse.
  rewrite (parse_unmarshalled _ _ _ Hparsed). by destruct (filter _ _).
Qed.

Lemma Parse_missing_fields_witness :
  outputparser.Parse promptSchema
    ("{" +:+ quoted "prompt" +:+ ":" +:+ quoted "a cat" +:+ "}")
  = Err (ParseJSONError
           ("{" +:+ quoted "prompt" +:+ ":" +:+ quoted "a cat" +:+ "}")
           "output is missing the following fields [negativePrompt]").
Proof.
  refine (eq_trans
            (Parse_missing_fields promptSchema
               ("{" +:+ quoted "prompt" +:+ ":" +:+ quoted "a cat" +:+ "}")
               (<[ "prompt" := "a cat" ]> ∅) _) _).
  - vm_compute. reflexivity.
  - vm_compute. reflexivity.
Defined.

(** X14.  The validation looks at presence only: on a text that decodes to
    an object with distinct keys, among them every declared name, whose
    values are strings or [null], [Parse] succeeds, and the mapping it
    returns has every key of the object, with the empty string for a
    [null]. *)
Theorem Parse_accepts_null p text members :
  json.decode text = inr (json.Object members) ->
  NoDup members.*1 ->
  Forall (fun rs => outputparser.Name rs ∈ members.*1)
    (outputparser.ResponseJSONSchemas p) ->
  Forall (fun kv => isOther kv.2 = false) members ->
  outputparser.Parse p text = Ok (plainEntries members)
  /\ Forall (fun kv => plainEntries members !! kv.1 = Some (textOf kv.2))
       members.
Proof.
  intros Hdec Hnd Hnames Hall.
  assert (Hlook : Forall (fun kv => plainEntries members !! kv.1
                                    = Some (textOf kv.2)) members).
  { apply Forall_forall. intros [k v] Hin. unfold plainEntries.
    apply elem_of_list_to_map_1.
    - by rewrite <- list_fmap_compose.
    - apply list_elem_of_fmap. by exists (k, v). }
  split; [|done].
  unfold outputparser.Parse, outputparser.parse, json.Unmarshal.
  rewrite Hdec. simpl. rewrite (storeMembers_plain _ _ Hnd Hall).
  rewrite (right_id_L ∅ (∪)). rewrite missingKeysLoop_present; [done|].
  eapply Forall_impl; [exact Hnames|]. intros rs Hin. simpl in Hin.
  apply list_elem_of_fmap in Hin as [[k v] [Hk Hin]].
  rewrite Forall_forall in Hlook. rewrite Hk.
  by rewrite (Hlook _ Hin).
Qed.

Lemma Parse_accepts_null_witness :
  outputparser.Parse promptSchema
    ("{" +:+ quoted "prompt" +:+ ":null," +:+ quoted "negativePrompt" +:+ ":"
     +:+ quoted "a dog" +:+ "}")
  = Ok (<[ "prompt" := "" ]> (<[ "negativePrompt" := "a dog" ]> ∅)).
Proof.
  refine (proj1 (Parse_accepts_null promptSchema _
                   [("prompt", json.Null);
                    ("negativePrompt", json.String "a dog")] _ _ _ _)).
  - vm_compute. reflexivity.
  - apply (bool_decide_unpack _). vm_compute. reflexivity.
  - repeat constructor; simpl; set_solver.
  - repeat constructor.
Defined.

Lemma fieldLines_app before after :
  fieldLines (before ++ after) = fieldLines before +:+ fieldLines after.
Proof.
  induction before as [|rs before IH]; [reflexivity|].
  simpl. by rewrite IH, append_assoc.
Qed.

Lemma jsonLinesLoop_fieldLines schemas : forall jsonLines,
  outputparser.jsonLinesLoop schemas jsonLines
  = jsonLines +:+ fieldLines schemas.
Proof.
  induction schemas as [|rs schemas IH]; intros jsonLines; simpl.
  - by rewrite append_empty_r.
  - rewrite IH. apply append_assoc.
Qed.

(** X15.  The format instructions are the fixed opening, one line per
    declared field in the order of the declaration, and the closing brace:
    the line of a field is a tab, the name between quotes, a colon, the type
    [string] whatever the field, and the description behind two slashes. *)
Theorem GetFormatInstructions_lines p before rs after :
  outputparser.ResponseJSONSchemas p = before ++ rs :: after ->
  outputparser.GetFormatInstructions p
  = "your input should strict follow json schema: "
    +:+ outputparser.newline +:+ outputparser.newline
    +:+ "{" +:+ outputparser.newline
    +:+ fieldLines before
    +:+ (outputparser.tab +:+ quoted (outputparser.Name rs)
         +:+ ": string // " +:+ outputparser.Description rs
         +:+ outputparser.newline)
    +:+ fieldLines after
    +:+ "}" +:+ outputparser.newline.
Proof.
  intros Hp.
  unfold outputparser.GetFormatInstructions,
    outputparser.structuredJSONFormatInstruction.
  rewrite Hp, jsonLinesLoop_fieldLines, fieldLines_app. simpl fieldLines.
  unfold fieldLine, outputparser.structuredJSONLine, quoted.
  repeat first [ rewrite append_assoc | rewrite append_cons
               | progress change ("" +:+ ?x) with x ].
  reflexivity.
Qed.

Lemma GetFormatInstructions_lines_witness :
  outputparser.GetFormatInstructions promptSchema
  = "your input should strict follow json schema: "
    +:+ outputparser.newline +:+ outputparser.newline
    +:+ "{" +:+ outputparser.newline
    +:+ outputparser.tab +:+ quoted "prompt" +:+ ": string // the prompt"
    +:+ outputparser.newline
    +:+ outputparser.tab +:+ quoted "negativePrompt"
    +:+ ": string // what to avoid" +:+ outputparser.newline
    +:+ "}" +:+ outputparser.newline.
Proof.
  refine (eq_trans
            (GetFormatInstructions_lines promptSchema
               [outputparser.mkResponseJSONSchema "prompt" "the prompt"]
               (outputparser.mkResponseJSONSchema "negativePrompt"
                  "what to avoid") [] _) _).
  - reflexivity.
  - vm_compute. reflexivity.
Defined.

(** ** What [Generate] logs on a failure *)

Lemma LLM_recvLoop_logged opts stream : forall output finishReason w,
  logged (LLM.recvLoop opts stream output finishReason w).1 = logged w.
Proof.
  induction stream as [|[err|resp] rest IH]; intros output fr w;
    [reflexivity | simpl; by destruct (is_EOF err) |].
  simpl. destruct (openai.cr_Choices resp) as [|c cs]; [reflexivity|].
  unfold mbind, callStreamingFunc.
  destruct (llms.StreamingFunc opts) as [f|]; [|reflexivity]. simpl.
  destruct (f (delivered w) (openai.cc_Text c)); [reflexivity|].
  by rewrite IH.
Qed.

Lemma Chat_recvLoop_logged opts stream : forall a w,
  logged (Chat.recvLoop opts stream a w).1 = logged w.
Proof.
  induction stream as [|[err|resp] rest IH]; intros a w;
    [reflexivity | simpl; by destruct (is_EOF err) |].
  simpl. destruct (openai.sr_Choices resp) as [|c cs]; [reflexivity|].
  unfold mbind, callStreamingFunc.
  destruct (llms.StreamingFunc opts) as [f|]; [|reflexivity]. simpl.
  destruct (f (delivered w) _); [reflexivity|].
  destruct (String.eqb _ _); [|by rewrite IH].
  destruct (openai.d_FunctionCall _); [by rewrite IH | reflexivity].
Qed.

(** No request of the two clients reaches the logger. *)
Lemma LLM_dispatch_logged o opts request w :
  logged (LLM.dispatch o opts request w).1 = logged w.
Proof.
  unfold LLM.dispatch. destruct (openai.cq_Stream request).
  - destruct (openai.CreateCompletionStream (LLM.client o) (issued w) request)
      as [e|stream] eqn:Hs.
    + pose proof (LLM_createCompletionStream_release o request opts w) as H.
      rewrite Hs in H. by rewrite H.
    + rewrite (LLM_createCompletionStream_opened _ _ _ _ _ Hs).
      unfold deferClose, mbind.
      pose proof (LLM_recvLoop_logged opts stream "" ""
                    (issuing (openai.CallCompletionStream request) w)) as Hl.
      by destruct (LLM.recvLoop _ _ _ _ _) as [w1 [[output fr]|e|why]].
  - unfold LLM.createCompletion, mbind, issue.
    destruct (openai.CreateCompletion _ _ _) as [e|resp]; [reflexivity|].
    by destruct (openai.cr_Choices resp).
Qed.

Lemma Chat_dispatch_logged o opts request w :
  logged (Chat.dispatch o opts request w).1 = logged w.
Proof.
  unfold Chat.dispatch. destruct (openai.hq_Stream request).
  - destruct (openai.CreateChatCompletionStream (Chat.client o) (issued w)
                request) as [e|stream] eqn:Hs.
    + unfold Chat.createChatCompletionStream, issue. unfold mbind at 1.
      by rewrite Hs.
    + rewrite (Chat_createChatCompletionStream_opened _ _ _ _ _ Hs).
      unfold deferClose, mbind.
      pose proof (Chat_recvLoop_logged opts stream (Chat.mkAcc "" "" None)
                    (issuing (openai.CallChatCompletionStream request) w))
        as Hl.
      by destruct (Chat.recvLoop _ _ _ _) as [w1 [a|e|why]].
  - unfold Chat.createChatCompletion, mbind, issue.
    destruct (openai.CreateChatCompletion _ _ _) as [e|resp]; [reflexivity|].
    destruct (openai.hr_Choices resp) as [|c cs]; [reflexivity|].
    destruct (String.eqb _ _); [|reflexivity].
    by destruct (openai.cm_FunctionCall _).
Qed.

(** X16.  When [Generate] has processed the items [done] with success and
    the request of the next item fails with the error [e], the logger has
    heard the exchanges of [done], the request of the failing item, and then
    the failure: from the completion client as a response whose text is the
    message of [e], from the chat client as the error [e] itself.  Nothing
    is logged for the items after. *)
Theorem Generate_logs_failure :
  (forall float32_of_float64 o options done prompt rest w w1 gens1 w2 e,
     LLM.Generate float32_of_float64 o done options w = (w1, Ok gens1) ->
     LLM.dispatch o (LLM.callOptions options)
       (LLM.withPrompt
          (LLM.buildRequest float32_of_float64 o (LLM.callOptions options))
          prompt)
       (logging (LLMRequest prompt) w1) = (w2, Err e) ->
     logged
       (LLM.Generate float32_of_float64 o (done ++ prompt :: rest) options w).1
     = logged w ++ exchanges done gens1
       ++ [LLMRequest prompt; LLMResponse (error_Error e)])
  /\ (forall float32_of_float64 json_Marshal o options done messages rest
             w w1 gens1 w2 e,
        Chat.Generate float32_of_float64 json_Marshal o done options w
          = (w1, Ok gens1) ->
        Chat.dispatch o (Chat.callOptions options)
          (Chat.withMessages
             (Chat.buildRequest float32_of_float64 o (Chat.callOptions options))
             (map Chat.translateMessage messages))
          (logging
             (LLMRequest (json_Marshal (map Chat.translateMessage messages))) w1)
          = (w2, Err e) ->
        logged
          (Chat.Generate float32_of_float64 json_Marshal o
             (done ++ messages :: rest) options w).1
        = logged w
          ++ exchanges
               (map (fun set => json_Marshal (map Chat.translateMessage set))
                  done)
               gens1
          ++ [LLMRequest (json_Marshal (map Chat.translateMessage messages));
              LLMError e]).
Proof.
  split.
  - intros f32 o options done prompt rest w w1 gens1 w2 e Hdone Hfail.
    pose proof (LLM_dispatch_logged o (LLM.callOptions options)
                  (LLM.withPrompt
                     (LLM.buildRequest f32 o (LLM.callOptions options)) prompt)
                  (logging (LLMRequest prompt) w1)) as Hl.
    rewrite Hfail in Hl. simpl in Hl.
    unfold LLM.Generate in *.
    rewrite LLM_generateLoop_app, Hdone.
    rewrite (LLM_generateLoop_Err _ _ _ _ _ _ _ _ _ Hfail). simpl.
    apply LLM_generateLoop_trace in Hdone as (new & -> & _ & _ & Hw1 & _).
    rewrite Hl, Hw1, app_nil_l, <- !app_assoc. reflexivity.
  - intros f32 marshal o options done messages rest w w1 gens1 w2 e
      Hdone Hfail.
    pose proof (Chat_dispatch_logged o (Chat.callOptions options)
                  (Chat.withMessages
                     (Chat.buildRequest f32 o (Chat.callOptions options))
                     (map Chat.translateMessage messages))
                  (logging
                     (LLMRequest
                        (marshal (map Chat.translateMessage messages))) w1))
      as Hl.
    rewrite Hfail in Hl. simpl in Hl.
    unfold Chat.Generate in *.
    rewrite map_app, map_cons, Chat_generateLoop_app, Hdone.
    rewrite (Chat_generateLoop_Err _ _ _ _ _ _ _ _ _ _ Hfail). simpl.
    apply Chat_generateLoop_trace in Hdone as (new & -> & _ & _ & Hw1).
    rewrite Hl, Hw1, app_nil_l, map_map, <- !app_assoc. reflexivity.
Qed.

Lemma Generate_logs_failure_witness :
  logged
    (LLM.Generate (fun x => x) exampleLLM ["a"; "bad"; "c"] [] emptyWorld).1
  = [LLMRequest "a"; LLMResponse "re: a";
     LLMRequest "bad"; LLMResponse "status code: 500"].
Proof.
  refine (eq_trans
            (proj1 Generate_logs_failure (fun x => x) exampleLLM []
               ["a"] "bad" ["c"] emptyWorld _ _ _
               (OtherError "status code: 500") _ _) _).
  - vm_compute. reflexivity.
  - vm_compute. reflexivity.
  - vm_compute. reflexivity.
Defined.

(** ** The image tool *)

Section ImageTool.

Variable os_Getenv : string -> string.
Variable url_ParseRequestURI : string -> error + stable_diffusion.internal.URL.
Variable json_Marshal : stable_diffusion.internal.TXT2IMGReq -> error + string.
Variable http_NewRequest :
  string -> string -> string -> error + stable_diffusion.Request.
Variable json_Unmarshal :
  string -> stable_diffusion.internal.TXT2IMGResp * option error.
Variable base64_DecodeString : string -> error + string.
Variable fmt_d : Z -> string.
Variable filepath_Join : string -> string -> string.
Variable filepath_Dir : string -> string.

#[local] Abbreviation New :=
  (stable_diffusion.New os_Getenv url_ParseRequestURI).

#[local] Abbreviation Text2ImgWithCustomPrompt :=
  (stable_diffusion.internal.Text2ImgWithCustomPrompt json_Marshal
     http_NewRequest json_Unmarshal).

#[local] Abbreviation Call :=
  (stable_diffusion.Call json_Marshal http_NewRequest json_Unmarshal
     base64_DecodeString fmt_d filepath_Join filepath_Dir).

(** The tool that [New] returns. *)
Lemma New_Ok opts t :
  New opts = Ok t ->
  stable_diffusion.options t
    = stable_diffusion.applyOptions opts
        (stable_diffusion.DefaultCreateOptions os_Getenv)
  /\ stable_diffusion.URL (stable_diffusion.options t) <> ""
  /\ stable_diffusion.SDWebUIClient t
     = (stable_diffusion.internal.SetAPIUrl url_ParseRequestURI
          stable_diffusion.internal.NewSDWebUIClient
          (stable_diffusion.URL (stable_diffusion.options t))).1
  /\ outputparser.Name
       <$> outputparser.ResponseJSONSchemas
             (stable_diffusion.structuredPrompt t)
     = ["prompt"; "negativePrompt"].
Proof.
  unfold stable_diffusion.New.
  destruct (String.eqb _ "") eqn:Hurl; [discriminate|].
  intros [= <-]. simpl. repeat split.
  intros Heq. rewrite Heq in Hurl. discriminate.
Qed.

(** X17.  [New] fails, with [ErrMissingURL], exactly when the URL is empty
    once the options are applied: the URL of a last [WithURL] whatever the
    environment, the variable [SD_WEBUI_URL] when there is no option.  A URL
    that is not empty and does not parse is accepted: its error is dropped,
    and the tool gets the fresh client, whose address is empty. *)
Theorem New_needs_URL :
  (forall opts url,
     New (opts ++ [stable_diffusion.WithURL url])
       = Err stable_diffusion.ErrMissingURL <-> url = "")
  /\ (New [] = Err stable_diffusion.ErrMissingURL
      <-> os_Getenv "SD_WEBUI_URL" = "")
  /\ (forall opts t e,
        New opts = Ok t ->
        url_ParseRequestURI (stable_diffusion.URL (stable_diffusion.options t))
          = inl e ->
        stable_diffusion.SDWebUIClient t
          = stable_diffusion.internal.NewSDWebUIClient
        /\ stable_diffusion.internal.ApiUrl (stable_diffusion.SDWebUIClient t)
           = "").
Proof.
  split; [|split].
  - intros opts url. unfold stable_diffusion.New, stable_diffusion.applyOptions.
    rewrite foldl_app. simpl.
    destruct (String.eqb url "") eqn:Hurl.
    + apply String.eqb_eq in Hurl. done.
    + apply String.eqb_neq in Hurl. split; [discriminate | done].
  - unfold stable_diffusion.New. simpl.
    destruct (String.eqb _ "") eqn:Hurl.
    + apply String.eqb_eq in Hurl. done.
    + apply String.eqb_neq in Hurl. split; [discriminate | done].
  - intros opts t e Ht He.
    apply New_Ok in Ht as (_ & _ & Hc & _). rewrite Hc.
    unfold stable_diffusion.internal.SetAPIUrl. by rewrite He.
Qed.

(** X18.  On an input that the parser of a tool made by [New] refuses, [Call]
    returns an error whose message is the fixed prefix followed by the
    message of the parser's error, and does nothing: no request is sent and
    no file is written.  This is so for a text that is no JSON mapping of
    strings, and for a mapping in which [prompt] or [negativePrompt] is not
    a key, where the message names the fields that are missing. *)
Theorem Call_invalid_input sys opts t input h :
  New opts = Ok t ->
  match json.Unmarshal input with
  | inl err =>
      Call sys t input h
      = (h, Err (OtherError ("stable-diffusion: invalid input format, "
                             +:+ error_Error err)))
  | inr parsed =>
      let missing :=
        filter (fun name => parsed !! name = None)
          ["prompt"; "negativePrompt"] in
      missing <> [] ->
      Call sys t input h
      = (h, Err (OtherError
                   ("stable-diffusion: invalid input format, parse text "
                    +:+ input
                    +:+ ". output is missing the following fields ["
                    +:+ String.concat " " missing +:+ "]")))
  end.
Proof.
  intros Ht. apply New_Ok in Ht as (_ & _ & _ & Hnames).
  unfold stable_diffusion.Call, outputparser.Parse.
  destruct (json.Unmarshal input) as [err|parsed] eqn:Hin.
  - unfold outputparser.parse. by rewrite Hin.
  - cbv zeta. intros Hmissing.
    rewrite (parse_unmarshalled _ _ _ Hin), Hnames.
    destruct (filter _ _) as [|name names]; [done|].
    unfold stable_diffusion.io_fail, stable_diffusion.fmt_Errorf, error_Error.
    repeat first [ rewrite append_assoc | rewrite append_cons
                 | progress change ("" +:+ ?x) with x ].
    reflexivity.
Qed.

Lemma doneBy_app (h new : list stable_diffusion.Effect) :
  doneBy h (h ++ new) = new.
Proof. unfold doneBy. apply drop_app_length. Qed.

Lemma doneBy_nil (h : list stable_diffusion.Effect) : doneBy h h = [].
Proof. unfold doneBy. apply drop_all. Qed.

(** [Text2ImgWithCustomPrompt], step by step. *)
Lemma Text2ImgWithCustomPrompt_run sys c payload h :
  Text2ImgWithCustomPrompt sys c payload h
  = match json_Marshal payload with
    | inl err => (h, Err err)
    | inr b =>
        match http_NewRequest "POST"
                (stable_diffusion.internal.ApiUrl c +:+ "/sdapi/v1/txt2img")
                b with
        | inl err => (h, Err err)
        | inr req0 =>
            match stable_diffusion.http_Do sys h (prepared c req0) with
            | inl err =>
                (h ++ [stable_diffusion.HTTPDo (prepared c req0)], Err err)
            | inr body =>
                (h ++ [stable_diffusion.HTTPDo (prepared c req0);
                       stable_diffusion.BodyClose],
                 match stable_diffusion.internal.Images
                         (json_Unmarshal body).1 with
                 | [] => Panic "index out of range [0] with length 0"
                 | image0 :: _ =>
                     match (json_Unmarshal body).2 with
                     | Some err => Err err
                     | None => Ok image0
                     end
                 end)
            end
        end
    end.
Proof.
  unfold stable_diffusion.internal.Text2ImgWithCustomPrompt.
  destruct (json_Marshal payload) as [err|b]; [reflexivity|].
  destruct (http_NewRequest _ _ _) as [err|req0]; [reflexivity|].
  unfold prepared, stable_diffusion.io_bind, stable_diffusion.perform.
  cbv zeta beta iota.
  destruct (stable_diffusion.http_Do sys h _) as [err|body]; [reflexivity|].
  unfold stable_diffusion.deferBodyClose.
  destruct (json_Unmarshal body) as [res err]. simpl.
  destruct (stable_diffusion.internal.Images res) as [|image0 images];
    [|destruct err]; simpl; by rewrite <- app_assoc.
Qed.

(** [Call], step by step. *)
Lemma Call_run sys t input h :
  Call sys t input h
  = match outputparser.Parse (stable_diffusion.structuredPrompt t) input with
    | Err err =>
        (h, Err (OtherError ("stable-diffusion: invalid input format, "
                             +:+ error_Error err)))
    | Panic why => (h, Panic why)
    | Ok valuesMap =>
        match Text2ImgWithCustomPrompt sys (stable_diffusion.SDWebUIClient t)
                (stable_diffusion.internal.mkTXT2IMGReq
                   (default "" (valuesMap !! "prompt"))
                   (default "" (valuesMap !! "negativePrompt"))
                   20 512 512 "DPM++ SDE Karras") h with
        | (h1, Err err) => (h1, Err err)
        | (h1, Panic why) => (h1, Panic why)
        | (h1, Ok base64ImgStr) =>
            match base64_DecodeString base64ImgStr with
            | inl err => (h1, Err err)
            | inr data =>
                let imageName :=
                  fmt_d (stable_diffusion.time_UnixNano sys h1) +:+ ".png" in
                let outputPath :=
                  filepath_Join
                    (stable_diffusion.OutputPath (stable_diffusion.options t))
                    imageName in
                let staticPath :=
                  filepath_Join
                    (stable_diffusion.StaticPath (stable_diffusion.options t))
                    imageName in
                let dir := filepath_Dir outputPath in
                let made :=
                  if stable_diffusion.os_IsNotExist sys h1 dir
                  then [stable_diffusion.MkdirAll dir] else [] in
                match
                  (if stable_diffusion.os_IsNotExist sys h1 dir
                   then stable_diffusion.os_MkdirAll sys h1 dir else None)
                with
                | Some err => (h1 ++ made, Err err)
                | None =>
                    (h1 ++ made ++ [stable_diffusion.WriteFile outputPath data],
                     match stable_diffusion.os_WriteFile sys (h1 ++ made)
                             outputPath data with
                     | Some err => Err err
                     | None =>
                         Ok ("![generated image](" +:+ staticPath +:+ ")")
                     end)
                end
            end
        end
    end.
Proof.
  unfold stable_diffusion.Call.
  destruct (outputparser.Parse _ _) as [valuesMap|err|why]; [|reflexivity..].
  unfold stable_diffusion.io_bind at 1.
  destruct (Text2ImgWithCustomPrompt _ _ _ _) as [h1 [image|err|why]];
    [|reflexivity..].
  destruct (base64_DecodeString image) as [err|data]; [reflexivity|].
  unfold stable_diffusion.io_bind, stable_diffusion.observe,
    stable_diffusion.perform, stable_diffusion.io_ret,
    stable_diffusion.io_fail.
  cbv zeta beta iota.
  destruct (stable_diffusion.os_IsNotExist sys h1 _).
  - destruct (stable_diffusion.os_MkdirAll sys h1 _) as [err|];
      [reflexivity|].
    rewrite <- app_assoc.
    by destruct (stable_diffusion.os_WriteFile sys _ _ _).
  - rewrite app_nil_r. simpl.
    by destruct (stable_diffusion.os_WriteFile sys _ _ _).
Qed.

(** X19.  Whatever the input, the options of the tool and the answers of the
    outside, [Call] sends at most one request.  If it sends one, the input
    was accepted by the parser, and the request is the [POST] on the path
    [/sdapi/v1/txt2img] of the client's address, with the content type set,
    the credentials set exactly when the client has a user, and for body the
    payload of the two prompts of the input with 20 steps, width and height
    512 and the sampler [DPM++ SDE Karras]: the numbers of the options never
    reach the request.  If the request is answered, the body of the answer
    is closed at once, and what follows is at most one directory made and
    then at most one file written, and nothing else. *)
Theorem Call_effects sys t input h :
  let c := stable_diffusion.SDWebUIClient t in
  let new := doneBy h (Call sys t input h).1 in
  new = []
  \/ exists parsed b req0,
       outputparser.Parse (stable_diffusion.structuredPrompt t) input
         = Ok parsed
       /\ json_Marshal
            (stable_diffusion.internal.mkTXT2IMGReq
               (default "" (parsed !! "prompt"))
               (default "" (parsed !! "negativePrompt"))
               20 512 512 "DPM++ SDE Karras") = inr b
       /\ http_NewRequest "POST"
            (stable_diffusion.internal.ApiUrl c +:+ "/sdapi/v1/txt2img") b
          = inr req0
       /\ ((new = [stable_diffusion.HTTPDo (prepared c req0)]
            /\ exists err,
                 stable_diffusion.http_Do sys h (prepared c req0) = inl err)
           \/ exists made wrote,
                new = stable_diffusion.HTTPDo (prepared c req0)
                      :: stable_diffusion.BodyClose :: made ++ wrote
                /\ (made = []
                    \/ exists dir, made = [stable_diffusion.MkdirAll dir])
                /\ (wrote = []
                    \/ exists path data,
                         wrote = [stable_diffusion.WriteFile path data])).
Proof.
  intros c new. subst c new. rewrite Call_run.
  destruct (outputparser.Parse _ _) as [parsed|err|why];
    [|left; apply doneBy_nil..].
  rewrite Text2ImgWithCustomPrompt_run.
  destruct (json_Marshal _) as [err|b] eqn:Hb; [left; apply doneBy_nil|].
  destruct (http_NewRequest _ _ _) as [err|req0] eqn:Hreq;
    [left; apply doneBy_nil|].
  right. exists parsed, b, req0. do 3 (split; [done|]).
  destruct (stable_diffusion.http_Do sys h _) as [err|body] eqn:Hdo.
  { left. split; [apply doneBy_app | by exists err]. }
  right.
  destruct (stable_diffusion.internal.Images _) as [|image0 images];
    [exists [], []; split; [apply doneBy_app | split; by left]|].
  destruct (json_Unmarshal body).2 as [err|];
    [exists [], []; split; [apply doneBy_app | split; by left]|].
  destruct (base64_DecodeString image0) as [err|data];
    [exists [], []; split; [apply doneBy_app | split; by left]|].
  cbv zeta.
  destruct (stable_diffusion.os_IsNotExist sys _ _).
  - destruct (stable_diffusion.os_MkdirAll sys _ _) as [err|].
    + eexists [_], []. split; [|split; [right; eauto | by left]].
      simpl. rewrite <- app_assoc. apply doneBy_app.
    + eexists [_], [_]. split; [|split; right; eauto].
      simpl. rewrite <- app_assoc. apply doneBy_app.
  - eexists [], [_]. split; [|split; [by left | right; eauto]].
    simpl. rewrite <- app_assoc. apply doneBy_app.
Qed.

(** X20.  When [Call] returns a text, a request was sent and answered, the
    answer decoded without error to at least one image, and the first image
    decoded from base64; the file that holds the decoded image was written,
    last, under the output path of the options, with a name made of the
    clock and the suffix [.png], after its directory was made if it did not
    exist; and the text is the link to the file of that name under the
    static path of the options. *)
Theorem Call_success sys t input h h' s :
  Call sys t input h = (h', Ok s) ->
  exists req body image images data,
    stable_diffusion.http_Do sys h req = inr body
    /\ stable_diffusion.internal.Images (json_Unmarshal body).1
       = image :: images
    /\ (json_Unmarshal body).2 = None
    /\ base64_DecodeString image = inr data
    /\ let h1 := h ++ [stable_diffusion.HTTPDo req;
                       stable_diffusion.BodyClose] in
       let imageName :=
         fmt_d (stable_diffusion.time_UnixNano sys h1) +:+ ".png" in
       let outputPath :=
         filepath_Join
           (stable_diffusion.OutputPath (stable_diffusion.options t))
           imageName in
       let dir := filepath_Dir outputPath in
       h' = h1
            ++ (if stable_diffusion.os_IsNotExist sys h1 dir
                then [stable_diffusion.MkdirAll dir] else [])
            ++ [stable_diffusion.WriteFile outputPath data]
       /\ s = "![generated image]("
              +:+ filepath_Join
                    (stable_diffusion.StaticPath (stable_diffusion.options t))
                    imageName
              +:+ ")".
Proof.
  rewrite Call_run.
  destruct (outputparser.Parse _ _) as [parsed|err|why]; [|discriminate..].
  rewrite Text2ImgWithCustomPrompt_run.
  destruct (json_Marshal _) as [err|b]; [discriminate|].
  destruct (http_NewRequest _ _ _) as [err|req0]; [discriminate|].
  destruct (stable_diffusion.http_Do sys h _) as [err|body] eqn:Hdo;
    [discriminate|].
  destruct (stable_diffusion.internal.Images _) as [|image images] eqn:Himg;
    [discriminate|].
  destruct (json_Unmarshal body).2 as [err|] eqn:Herr; [discriminate|].
  destruct (base64_DecodeString image) as [err|data] eqn:Hdata;
    [discriminate|].
  cbv zeta.
  destruct (if stable_diffusion.os_IsNotExist sys _ _ then _ else None)
    as [err|]; [discriminate|].
  destruct (stable_diffusion.os_WriteFile sys _ _ _) as [err|];
    [discriminate|].
  intros [= <- <-].
  by exists (prepared (stable_diffusion.SDWebUIClient t) req0), body, image,
    images, data.
Qed.

(** X21.  When the answer to the request decodes to no image, the client
    panics on the index, whether or not the decoding reported an error: the
    error of a body that is no JSON is never returned.  The body is closed
    all the same, and [Call] panics with it, without writing a file. *)
Theorem Call_without_image sys t input h parsed b req0 body :
  let c := stable_diffusion.SDWebUIClient t in
  let payload :=
    stable_diffusion.internal.mkTXT2IMGReq
      (default "" (parsed !! "prompt"))
      (default "" (parsed !! "negativePrompt"))
      20 512 512 "DPM++ SDE Karras" in
  outputparser.Parse (stable_diffusion.structuredPrompt t) input = Ok parsed ->
  json_Marshal payload = inr b ->
  http_NewRequest "POST"
    (stable_diffusion.internal.ApiUrl c +:+ "/sdapi/v1/txt2img") b = inr req0 ->
  stable_diffusion.http_Do sys h (prepared c req0) = inr body ->
  stable_diffusion.internal.Images (json_Unmarshal body).1 = [] ->
  let after :=
    (h ++ [stable_diffusion.HTTPDo (prepared c req0);
           stable_diffusion.BodyClose],
     Panic "index out of range [0] with length 0") in
  Text2ImgWithCustomPrompt sys c payload h = after
  /\ Call sys t input h = after.
Proof.
  intros c payload Hparse Hb Hreq Hdo Himg after. subst c payload after.
  assert (Hrun : Text2ImgWithCustomPrompt sys (stable_diffusion.SDWebUIClient t)
                   (stable_diffusion.internal.mkTXT2IMGReq
                      (default "" (parsed !! "prompt"))
                      (default "" (parsed !! "negativePrompt"))
                      20 512 512 "DPM++ SDE Karras") h
                 = (h ++ [stable_diffusion.HTTPDo
                            (prepared (stable_diffusion.SDWebUIClient t) req0);
                          stable_diffusion.BodyClose],
                    Panic "index out of range [0] with length 0")).
  { rewrite Text2ImgWithCustomPrompt_run. by rewrite Hb, Hreq, Hdo, Himg. }
  split; [exact Hrun|]. rewrite Call_run, Hparse. by rewrite Hrun.
Qed.

End ImageTool.

Lemma New_needs_URL_witness :
  exists t,
    stable_diffusion.New exampleGetenv exampleParseRequestURI
      [stable_diffusion.WithURL "localhost"] = Ok t
    /\ stable_diffusion.internal.ApiUrl (stable_diffusion.SDWebUIClient t) = "".
Proof.
  eexists. split; [vm_compute; reflexivity|].
  refine (proj2 (proj2 (proj2 (New_needs_URL exampleGetenv
                                 exampleParseRequestURI))
                   [stable_diffusion.WithURL "localhost"] _
                   (OtherError "invalid URI for request") _ _)).
  - vm_compute. reflexivity.
  - vm_compute. reflexivity.
Defined.

Lemma Call_invalid_input_witness :
  exists t,
    stable_diffusion.New exampleGetenv exampleParseRequestURI [] = Ok t
    /\ stable_diffusion.Call exampleMarshal exampleNewRequest exampleUnmarshal
         exampleDecodeString exampleFormat exampleJoin exampleDir
         exampleSystem t
         ("{" +:+ quoted "prompt" +:+ ":" +:+ quoted "a cat" +:+ "}") []
       = ([], Err (OtherError
                     ("stable-diffusion: invalid input format, parse text {"
                      +:+ quoted "prompt" +:+ ":" +:+ quoted "a cat"
                      +:+ "}. output is missing the following fields [negativePrompt]"))).
Proof.
  eexists. split; [vm_compute; reflexivity|].
  refine (eq_trans
            (Call_invalid_input exampleGetenv exampleParseRequestURI
               exampleMarshal exampleNewRequest exampleUnmarshal
               exampleDecodeString exampleFormat exampleJoin exampleDir
               exampleSystem [] _
               ("{" +:+ quoted "prompt" +:+ ":" +:+ quoted "a cat" +:+ "}")
               [] _ _) _).
  - vm_compute. reflexivity.
  - vm_compute. discriminate.
  - vm_compute. reflexivity.
Defined.

Lemma Call_success_witness :
  exists t h',
    stable_diffusion.New exampleGetenv exampleParseRequestURI [] = Ok t
    /\ stable_diffusion.Call exampleMarshal exampleNewRequest exampleUnmarshal
         exampleDecodeString exampleFormat exampleJoin exampleDir
         exampleSystem t catText []
       = (h', Ok "![generated image](/static/images/2.png)")
    /\ exists req data,
         h' = [stable_diffusion.HTTPDo req; stable_diffusion.BodyClose;
               stable_diffusion.MkdirAll "images";
               stable_diffusion.WriteFile "./images/2.png" data].
Proof.
  eexists _, _. split; [vm_compute; reflexivity|].
  lazymatch goal with
  | |- ?run /\ _ => assert (Hrun : run) by (vm_compute; reflexivity)
  end.
  split; [exact Hrun|].
  destruct (Call_success _ _ _ _ _ _ _ _ _ _ _ _ _ Hrun)
    as (req & body & image & images & data & _ & _ & _ & _ & Hh' & _).
  exists req, data. exact Hh'.
Defined.

Lemma Call_without_image_witness :
  exists t,
    stable_diffusion.New exampleGetenv exampleParseRequestURI [] = Ok t
    /\ (stable_diffusion.Call exampleMarshal exampleNewRequest exampleUnmarshal
          exampleDecodeString exampleFormat exampleJoin exampleDir
          exampleSystem t dogText []).2
       = Panic "index out of range [0] with length 0".
Proof.
  eexists. split; [vm_compute; reflexivity|].
  refine (f_equal snd
            (proj2 (Call_without_image exampleMarshal exampleNewRequest
                      exampleUnmarshal exampleDecodeString exampleFormat
                      exampleJoin exampleDir exampleSystem _ dogText []
                      _ _ _ _ _ _ _ _ _))).
  - vm_compute. reflexivity.
  - vm_compute. reflexivity.
  - vm_compute. reflexivity.
  - vm_compute. reflexivity.
  - vm_compute. reflexivity.
Defined.

(** ** Non-streaming chat calls *)

(** X22.  The record of a non-streaming chat call that ends normally is
    made from the first choice of the response alone: its text and the
    content of its message are both the content of that choice's message,
    and its [GenerationInfo] holds the finish reason of that choice and the
    three usage counters of the response, and no other key.  The call has
    issued the one request and nothing else. *)
Theorem chat_record_of_first_choice o request w resp c cs w' g :
  openai.CreateChatCompletion (Chat.client o) (issued w) request = inr resp ->
  openai.hr_Choices resp = c :: cs ->
  Chat.createChatCompletion o request w = (w', Ok g) ->
  w' = issuing (openai.CallChatCompletion request) w
  /\ llms.Text g = openai.cm_Content (openai.hc_Message c)
  /\ schema.Content <$> llms.Message g
     = Some (openai.cm_Content (openai.hc_Message c))
  /\ holdsUsage (llms.GenerationInfo g) (openai.hr_Usage resp)
  /\ llms.GenerationInfo g !! "FinishReason"
     = Some (AnyString (openai.hc_FinishReason c))
  /\ dom (llms.GenerationInfo g)
     = list_to_set ("FinishReason" :: usageKeys).
Proof.
  intros Hresp Hc. unfold Chat.createChatCompletion, mbind, issue.
  rewrite Hresp. cbv beta iota. rewrite Hc.
  assert (Hinfo : forall text fc,
    let g := llms.mkGeneration text (Some (schema.mkAIChatMessage text fc))
               (<[ "CompletionTokens" :=
                     AnyInt (openai.CompletionTokens (openai.hr_Usage resp)) ]>
                (<[ "PromptTokens" :=
                     AnyInt (openai.PromptTokens (openai.hr_Usage resp)) ]>
                (<[ "TotalTokens" :=
                     AnyInt (openai.TotalTokens (openai.hr_Usage resp)) ]>
                {[ "FinishReason" :=
                     AnyString (openai.hc_FinishReason c) ]}))) in
    holdsUsage (llms.GenerationInfo g) (openai.hr_Usage resp)
    /\ llms.GenerationInfo g !! "FinishReason"
       = Some (AnyString (openai.hc_FinishReason c))
    /\ dom (llms.GenerationInfo g)
       = list_to_set ("FinishReason" :: usageKeys)).
  { intros text fc g0. subst g0. simpl. unfold holdsUsage.
    split; [by simplify_map_eq|]. split; [by simplify_map_eq|].
    rewrite !dom_insert_L, dom_singleton_L. set_solver. }
  destruct (String.eqb _ _).
  - destruct (openai.cm_FunctionCall _) as [fc|]; [|discriminate].
    intros [= <- <-]. split; [done|]. split; [done|]. split; [done|].
    apply Hinfo.
  - intros [= <- <-]. split; [done|]. split; [done|]. split; [done|].
    apply Hinfo.
Qed.

Lemma chat_record_of_first_choice_witness :
  exists w' g,
    Chat.createChatCompletion exampleChat (exampleChatRequest hello) emptyWorld
      = (w', Ok g)
    /\ llms.Text g = "Hello"
    /\ llms.GenerationInfo g !! "TotalTokens" = Some (AnyInt 8).
Proof.
  eexists _, _.
  lazymatch goal with
  | |- ?run /\ _ => assert (Hrun : run) by (vm_compute; reflexivity)
  end.
  split; [exact Hrun|].
  destruct (chat_record_of_first_choice exampleChat (exampleChatRequest hello)
              emptyWorld (chatResponseOf "Hello" "stop") _ _ _ _
              ltac:(vm_compute; reflexivity) ltac:(vm_compute; reflexivity)
              Hrun)
    as (_ & Ht & _ & (_ & _ & Hu) & _).
  split; [exact Ht | exact Hu].
Defined.
